(** * A shallow embedding of [server.js]

    The server accepts a file upload, stores it in Backblaze B2, records
    [hash -> metadata] in an in-memory object persisted to
    [reports-store.json], and answers lookups by hash.

    The development follows the source file top to bottom:
    - a small model of the JavaScript values the server inspects dynamically
      (error payloads and the parsed store file);
    - the module-level state and the external world (B2, clock, file system)
      as a state-and-exception monad that records every external call;
    - the session manager ([ensureB2Authorized], [isExpiredAuthError],
      [uploadFileToB2], [ensureB2Ready]);
    - the registry ([loadReports], [saveReports]) and the route handlers;
    - an interleaving model of the asynchronous session manager. *)

From Stdlib Require Import ZArith List String Ascii Bool Lia.
From Stdlib Require Import Permutation Sorted.
From Stdlib Require Import DecimalString.
Import ListNotations.
Open Scope string_scope.
Open Scope Z_scope.

(* ===================================================================== *)
(** ** JavaScript values *)
(* ===================================================================== *)

(** Numbers: the server only meets integers (HTTP statuses, epoch
    milliseconds, sizes) and [NaN] (an invalid [Date]). *)
Inductive number :=
| NaN
| Int (z : Z).

Set Warnings "-register-all".

(** Values. [VObject proto props] is an ordinary object: its prototype and
    its own enumerable properties in creation order. [VObjectPrototype] is
    [Object.prototype]; [VBuiltin name] is the built-in function found under
    [name] on [Object.prototype]. JSON arrays never occur in what the server
    writes or inspects and are left out. *)
Inductive value :=
| VUndefined
| VNull
| VBool (b : bool)
| VNumber (n : number)
| VString (s : string)
| VObject (proto : value) (props : list (string * value))
| VObjectPrototype
| VBuiltin (name : string).

(** The result of evaluating an expression: a value or a thrown exception. *)
Inductive outcome (A : Type) :=
| Returns (a : A)
| Throws (e : value).
Arguments Returns {A} a.
Arguments Throws {A} e.

Definition obind {A B} (o : outcome A) (k : A -> outcome B) : outcome B :=
  match o with
  | Returns a => k a
  | Throws e => Throws e
  end.

(** An object literal [{ k1: v1, ... }]. *)
Definition object (props : list (string * value)) : value :=
  VObject VObjectPrototype props.

(** [new Error(message)] and the engine's [TypeError]: only the own
    [message] property matters to the server. *)
Definition Error (message : string) : value :=
  object [("message", VString message)].

Definition TypeError (message : string) : value :=
  object [("message", VString message)].

(** ToBoolean. *)
Definition truthy (v : value) : bool :=
  match v with
  | VUndefined | VNull => false
  | VBool b => b
  | VNumber NaN => false
  | VNumber (Int z) => negb (z =? 0)
  | VString s => negb (s =? "")%string
  | VObject _ _ | VObjectPrototype | VBuiltin _ => true
  end.

(** [typeof v]. *)
Definition typeof (v : value) : string :=
  match v with
  | VUndefined => "undefined"
  | VNull => "object"
  | VBool _ => "boolean"
  | VNumber _ => "number"
  | VString _ => "string"
  | VObject _ _ | VObjectPrototype => "object"
  | VBuiltin _ => "function"
  end.

(** [v === "s"] and [v === n] against literals. *)
Definition strict_eq_string (v : value) (s : string) : bool :=
  match v with
  | VString t => (t =? s)%string
  | _ => false
  end.

Definition strict_eq_int (v : value) (n : Z) : bool :=
  match v with
  | VNumber (Int z) => z =? n
  | _ => false
  end.

(** Own-property lookup. *)
Fixpoint lookup (k : string) (props : list (string * value)) : option value :=
  match props with
  | [] => None
  | (k', v) :: rest => if (k' =? k)%string then Some v else lookup k rest
  end.

Definition has_own (k : string) (props : list (string * value)) : bool :=
  match lookup k props with
  | Some _ => true
  | None => false
  end.

(** The function-valued members of [Object.prototype]; [__proto__] is its
    one accessor. *)
Definition Object_prototype_members : list string :=
  [ "constructor"; "__defineGetter__"; "__defineSetter__"; "hasOwnProperty";
    "__lookupGetter__"; "__lookupSetter__"; "isPrototypeOf";
    "propertyIsEnumerable"; "toString"; "valueOf"; "toLocaleString" ].

Definition mem_string (k : string) (l : list string) : bool :=
  existsb (String.eqb k) l.

Definition prototypeOf (v : value) : value :=
  match v with
  | VObject p _ => p
  | _ => VNull
  end.

(** [receiver[k]] for an object, walking the prototype chain from [cur]. *)
Fixpoint get_from (receiver cur : value) (k : string) : value :=
  match cur with
  | VObject p props =>
      match lookup k props with
      | Some v => v
      | None => get_from receiver p k
      end
  | VObjectPrototype =>
      if (k =? "__proto__")%string then prototypeOf receiver
      else if mem_string k Object_prototype_members then VBuiltin k
      else VUndefined
  | _ => VUndefined
  end.

(** [o[k]] with a computed key; the server only does this on [reports]. *)
Definition get (o : value) (k : string) : value := get_from o o k.

(** The property names the server reads with a literal [.name]. None of
    them is defined on a primitive wrapper or on a built-in function. *)
Inductive field :=
| f_response | f_data | f_code | f_status | f_message
| f_fileName | f_fileUrl | f_mimeType | f_createdAt.

Definition field_name (f : field) : string :=
  match f with
  | f_response => "response"
  | f_data => "data"
  | f_code => "code"
  | f_status => "status"
  | f_message => "message"
  | f_fileName => "fileName"
  | f_fileUrl => "fileUrl"
  | f_mimeType => "mimeType"
  | f_createdAt => "createdAt"
  end.

(** [v.name]: a TypeError on [undefined] and [null]. *)
Definition member (v : value) (f : field) : outcome value :=
  match v with
  | VUndefined | VNull =>
      Throws (TypeError ("Cannot read properties of " ++ typeof v))
  | VObject _ _ | VObjectPrototype => Returns (get v (field_name f))
  | VBool _ | VNumber _ | VString _ | VBuiltin _ => Returns VUndefined
  end.

(** [v && v.name]. *)
Definition and_member (v : value) (f : field) : outcome value :=
  if truthy v then member v f else Returns v.

(** [a || b]. *)
Definition or_value (a b : value) : value := if truthy a then a else b.

(* ===================================================================== *)
(** ** [isExpiredAuthError] *)
(* ===================================================================== *)

Definition isExpiredAuthError (err : value) : outcome bool :=
  obind (and_member err f_response) (fun resp =>
  obind (and_member resp f_data) (fun resp_data =>
  obind (and_member resp_data f_code) (fun resp_data_code =>
  obind (if truthy resp_data_code
         then obind (member resp f_data) (fun d => member d f_code)
         else and_member err f_code) (fun code =>
  obind (and_member resp f_status) (fun resp_status =>
  obind (if truthy resp_status
         then member resp f_status
         else and_member err f_status) (fun status =>
  Returns (strict_eq_string code "expired_auth_token"
           || strict_eq_string code "bad_auth_token"
           || strict_eq_int status 401))))))).

(* ===================================================================== *)
(** ** Configuration, B2 payloads and the outside world *)
(* ===================================================================== *)

Definition nonempty (s : string) : bool := negb (s =? "")%string.

(** [a || b] on strings. *)
Definition or_string (a b : string) : string := if nonempty a then a else b.

(** The [process.env] settings read at start-up; an unset variable and an
    empty one are both falsy and are both written [""]. *)
Record Environment := {
  b2KeyId : string;
  b2AppKey : string;
  b2BucketIdEnv : string;
  b2BucketNameEnv : string;
  b2PublicBaseOverride : string
}.

(** What the [backblaze-b2] client resolves with. An [option] stands where
    the source guards against a missing member. *)
Record AuthData := { downloadUrl : string; accountId : string }.
Record AuthResponse := { auth_data : option AuthData }.
Record UploadUrlData := { uploadUrl : string; authorizationToken : string }.
Record UploadUrlResponse := { uploadUrl_data : option UploadUrlData }.
Record Bucket := { bucket_id : string; bucket_name : string }.
Record ListBucketsResponse := { list_data : option (option (list Bucket)) }.

(** What the code reads from the [data] of [b2.getBucket]: its [bucketId]
    and its [bucketName], each [undefined] ([None]) when [data] has no such
    member. The client resolves [getBucket] with the payload of
    [b2_list_buckets], where the buckets sit under [data.buckets]: with it
    both are [undefined]. *)
Record GetBucketData := {
  gb_bucketId : option string;
  gb_bucketName : option string
}.
Record GetBucketResponse := { gb_data : option GetBucketData }.

(** [b2Config]; the id and the name are [undefined] ([None]) when they
    were read from an object that has none. *)
Record B2Config := {
  enabled : bool;
  bucketId : option string;
  bucketName : option string;
  publicBaseUrl : string
}.

(** [String(v)] of a string or [undefined]. *)
Definition string_or_undefined (o : option string) : string :=
  match o with
  | Some s => s
  | None => "undefined"
  end.

(** Every call that leaves the process. *)
Inductive event :=
| B2_authorize
| B2_getUploadUrl (bucket : option string)
| B2_uploadFile (url token fileName : string) (data : list Byte.byte)
    (mime : string)
| B2_listBuckets (account : string)
| B2_getBucket_byId (bucket : string)
| B2_getBucket_byName (name : string)
| Console_warn (text : string)
| Console_error (label : string) (err : value)
| Fs_readFile
| Fs_writeFile (data : value).

(** How the outside answers. Each answer may depend on everything that
    happened before (the events so far, the call included); the clock is
    read by position. *)
Record World := {
  authorize_result : list event -> outcome AuthResponse;
  getUploadUrl_result : list event -> outcome UploadUrlResponse;
  uploadFile_result : list event -> outcome value;
  listBuckets_result : list event -> outcome ListBucketsResponse;
  getBucket_result : list event -> outcome GetBucketResponse;
  readFile_result : list event -> outcome string;
  writeFile_result : list event -> outcome unit;
  Date_now : nat -> Z;
  Date_toISOString : nat -> string
}.

(** The module-level variables of [server.js], the events so far and the
    number of clock readings so far. A promise is represented by what it
    settles to; [None] is [null]. *)
Record State := {
  b2 : bool;
  b2Config : B2Config;
  b2InitPromise : option B2Config;
  b2AuthPromise : option (outcome AuthResponse);
  b2LastAuthAt : Z;
  b2LastAuthResponse : option AuthResponse;
  reports : value;
  trace : list event;
  clock_reads : nat
}.

Definition B2_AUTH_TTL_MS : Z := 1000 * 60 * 60 * 23.

(** Both halves of the key are set. *)
Definition credentials_configured (env : Environment) : bool :=
  nonempty (b2KeyId env) && nonempty (b2AppKey env).

(** The key is set and so is the bucket id or the bucket name: what line
    140 asks for before it initialises B2. *)
Definition storage_configured (env : Environment) : bool :=
  credentials_configured env
  && (nonempty (b2BucketIdEnv env) || nonempty (b2BucketNameEnv env)).

Definition set_b2 (x : bool) (s : State) : State :=
  {| b2 := x; b2Config := b2Config s; b2InitPromise := b2InitPromise s;
     b2AuthPromise := b2AuthPromise s; b2LastAuthAt := b2LastAuthAt s;
     b2LastAuthResponse := b2LastAuthResponse s; reports := reports s;
     trace := trace s; clock_reads := clock_reads s |}.

Definition set_b2Config (x : B2Config) (s : State) : State :=
  {| b2 := b2 s; b2Config := x; b2InitPromise := b2InitPromise s;
     b2AuthPromise := b2AuthPromise s; b2LastAuthAt := b2LastAuthAt s;
     b2LastAuthResponse := b2LastAuthResponse s; reports := reports s;
     trace := trace s; clock_reads := clock_reads s |}.

Definition set_b2InitPromise (x : option B2Config) (s : State) : State :=
  {| b2 := b2 s; b2Config := b2Config s; b2InitPromise := x;
     b2AuthPromise := b2AuthPromise s; b2LastAuthAt := b2LastAuthAt s;
     b2LastAuthResponse := b2LastAuthResponse s; reports := reports s;
     trace := trace s; clock_reads := clock_reads s |}.

Definition set_b2AuthPromise (x : option (outcome AuthResponse)) (s : State)
  : State :=
  {| b2 := b2 s; b2Config := b2Config s; b2InitPromise := b2InitPromise s;
     b2AuthPromise := x; b2LastAuthAt := b2LastAuthAt s;
     b2LastAuthResponse := b2LastAuthResponse s; reports := reports s;
     trace := trace s; clock_reads := clock_reads s |}.

Definition set_b2LastAuthAt (x : Z) (s : State) : State :=
  {| b2 := b2 s; b2Config := b2Config s; b2InitPromise := b2InitPromise s;
     b2AuthPromise := b2AuthPromise s; b2LastAuthAt := x;
     b2LastAuthResponse := b2LastAuthResponse s; reports := reports s;
     trace := trace s; clock_reads := clock_reads s |}.

Definition set_b2LastAuthResponse (x : option AuthResponse) (s : State)
  : State :=
  {| b2 := b2 s; b2Config := b2Config s; b2InitPromise := b2InitPromise s;
     b2AuthPromise := b2AuthPromise s; b2LastAuthAt := b2LastAuthAt s;
     b2LastAuthResponse := x; reports := reports s;
     trace := trace s; clock_reads := clock_reads s |}.

Definition set_reports (x : value) (s : State) : State :=
  {| b2 := b2 s; b2Config := b2Config s; b2InitPromise := b2InitPromise s;
     b2AuthPromise := b2AuthPromise s; b2LastAuthAt := b2LastAuthAt s;
     b2LastAuthResponse := b2LastAuthResponse s; reports := x;
     trace := trace s; clock_reads := clock_reads s |}.

Definition set_trace (x : list event) (s : State) : State :=
  {| b2 := b2 s; b2Config := b2Config s; b2InitPromise := b2InitPromise s;
     b2AuthPromise := b2AuthPromise s; b2LastAuthAt := b2LastAuthAt s;
     b2LastAuthResponse := b2LastAuthResponse s; reports := reports s;
     trace := x; clock_reads := clock_reads s |}.

Definition set_clock_reads (x : nat) (s : State) : State :=
  {| b2 := b2 s; b2Config := b2Config s; b2InitPromise := b2InitPromise s;
     b2AuthPromise := b2AuthPromise s; b2LastAuthAt := b2LastAuthAt s;
     b2LastAuthResponse := b2LastAuthResponse s; reports := reports s;
     trace := trace s; clock_reads := x |}.

(* ===================================================================== *)
(** ** The state-and-exception monad *)
(* ===================================================================== *)

(** A computation runs from a state to a result or an exception, and a
    state either way: what was assigned before a throw stays assigned. *)
Definition M (A : Type) : Type := State -> outcome A * State.

Definition ret {A} (a : A) : M A := fun s => (Returns a, s).

Definition throw {A} (e : value) : M A := fun s => (Throws e, s).

Definition bind {A B} (m : M A) (k : A -> M B) : M B :=
  fun s =>
    match m s with
    | (Returns a, s') => k a s'
    | (Throws e, s') => (Throws e, s')
    end.

Declare Scope js_scope.
Delimit Scope js_scope with js.
Notation "x <- m ;; k" := (bind m (fun x => k))
  (at level 61, m at next level, right associativity) : js_scope.
Notation "m ;; k" := (bind m (fun _ => k))
  (at level 61, right associativity) : js_scope.
Open Scope js_scope.

Definition read : M State := fun s => (Returns s, s).

Definition modify (f : State -> State) : M unit := fun s => (Returns tt, f s).

(** [try { m } catch (e) { h e }]. *)
Definition try_catch {A} (m : M A) (h : value -> M A) : M A :=
  fun s =>
    match m s with
    | (Returns a, s') => (Returns a, s')
    | (Throws e, s') => h e s'
    end.

(** [try { m } finally { f }]. *)
Definition try_finally {A} (m : M A) (f : M unit) : M A :=
  fun s =>
    match m s with
    | (r, s') =>
        match f s' with
        | (Returns _, s'') => (r, s'')
        | (Throws e, s'') => (Throws e, s'')
        end
    end.

(** Run [m] as the body of an [async] function: the promise it settles. *)
Definition settle {A} (m : M A) : M (outcome A) :=
  fun s => match m s with (r, s') => (Returns r, s') end.

(** [await p] on a settled promise. *)
Definition await {A} (p : outcome A) : M A := fun s => (p, s).

(** A call that leaves the process: it is recorded, then answered. *)
Definition external {A} (ev : event) (answer : list event -> outcome A)
  : M A :=
  fun s => let t := (trace s ++ [ev])%list in (answer t, set_trace t s).

Definition lift {A} (o : outcome A) : M A := fun s => (o, s).

(* ===================================================================== *)
(** ** The session manager *)
(* ===================================================================== *)

Section SessionManager.

Variable env : Environment.
Variable world : World.

(** [Date.now()]. *)
Definition now : M Z :=
  fun s => (Returns (Date_now world (clock_reads s)),
            set_clock_reads (S (clock_reads s)) s).

(** [new Date().toISOString()]. *)
Definition now_iso : M string :=
  fun s => (Returns (Date_toISOString world (clock_reads s)),
            set_clock_reads (S (clock_reads s)) s).

(** A method call on [b2]: a TypeError while [b2] is still undefined. *)
Definition b2_call {A} (ev : event) (answer : list event -> outcome A)
  : M A :=
  s <- read ;;
  if b2 s then external ev answer
  else throw (TypeError "Cannot read properties of undefined").

Definition console_warn (text : string) : M unit :=
  modify (fun s => set_trace (trace s ++ [Console_warn text])%list s).

Definition console_error (label : string) (err : value) : M unit :=
  modify (fun s => set_trace (trace s ++ [Console_error label err])%list s).

(** [ensureB2Authorized(force)], run without interleaving: the handshake
    started on line 91 settles before anything else happens. *)
Definition ensureB2Authorized (force : bool) : M AuthResponse :=
  if negb (nonempty (b2KeyId env)) || negb (nonempty (b2AppKey env)) then
    throw (Error "B2 credentials are not configured")
  else
    t <- now ;;
    s <- read ;;
    match (if negb force && negb (b2LastAuthAt s =? 0)
              && (t - b2LastAuthAt s <? B2_AUTH_TTL_MS)
           then b2LastAuthResponse s else None) with
    | Some cached => ret cached
    | None =>
        match b2AuthPromise s with
        | Some p => await p
        | None =>
            (if b2 s then ret tt else modify (set_b2 true)) ;;
            p <- settle (auth <- external B2_authorize
                                   (authorize_result world) ;;
                         t' <- now ;;
                         modify (set_b2LastAuthAt t') ;;
                         modify (set_b2LastAuthResponse (Some auth)) ;;
                         ret auth) ;;
            modify (set_b2AuthPromise (Some p)) ;;
            try_finally (await p) (modify (set_b2AuthPromise None))
        end
    end.

(** The closure [attempt] of [uploadFileToB2]. *)
Definition attempt (cfg : B2Config) (targetName : string)
    (buffer : list Byte.byte) (mimeType : string) (forceAuth : bool)
  : M value :=
  ensureB2Authorized forceAuth ;;
  uploadUrlResp <- b2_call (B2_getUploadUrl (bucketId cfg))
                     (getUploadUrl_result world) ;;
  match uploadUrl_data uploadUrlResp with
  | None => throw (TypeError "Cannot read properties of undefined")
  | Some d =>
      b2_call (B2_uploadFile (uploadUrl d) (authorizationToken d)
                 targetName buffer mimeType)
        (uploadFile_result world)
  end.

Definition uploadFileToB2 (cfg : B2Config) (targetName : string)
    (buffer : list Byte.byte) (mimeType : string) : M value :=
  try_catch (attempt cfg targetName buffer mimeType false)
    (fun err =>
       expired <- lift (isExpiredAuthError err) ;;
       if expired then
         console_warn
           "B2 auth token expired, re-authorizing and retrying upload" ;;
         attempt cfg targetName buffer mimeType true
       else throw err).

(** The message of the discovery failure (in Arabic in the source). *)
Definition bucket_not_found : string :=
  "B2 bucket not found. Check B2_BUCKET_ID/B2_BUCKET_NAME".

(** [gb && gb.data ? gb.data : null], as the [bucketId] and the
    [bucketName] that lines 178-179 then read from it. *)
Definition found_in (gb : GetBucketResponse)
  : option (option string * option string) :=
  match gb_data gb with
  | Some d => Some (gb_bucketId d, gb_bucketName d)
  | None => None
  end.

(** The body of the [async] function whose promise [ensureB2Ready] caches. *)
Definition b2Init : M B2Config :=
  if negb (nonempty (b2KeyId env)) || negb (nonempty (b2AppKey env))
     || (negb (nonempty (b2BucketIdEnv env))
         && negb (nonempty (b2BucketNameEnv env)))
  then
    modify (fun s =>
      set_b2Config {| enabled := false; bucketId := bucketId (b2Config s);
                      bucketName := bucketName (b2Config s);
                      publicBaseUrl := publicBaseUrl (b2Config s) |} s) ;;
    s <- read ;; ret (b2Config s)
  else
    auth <- ensureB2Authorized true ;;
    let downloadUrl :=
      match auth_data auth with
      | Some d => or_string (downloadUrl d) ""
      | None => ""
      end in
    let bucketId0 := b2BucketIdEnv env in
    let bucketName0 := b2BucketNameEnv env in
    resolved <-
      (if negb (nonempty bucketId0) || negb (nonempty bucketName0) then
         found <-
           try_catch
             (match auth_data auth with
              | None => throw (TypeError "Cannot read properties of undefined")
              | Some d =>
                  list <- b2_call (B2_listBuckets (accountId d))
                            (listBuckets_result world) ;;
                  let buckets :=
                    match list_data list with
                    | Some (Some bs) => bs
                    | _ => []
                    end in
                  if nonempty bucketId0 then
                    ret (find (fun b => (bucket_id b =? bucketId0)%string)
                           buckets)
                  else if nonempty bucketName0 then
                    ret (find (fun b => (bucket_name b =? bucketName0)%string)
                           buckets)
                  else ret None
              end)
             (fun listErr => ret None) ;;
         found <-
           match found with
           | Some b => ret (Some (Some (bucket_id b), Some (bucket_name b)))
           | None =>
               try_catch
                 (if nonempty bucketId0 then
                    gb <- b2_call (B2_getBucket_byId bucketId0)
                            (getBucket_result world) ;;
                    ret (found_in gb)
                  else if nonempty bucketName0 then
                    gb <- b2_call (B2_getBucket_byName bucketName0)
                            (getBucket_result world) ;;
                    ret (found_in gb)
                  else ret None)
                 (fun gbErr => ret None)
           end ;;
         match found with
         | None => throw (Error bucket_not_found)
         | Some ids => ret ids
         end
       else ret (Some bucketId0, Some bucketName0)) ;;
    let publicBaseUrl0 := or_string (b2PublicBaseOverride env) downloadUrl in
    modify (set_b2Config {| enabled := true; bucketId := fst resolved;
                            bucketName := snd resolved;
                            publicBaseUrl := publicBaseUrl0 |}) ;;
    s <- read ;; ret (b2Config s).

(** [ensureB2Ready()]: the promise is created once and kept for good; its
    [.catch] logs the error and resolves with the disabled configuration. *)
Definition ensureB2Ready : M B2Config :=
  s <- read ;;
  match b2InitPromise s with
  | Some cfg => ret cfg
  | None =>
      cfg <- try_catch b2Init
               (fun err =>
                  console_error "B2 init error:" err ;;
                  modify (fun s =>
                    set_b2Config
                      {| enabled := false; bucketId := bucketId (b2Config s);
                         bucketName := bucketName (b2Config s);
                         publicBaseUrl := publicBaseUrl (b2Config s) |} s) ;;
                  s <- read ;; ret (b2Config s)) ;;
      modify (set_b2InitPromise (Some cfg)) ;;
      ret cfg
  end.

End SessionManager.

(* ===================================================================== *)
(** ** Strings, URLs and digests *)
(* ===================================================================== *)

(** A JavaScript string is held as its UTF-8 bytes; the strings the server
    handles are decoded from bytes and are well formed. *)

Definition slash : ascii := "/"%char.

(** [s.split('/')]. *)
Fixpoint split_slash (s : string) : list string :=
  match s with
  | EmptyString => [EmptyString]
  | String c rest =>
      if Ascii.eqb c slash then EmptyString :: split_slash rest
      else match split_slash rest with
           | seg :: segs => String c seg :: segs
           | [] => [String c EmptyString]
           end
  end.

(** [segments.join('/')]. *)
Definition join_slash (segments : list string) : string :=
  String.concat "/" segments.

(** [s.replace(/\/$/, '')]: one trailing slash is dropped. *)
Fixpoint strip_trailing_slash (s : string) : string :=
  match s with
  | EmptyString => EmptyString
  | String c EmptyString =>
      if Ascii.eqb c slash then EmptyString else s
  | String c rest => String c (strip_trailing_slash rest)
  end.

(** The characters [encodeURIComponent] leaves alone:
    [A-Z a-z 0-9 - _ . ! ~ * ' ( )]. *)
Definition is_unreserved (c : ascii) : bool :=
  let n := nat_of_ascii c in
  ((65 <=? n) && (n <=? 90))%nat
  || ((97 <=? n) && (n <=? 122))%nat
  || ((48 <=? n) && (n <=? 57))%nat
  || existsb (Ascii.eqb c)
       ["-"; "_"; "."; "!"; "~"; "*"; "'"; "("; ")"]%char.

Definition hex_upper (n : nat) : ascii :=
  ascii_of_nat (if (n <? 10)%nat then 48 + n else 55 + n).

Definition hex_lower (n : nat) : ascii :=
  ascii_of_nat (if (n <? 10)%nat then 48 + n else 87 + n).

(** [encodeURIComponent(s)]: every other byte of the UTF-8 form becomes
    [%XX]. *)
Fixpoint encodeURIComponent (s : string) : string :=
  match s with
  | EmptyString => EmptyString
  | String c rest =>
      if is_unreserved c then String c (encodeURIComponent rest)
      else
        let n := nat_of_ascii c in
        String "%" (String (hex_upper (n / 16))
                      (String (hex_upper (n mod 16))
                         (encodeURIComponent rest)))
  end.

(** [digest('hex')]. *)
Fixpoint hex_of_bytes (bytes : list Byte.byte) : string :=
  match bytes with
  | [] => EmptyString
  | b :: rest =>
      let n := Byte.to_nat b in
      String (hex_lower (n / 16))
        (String (hex_lower (n mod 16)) (hex_of_bytes rest))
  end.

(** Lines 277-283: the public URL of an uploaded file. *)
Definition safePath (targetName : string) : string :=
  join_slash (map encodeURIComponent (split_slash targetName)).

Definition fileUrl_of (cfg : B2Config) (targetName : string) : string :=
  let base := strip_trailing_slash (or_string (publicBaseUrl cfg) "") in
  let safeBucket :=
    encodeURIComponent (string_or_undefined (bucketName cfg)) in
  base ++ "/file/" ++ safeBucket ++ "/" ++ safePath targetName.

(* ===================================================================== *)
(** ** Property assignment and enumeration *)
(* ===================================================================== *)

Fixpoint replace_own (k : string) (v : value) (props : list (string * value))
  : list (string * value) :=
  match props with
  | [] => []
  | (k', x) :: rest =>
      if (k' =? k)%string then (k', v) :: rest
      else (k', x) :: replace_own k v rest
  end.

(** Does a lookup of [__proto__] along the chain end at the accessor of
    [Object.prototype]? *)
Fixpoint reaches_proto_accessor (p : value) : bool :=
  match p with
  | VObjectPrototype => true
  | VObject p' props =>
      if has_own "__proto__" props then false else reaches_proto_accessor p'
  | _ => false
  end.

Definition is_object_or_null (v : value) : bool :=
  match v with
  | VNull | VObject _ _ | VObjectPrototype | VBuiltin _ => true
  | _ => false
  end.

(** [o[k] = v] on an ordinary object: an own property is overwritten in
    place; [__proto__] reaches the accessor of [Object.prototype], which
    replaces the prototype when [v] is an object or [null]; any other key
    becomes a new own property, created last. *)
Definition set (o : value) (k : string) (v : value) : value :=
  match o with
  | VObject p props =>
      if has_own k props then VObject p (replace_own k v props)
      else if (k =? "__proto__")%string && reaches_proto_accessor p then
        if is_object_or_null v then VObject v props else o
      else VObject p (props ++ [(k, v)])
  | _ => o
  end.

(** An array index: a canonical decimal numeral below [2^32 - 1]. *)
Definition digit_value (c : ascii) : option N :=
  let n := N_of_ascii c in
  if ((48 <=? n) && (n <=? 57))%N then Some (n - 48)%N else None.

Fixpoint digits_value (acc : N) (s : string) : option N :=
  match s with
  | EmptyString => Some acc
  | String c rest =>
      match digit_value c with
      | Some d => digits_value (acc * 10 + d)%N rest
      | None => None
      end
  end.

Definition array_index (k : string) : option N :=
  match k with
  | EmptyString => None
  | String c rest =>
      if Ascii.eqb c "0"%char && nonempty rest then None
      else match digits_value 0%N k with
           | Some n => if (n <? 2 ^ 32 - 1)%N then Some n else None
           | None => None
           end
  end.

Fixpoint insert_index (n : N) (entry : string * value)
    (sorted : list (N * (string * value))) : list (N * (string * value)) :=
  match sorted with
  | [] => [(n, entry)]
  | (m, e) :: rest =>
      if (n <? m)%N then (n, entry) :: (m, e) :: rest
      else (m, e) :: insert_index n entry rest
  end.

Fixpoint index_entries (props : list (string * value))
  : list (N * (string * value)) :=
  match props with
  | [] => []
  | (k, v) :: rest =>
      match array_index k with
      | Some n => insert_index n (k, v) (index_entries rest)
      | None => index_entries rest
      end
  end.

Definition named_entries (props : list (string * value))
  : list (string * value) :=
  filter (fun kv => match array_index (fst kv) with
                    | Some _ => false
                    | None => true
                    end) props.

(** [Object.entries(o)]: the own properties, array indices first in
    ascending order, then the other keys in creation order. *)
Definition Object_entries (o : value) : list (string * value) :=
  match o with
  | VObject _ props => (map snd (index_entries props) ++ named_entries props)%list
  | _ => []
  end.

(* ===================================================================== *)
(** ** SHA-256 *)
(* ===================================================================== *)

(** [crypto.createHash('sha256')]: FIPS 180-4 on 32-bit words held in [Z]. *)
Module SHA256.

Definition mask32 (x : Z) : Z := x mod 2 ^ 32.

Definition add32 (a b : Z) : Z := mask32 (a + b).

Definition rotr (n x : Z) : Z :=
  Z.lor (Z.shiftr x n) (mask32 (Z.shiftl x (32 - n))).

Definition shr (n x : Z) : Z := Z.shiftr x n.

Definition not32 (x : Z) : Z := Z.lxor x (2 ^ 32 - 1).

Definition Ch (x y z : Z) : Z :=
  Z.lxor (Z.land x y) (Z.land (not32 x) z).

Definition Maj (x y z : Z) : Z :=
  Z.lxor (Z.lxor (Z.land x y) (Z.land x z)) (Z.land y z).

Definition Sigma0 (x : Z) : Z :=
  Z.lxor (Z.lxor (rotr 2 x) (rotr 13 x)) (rotr 22 x).

Definition Sigma1 (x : Z) : Z :=
  Z.lxor (Z.lxor (rotr 6 x) (rotr 11 x)) (rotr 25 x).

Definition sigma0 (x : Z) : Z :=
  Z.lxor (Z.lxor (rotr 7 x) (rotr 18 x)) (shr 3 x).

Definition sigma1 (x : Z) : Z :=
  Z.lxor (Z.lxor (rotr 17 x) (rotr 19 x)) (shr 10 x).

(** The first sixty-four primes. *)
Definition is_prime (n : nat) : bool :=
  (2 <=? n)%nat
  && forallb (fun d => negb ((n mod d =? 0)%nat)) (seq 2 (n - 2)).

Definition primes : list Z :=
  map Z.of_nat (filter is_prime (seq 2 310)).

(** The integer cube root, by bisection between [lo] and [hi]. *)
Fixpoint cube_root (fuel : nat) (lo hi x : Z) : Z :=
  match fuel with
  | O => lo
  | S fuel' =>
      if hi - lo <=? 1 then lo
      else
        let mid := (lo + hi) / 2 in
        if mid * mid * mid <=? x then cube_root fuel' mid hi x
        else cube_root fuel' lo mid x
  end.

(** The round constants: the first thirty-two bits of the fractional parts
    of the cube roots of the primes. *)
Definition K : list Z :=
  Eval vm_compute in
    map (fun p => mask32 (cube_root 64 0 (2 ^ 40) (p * 2 ^ 96))) primes.

(** The initial hash value: the same of the square roots of the first
    eight primes. *)
Definition H0 : list Z :=
  Eval vm_compute in
    map (fun p => mask32 (Z.sqrt (p * 2 ^ 64))) (firstn 8 primes).

(** The message, a [1] bit, zeros up to 56 modulo 64 bytes, and the length
    in bits on eight bytes. *)
Definition pad (msg : list Z) : list Z :=
  let len := Z.of_nat (List.length msg) in
  let zeros := Z.to_nat ((55 - len) mod 64) in
  let bits := len * 8 in
  (msg ++ [128] ++ repeat 0 zeros
   ++ map (fun i => (bits / 2 ^ (8 * (7 - Z.of_nat i))) mod 256)
        (seq 0 8))%list.

Fixpoint words_of_bytes (bs : list Z) : list Z :=
  match bs with
  | b0 :: b1 :: b2 :: b3 :: rest =>
      (b0 * 2 ^ 24 + b1 * 2 ^ 16 + b2 * 2 ^ 8 + b3) :: words_of_bytes rest
  | _ => []
  end.

(** The message schedule: sixteen words extended to sixty-four. *)
Fixpoint extend (n : nat) (w : list Z) : list Z :=
  match n with
  | O => w
  | S n' =>
      let t := List.length w in
      let at_ i := nth (t - i) w 0 in
      extend n'
        (w ++ [add32 (add32 (sigma1 (at_ 2%nat)) (at_ 7%nat))
                 (add32 (sigma0 (at_ 15%nat)) (at_ 16%nat))])%list
  end.

Definition round (st : list Z) (kw : Z * Z) : list Z :=
  match st with
  | [a; b; c; d; e; f; g; h] =>
      let t1 := add32 (add32 (add32 h (Sigma1 e))
                         (add32 (Ch e f g) (fst kw))) (snd kw) in
      let t2 := add32 (Sigma0 a) (Maj a b c) in
      [add32 t1 t2; a; b; c; add32 d t1; e; f; g]
  | _ => st
  end.

Definition compress (hash block : list Z) : list Z :=
  let w := extend 48 block in
  let final := fold_left round (combine K w) hash in
  map (fun xy => add32 (fst xy) (snd xy)) (combine hash final).

Fixpoint blocks (n : nat) (ws : list Z) : list (list Z) :=
  match n with
  | O => []
  | S n' =>
      match ws with
      | [] => []
      | _ => firstn 16 ws :: blocks n' (skipn 16 ws)
      end
  end.

Definition bytes_of_word (w : Z) : list Z :=
  [ (w / 2 ^ 24) mod 256; (w / 2 ^ 16) mod 256; (w / 2 ^ 8) mod 256;
    w mod 256 ].

Definition byte_of_Z (z : Z) : Byte.byte :=
  match Byte.of_N (Z.to_N z) with
  | Some b => b
  | None => Byte.x00
  end.

Definition digest (msg : list Byte.byte) : list Byte.byte :=
  let ws := words_of_bytes (pad (map (fun b => Z.of_N (Byte.to_N b)) msg)) in
  let hash := fold_left compress (blocks (List.length ws) ws) H0 in
  map byte_of_Z (flat_map bytes_of_word hash).

End SHA256.

Definition sha256 (data : list Byte.byte) : list Byte.byte :=
  SHA256.digest data.

Definition bytes_of_string (s : string) : list Byte.byte :=
  map byte_of_ascii (list_ascii_of_string s).

(* ===================================================================== *)
(** ** Dates and [Array.prototype.sort] *)
(* ===================================================================== *)

Definition char_at (i : nat) (s : string) : ascii :=
  match String.get i s with
  | Some c => c
  | None => zero
  end.

Definition digit_at (i : nat) (s : string) : option Z :=
  let n := Z.of_nat (nat_of_ascii (char_at i s)) in
  if (48 <=? n) && (n <=? 57) then Some (n - 48) else None.

(** The decimal field of [len] digits that starts at position [i]. *)
Fixpoint field_at (len i : nat) (s : string) (acc : Z) : option Z :=
  match len with
  | O => Some acc
  | S len' =>
      match digit_at i s with
      | Some d => field_at len' (S i) s (acc * 10 + d)
      | None => None
      end
  end.

Definition is_leap (y : Z) : bool :=
  ((y mod 4 =? 0) && negb (y mod 100 =? 0)) || (y mod 400 =? 0).

Definition days_in_month (y m : Z) : Z :=
  if m =? 2 then (if is_leap y then 29 else 28)
  else if (m =? 4) || (m =? 6) || (m =? 9) || (m =? 11) then 30
  else 31.

(** Days from 1970-01-01 to the given civil date. *)
Definition days_from_civil (y m d : Z) : Z :=
  let y' := if m <=? 2 then y - 1 else y in
  let era := y' / 400 in
  let yoe := y' - era * 400 in
  let doy := (153 * (if 2 <? m then m - 3 else m + 9) + 2) / 5 + d - 1 in
  let doe := yoe * 365 + yoe / 4 - yoe / 100 + doy in
  era * 146097 + doe - 719468.

Definition make_time (y mo d h mi sec ms : Z) : number :=
  if (1 <=? mo) && (mo <=? 12) && (1 <=? d) && (d <=? days_in_month y mo)
     && ((h <=? 23) || ((h =? 24) && (mi =? 0) && (sec =? 0) && (ms =? 0)))
     && (mi <=? 59) && (sec <=? 59)
  then Int (days_from_civil y mo d * 86400000
            + h * 3600000 + mi * 60000 + sec * 1000 + ms)
  else NaN.

Definition all_some7 (a b c d e f g : option Z)
  : option (Z * Z * Z * Z * Z * Z * Z) :=
  match a, b, c, d, e, f, g with
  | Some a, Some b, Some c, Some d, Some e, Some f, Some g =>
      Some (a, b, c, d, e, f, g)
  | _, _, _, _, _, _, _ => None
  end.

(** [Date.parse] restricted to the date-time string format of ECMA-262,
    [YYYY-MM-DDTHH:mm:ss.sssZ] (what [toISOString] writes) and its date-only
    form [YYYY-MM-DD]; a field out of range or any other text is [NaN]. An
    engine may accept further formats of its own. *)
Definition Date_parse_standard (s : string) : number :=
  let has c i := Ascii.eqb (char_at i s) c in
  let date_shape := has "-"%char 4%nat && has "-"%char 7%nat in
  if (String.length s =? 10)%nat && date_shape then
    match all_some7 (field_at 4 0 s 0) (field_at 2 5 s 0) (field_at 2 8 s 0)
            (Some 0) (Some 0) (Some 0) (Some 0) with
    | Some (y, mo, d, h, mi, sec, ms) => make_time y mo d h mi sec ms
    | None => NaN
    end
  else if (String.length s =? 24)%nat && date_shape
          && has "T"%char 10%nat && has ":"%char 13%nat && has ":"%char 16%nat
          && has "."%char 19%nat && has "Z"%char 23%nat then
    match all_some7 (field_at 4 0 s 0) (field_at 2 5 s 0) (field_at 2 8 s 0)
            (field_at 2 11 s 0) (field_at 2 14 s 0) (field_at 2 17 s 0)
            (field_at 3 20 s 0) with
    | Some (y, mo, d, h, mi, sec, ms) => make_time y mo d h mi sec ms
    | None => NaN
    end
  else NaN.

(** TimeClip: a time value beyond 8.64e15 ms from the epoch is invalid. *)
Definition TimeClip (n : number) : number :=
  match n with
  | NaN => NaN
  | Int t => if Z.abs t <=? 8640000000000000 then Int t else NaN
  end.

(** [a - b] on numbers. Epoch milliseconds are exact integers; the rounding
    of a large difference keeps its sign, which is all the sort looks at. *)
Definition number_sub (a b : number) : number :=
  match a, b with
  | Int x, Int y => Int (x - y)
  | _, _ => NaN
  end.

Section Sorting.

(** [Date.parse] of the engine. *)
Variable Date_parse : string -> number.

(** [new Date(v).getTime()]. An object is converted with
    [Object.prototype.toString] when it inherits it; an object whose
    [toString] is a plain datum cannot be converted and the constructor
    throws. *)
Definition Date_getTime (v : value) : outcome number :=
  match v with
  | VString s => Returns (Date_parse s)
  | VNumber n => Returns (TimeClip n)
  | VBool b => Returns (Int (if b then 1 else 0))
  | VNull => Returns (Int 0)
  | VUndefined => Returns NaN
  | VObject _ _ | VObjectPrototype =>
      match get v "toString" with
      | VBuiltin _ => Returns (Date_parse "[object Object]")
      | _ => Throws (TypeError "Cannot convert object to primitive value")
      end
  | VBuiltin _ => Returns (Date_parse "function () { [native code] }")
  end.

(** [a.createdAt ? new Date(a.createdAt).getTime() : 0]. *)
Definition time_of (a : value) : outcome number :=
  obind (member a f_createdAt) (fun createdAt =>
  if truthy createdAt then Date_getTime createdAt else Returns (Int 0)).

(** The comparator of line 336. *)
Definition by_createdAt_desc (a b : value) : outcome number :=
  obind (time_of a) (fun aTime =>
  obind (time_of b) (fun bTime =>
  Returns (number_sub bTime aTime))).

(** SortCompare: a [NaN] from the comparator counts as [+0]. *)
Definition comes_first (c : number) : bool :=
  match c with
  | NaN => true
  | Int z => z <=? 0
  end.

(** [Array.prototype.sort(cmp)] as a stable insertion sort. ECMA-262 asks
    for a stable sort, which fixes the result for every consistent
    comparator; for an inconsistent one this is one admissible order. *)
Fixpoint sort_insert (cmp : value -> value -> outcome number) (x : value)
    (sorted : list value) : outcome (list value) :=
  match sorted with
  | [] => Returns [x]
  | y :: rest =>
      obind (cmp x y) (fun c =>
      if comes_first c then Returns (x :: y :: rest)
      else obind (sort_insert cmp x rest) (fun r => Returns (y :: r)))
  end.

Fixpoint Array_sort (cmp : value -> value -> outcome number)
    (l : list value) : outcome (list value) :=
  match l with
  | [] => Returns []
  | x :: rest =>
      obind (Array_sort cmp rest) (fun sorted => sort_insert cmp x sorted)
  end.

(** [array.map(f)] where [f] may throw. *)
Fixpoint Array_map {A B} (f : A -> outcome B) (l : list A) : outcome (list B) :=
  match l with
  | [] => Returns []
  | x :: rest =>
      obind (f x) (fun y =>
      obind (Array_map f rest) (fun ys => Returns (y :: ys)))
  end.

(* ===================================================================== *)
(** ** The registry and the routes *)
(* ===================================================================== *)

Inductive verify_view :=
| NoHashToVerify
| Authentic (hash : string) (fileName fileUrl : value)
| NotAuthentic.

(** What a route answers. *)
Inductive response :=
| Json (status : Z) (body : value)
| JsonReports (status : Z) (list : list value)
| Send (status : Z) (text : string)
| Html (view : verify_view)
| Redirect (status : Z) (location : value).

(** The texts of the source are in Arabic; they are named here. *)
Definition msg_no_file : string := "no file was sent".
Definition msg_store_not_configured : string :=
  "storage service is not configured".
Definition msg_upload_failed : string :=
  "could not upload the file to Backblaze B2".
Definition msg_upload_error : string := "error while uploading".
Definition msg_no_hash : string := "no hash".
Definition msg_file_not_found : string := "no file is tied to this hash".
Definition msg_unexpected : string := "unexpected error".
Definition status_original : string := "original".
(** The status of the seed record is unreadable in the source. *)
Definition status_seed : string := "????".

Definition failure (message : string) : value :=
  object [("ok", VBool false); ("message", VString message)].

(** The record [loadReports] falls back to. *)
Definition seed_reports (createdAt : string) : value :=
  object [("123abc",
           object [("fileName", VString "report1.pdf");
                   ("status", VString status_seed);
                   ("createdAt", VString createdAt)])].

(** A multipart request as [multer] hands it over: the file part, if any,
    with its buffer, and the text fields of the form. *)
Record File := {
  buffer : list Byte.byte;
  originalname : string;
  mimetype : string;
  size : Z
}.

(** A text field as [multer] leaves it in [req.body]: a string; an array
    when the field was sent more than once or under a name that ends in
    [[]] or in an index (an index may be skipped, which leaves a hole); an
    object without prototype when the name ends in [[key]]. The members of
    such an object are again fields, never functions. *)
Inductive form_value :=
| FText (s : string)
| FArray (items : list (option form_value))
| FNested.

(** Every array and every object is truthy. *)
Definition form_truthy (v : form_value) : bool :=
  match v with
  | FText s => nonempty s
  | FArray _ | FNested => true
  end.

(** [String(v)]: an array joins the strings of its elements with commas,
    a hole giving the empty string; an object without prototype has no
    callable [toString] or [valueOf] and cannot be converted. *)
Fixpoint String_of_form (v : form_value) : outcome string :=
  match v with
  | FText s => Returns s
  | FArray items =>
      obind
        ((fix pieces (l : list (option form_value)) : outcome (list string) :=
            match l with
            | [] => Returns []
            | item :: rest =>
                obind match item with
                      | Some x => String_of_form x
                      | None => Returns EmptyString
                      end (fun piece =>
                obind (pieces rest) (fun others =>
                Returns (piece :: others)))
            end) items)
        (fun l => Returns (String.concat "," l))
  | FNested => Throws (TypeError "Cannot convert object to primitive value")
  end.

Record Body := {
  body_hash : option form_value;
  body_targetName : option form_value
}.

Record UploadRequest := {
  req_file : option File;
  req_body : option Body
}.

(** [field ? String(field) : undefined]. *)
Definition provided (field : option form_value) : outcome (option string) :=
  match field with
  | Some v =>
      if form_truthy v
      then obind (String_of_form v) (fun s => Returns (Some s))
      else Returns None
  | None => Returns None
  end.

(** [req.body && req.body.hash ? String(req.body.hash) : undefined]. *)
Definition providedHash (req : UploadRequest) : outcome (option string) :=
  match req_body req with
  | Some body => provided (body_hash body)
  | None => Returns None
  end.

(** [req.body && req.body.targetName ? String(req.body.targetName)
    : undefined]. *)
Definition providedTargetName (req : UploadRequest)
  : outcome (option string) :=
  match req_body req with
  | Some body => provided (body_targetName body)
  | None => Returns None
  end.

(** [GET /file]. The query parameter, when present, is a string. *)
Definition file_route (registry : value) (hash : option string)
  : outcome response :=
  match hash with
  | None => Returns (Send 400 msg_no_hash)
  | Some h =>
      if negb (nonempty h) then Returns (Send 400 msg_no_hash)
      else
        let report := get registry h in
        if negb (truthy report) then Returns (Send 404 msg_file_not_found)
        else
          obind (member report f_fileUrl) (fun fileUrl =>
          if negb (truthy fileUrl) then Returns (Send 404 msg_file_not_found)
          else Returns (Redirect 302 fileUrl))
  end.

(** The conversion to a string that a template literal applies to [v], as
    far as it can fail. A primitive always converts. An object is asked for
    its [toString] and then for its [valueOf]: what it inherits from
    [Object.prototype] gives ["[object Object]"]; an object whose [toString]
    is a stored datum has nothing to call that returns a primitive (the
    inherited [valueOf] returns the object itself), and the conversion
    throws. Stored data is never a function. *)
Definition converts_to_string (v : value) : outcome unit :=
  match v with
  | VObject _ _ | VObjectPrototype =>
      match get v "toString" with
      | VBuiltin _ => Returns tt
      | _ => Throws (TypeError "Cannot convert object to primitive value")
      end
  | _ => Returns tt
  end.

(** [GET /verify]. The page is a template literal: it converts
    [report.fileName] to a string, and [report.fileUrl] when that is
    truthy; the view holds the two values the page was made of. *)
Definition verify_route (registry : value) (hash : option string)
  : outcome response :=
  match hash with
  | None => Returns (Html NoHashToVerify)
  | Some h =>
      if negb (nonempty h) then Returns (Html NoHashToVerify)
      else
        let report := get registry h in
        if truthy report then
          obind (member report f_fileName) (fun fileName =>
          obind (converts_to_string fileName) (fun _ =>
          obind (member report f_fileUrl) (fun fileUrl =>
          obind (if truthy fileUrl then converts_to_string fileUrl
                 else Returns tt) (fun _ =>
          Returns (Html (Authentic h fileName fileUrl))))))
        else Returns (Html NotAuthentic)
  end.

(** The element [/api/reports] builds for one entry of the registry. *)
Definition report_item (entry : string * value) : outcome value :=
  let (hash, data) := entry in
  obind (member data f_fileName) (fun fileName =>
  obind (member data f_status) (fun status =>
  obind (member data f_fileUrl) (fun fileUrl =>
  obind (member data f_mimeType) (fun mimeType =>
  obind (member data f_createdAt) (fun createdAt =>
  Returns (object [("hash", VString hash);
                   ("fileName", or_value fileName (VString ""));
                   ("status", or_value status (VString ""));
                   ("fileUrl", or_value fileUrl (VString ""));
                   ("mimeType", or_value mimeType (VString ""));
                   ("createdAt", or_value createdAt VNull)])))))).

(** The list [/api/reports] sends: mapped, then sorted in place. *)
Definition reports_list (registry : value) : outcome (list value) :=
  obind (Array_map report_item (Object_entries registry)) (fun list =>
  Array_sort by_createdAt_desc list).

(** [GET /api/reports]; an exception reaches the last middleware. *)
Definition api_reports_route (registry : value) : response :=
  match reports_list registry with
  | Returns list => JsonReports 200 list
  | Throws _ => Json 500 (failure msg_unexpected)
  end.

End Sorting.

Section Server.

Variable env : Environment.
Variable world : World.

(** [JSON.parse] of the engine. *)
Variable JSON_parse : string -> outcome value.

Definition loadReports : M value :=
  loaded <- try_catch
              (raw <- external Fs_readFile (readFile_result world) ;;
               parsed <- lift (JSON_parse raw) ;;
               if truthy parsed && (typeof parsed =? "object")%string
               then ret (Some parsed) else ret None)
              (fun _ => ret None) ;;
  match loaded with
  | Some parsed => ret parsed
  | None => createdAt <- now_iso world ;; ret (seed_reports createdAt)
  end.

Definition saveReports : M unit :=
  s <- read ;;
  try_catch (external (Fs_writeFile (reports s)) (writeFile_result world))
    (fun err => console_error "Failed to persist reports:" err).

(** Lines 217-218, run when the module is loaded. *)
Definition startup : M unit :=
  loaded <- loadReports ;;
  modify (set_reports loaded) ;;
  saveReports.

Definition computedHash (file : File) : string :=
  hex_of_bytes (sha256 (buffer file)).

(** Lines 265-267: [providedHash || computedHash]. *)
Definition hash_of (req : UploadRequest) (file : File) : outcome string :=
  obind (providedHash req) (fun provided =>
  Returns match provided with
          | Some h => or_string h (computedHash file)
          | None => computedHash file
          end).

Definition originalName (file : File) : string :=
  or_string (originalname file) "file".

(** Line 269. *)
Definition targetName_of (req : UploadRequest) (file : File)
  : outcome string :=
  obind (providedTargetName req) (fun provided =>
  Returns match provided with
          | Some t => t
          | None => originalName file
          end).

Definition mimeType_of (file : File) : string :=
  or_string (mimetype file) "application/octet-stream".

Definition report_record (targetName fileUrl mimeType createdAt : string)
  : value :=
  object [("fileName", VString targetName);
          ("status", VString status_original);
          ("fileUrl", VString fileUrl);
          ("mimeType", VString mimeType);
          ("createdAt", VString createdAt)].

Definition upload_ok (hash targetName fileUrl mimeType : string) (size : Z)
  : value :=
  object [("ok", VBool true);
          ("hash", VString hash);
          ("fileName", VString targetName);
          ("fileUrl", VString fileUrl);
          ("mimeType", VString mimeType);
          ("size", if size =? 0 then VUndefined else VNumber (Int size))].

(** [POST /upload]. *)
Definition upload_route (req : UploadRequest) : M response :=
  try_catch
    (match req_file req with
     | None => ret (Json 400 (failure msg_no_file))
     | Some file =>
         cfg <- ensureB2Ready env world ;;
         if negb (enabled cfg) then
           ret (Json 500 (failure msg_store_not_configured))
         else
           hash <- lift (hash_of req file) ;;
           targetName <- lift (targetName_of req file) ;;
           let mimeType := mimeType_of file in
           try_catch
             (uploadFileToB2 env world cfg targetName (buffer file) mimeType ;;
              let fileUrl := fileUrl_of cfg targetName in
              createdAt <- now_iso world ;;
              modify (fun s =>
                set_reports
                  (set (reports s) hash
                     (report_record targetName fileUrl mimeType createdAt))
                  s) ;;
              saveReports ;;
              ret (Json 200
                     (upload_ok hash targetName fileUrl mimeType (size file))))
             (fun e =>
                console_error "B2 upload error:" e ;;
                ret (Json 502 (failure msg_upload_failed)))
     end)
    (fun error =>
       console_error "Upload error:" error ;;
       ret (Json 500 (failure msg_upload_error))).

End Server.

(* ===================================================================== *)
(** ** The remaining routes and middleware *)
(* ===================================================================== *)

(** [s.split(sep)] for a one-character separator. *)
Fixpoint split_char (sep : ascii) (s : string) : list string :=
  match s with
  | EmptyString => [EmptyString]
  | String c rest =>
      if Ascii.eqb c sep then EmptyString :: split_char sep rest
      else match split_char sep rest with
           | seg :: segs => String c seg :: segs
           | [] => [String c EmptyString]
           end
  end.

(** [s.toLowerCase()] on the ASCII letters. A character outside ASCII
    never lowers to a letter of ["basic "] followed by the rest of that
    word, so the prefix test below reads the same on the bytes. *)
Definition lower_ascii (c : ascii) : ascii :=
  let n := nat_of_ascii c in
  if ((65 <=? n) && (n <=? 90))%nat then ascii_of_nat (n + 32) else c.

Fixpoint toLowerCase (s : string) : string :=
  match s with
  | EmptyString => EmptyString
  | String c rest => String (lower_ascii c) (toLowerCase rest)
  end.

(** [s.startsWith(p)]. *)
Definition startsWith (s p : string) : bool := String.prefix p s.

(** Line 11: [process.env.REPORTS_PASSWORD || '944221']. *)
Definition reportsPassword_of (REPORTS_PASSWORD : string) : string :=
  or_string REPORTS_PASSWORD "944221".

(** What the guard of [/reports] does with a request. *)
Inductive guard :=
| Next
| Refuse (status : Z) (text : string) (challenge : bool).

Definition msg_password_not_configured : string :=
  "Reports password not configured. Set REPORTS_PASSWORD.".

Section ReportsGuard.

(** [Buffer.from(text, 'base64').toString('utf8')]. *)
Variable base64_to_utf8 : string -> string.

(** [requireReportsPassword]; [challenge] says that the
    [WWW-Authenticate] header was set. Nothing inside its [try] throws. *)
Definition requireReportsPassword (reportsPassword : string)
    (authorization : option string) : guard :=
  if negb (nonempty reportsPassword) then
    Refuse 503 msg_password_not_configured false
  else
    match authorization with
    | None => Refuse 401 "Authentication required." true
    | Some auth =>
        if negb (nonempty auth)
           || negb (startsWith (toLowerCase auth) "basic ")
        then Refuse 401 "Authentication required." true
        else
          let second :=
            match nth_error (split_char " " auth) 1 with
            | Some part => or_string part ""
            | None => ""
            end in
          let decoded := base64_to_utf8 second in
          let pass :=
            match nth_error (split_char ":" decoded) 1 with
            | Some part => part
            | None => ""
            end in
          if (pass =? reportsPassword)%string then Next
          else Refuse 401 "Invalid credentials." true
    end.

End ReportsGuard.

Section ConfigRoute.

Variable env : Environment.
Variable world : World.

(** [GET /config]. *)
Definition config_route : M response :=
  cfg <- ensureB2Ready env world ;;
  ret (Json 200
         (object [("b2Enabled", VBool (enabled cfg));
                  ("b2BucketName",
                   VString match bucketName cfg with
                           | Some name => or_string name ""
                           | None => ""
                           end);
                  ("b2PublicBaseUrl",
                   VString (or_string (publicBaseUrl cfg) ""))])).

End ConfigRoute.

(** Base64 as Node reads it: characters outside the alphabet are skipped,
    [-] and [_] stand for [+] and [/], and [=] ends the input. *)
Definition unbase64 (c : ascii) : option nat :=
  let n := nat_of_ascii c in
  if ((65 <=? n) && (n <=? 90))%nat then Some (n - 65)%nat
  else if ((97 <=? n) && (n <=? 122))%nat then Some (n - 71)%nat
  else if ((48 <=? n) && (n <=? 57))%nat then Some (n + 4)%nat
  else if (n =? 43)%nat || (n =? 45)%nat then Some 62%nat
  else if (n =? 47)%nat || (n =? 95)%nat then Some 63%nat
  else None.

Fixpoint sextets (s : string) : list nat :=
  match s with
  | EmptyString => []
  | String c rest =>
      if Ascii.eqb c "="%char then []
      else match unbase64 c with
           | Some v => v :: sextets rest
           | None => sextets rest
           end
  end.

Fixpoint octets (vs : list nat) : list nat :=
  match vs with
  | a :: b :: c :: d :: rest =>
      (a * 4 + b / 16) :: ((b mod 16) * 16 + c / 4) :: ((c mod 4) * 64 + d)
      :: octets rest
  | [a; b; c] => [a * 4 + b / 16; (b mod 16) * 16 + c / 4]
  | [a; b] => [a * 4 + b / 16]
  | _ => []
  end%nat.

(** The decoder on texts whose bytes are ASCII, where the UTF-8 reading of
    the bytes is the bytes themselves. *)
Definition base64_to_ascii (s : string) : string :=
  string_of_list_ascii (map ascii_of_nat (octets (sextets s))).

(* ===================================================================== *)
(** ** The session manager under interleaving *)
(* ===================================================================== *)

(** Requests run concurrently on one thread: a stretch of code between two
    [await]s runs to its end, and stretches of different requests
    interleave in any order. Each transition below is one such stretch of
    [ensureB2Authorized] or [ensureB2Ready], or an answer from B2. *)
Module Interleaved.

(** A promise made on line 90. *)
Inductive promise :=
| Pending
| Fulfilled (auth : AuthResponse)
| Rejected (err : value).

Definition is_pending (p : promise) : bool :=
  match p with Pending => true | _ => false end.

(** Where a call of [ensureB2Authorized] stands. *)
Inductive caller :=
| Threw (err : value)
    (** line 78: no credentials *)
| Cached (auth : AuthResponse)
    (** line 82: served from the cached session *)
| Joined (p : nat)
    (** line 85: handed the promise found in [b2AuthPromise] *)
| Started (p : nat) (finished : bool)
    (** lines 90-97: made promise [p] and awaits it; [finished] once its
        [finally] block has run *).

Record state := {
  b2 : bool;
  b2AuthPromise : option nat;
  b2LastAuthAt : Z;
  b2LastAuthResponse : option AuthResponse;
  b2InitPromise : bool;
  promises : list promise;
  handshakes : nat;
  callers : list caller;
  ready_calls : nat
}.

Definition initial : state :=
  {| b2 := false; b2AuthPromise := None; b2LastAuthAt := 0;
     b2LastAuthResponse := None; b2InitPromise := false;
     promises := []; handshakes := 0; callers := []; ready_calls := 0 |}.

Inductive label :=
| Call (force : bool) (t : Z)
    (** a request calls [ensureB2Authorized(force)] at time [t] *)
| CallReady (t : Z)
    (** a request calls [ensureB2Ready()] at time [t] *)
| Respond (p : nat) (answer : outcome AuthResponse) (t : Z)
    (** B2 answers the handshake behind promise [p] at time [t] *)
| Resume (c : nat)
    (** caller [c] comes back from its [await] on line 97 *).

Fixpoint update {A} (n : nat) (x : A) (l : list A) : list A :=
  match l, n with
  | [], _ => []
  | _ :: rest, O => x :: rest
  | y :: rest, S n' => y :: update n' x rest
  end.

Definition add_caller (c : caller) (st : state) : state :=
  {| b2 := b2 st; b2AuthPromise := b2AuthPromise st;
     b2LastAuthAt := b2LastAuthAt st;
     b2LastAuthResponse := b2LastAuthResponse st;
     b2InitPromise := b2InitPromise st; promises := promises st;
     handshakes := handshakes st; callers := (callers st ++ [c])%list;
     ready_calls := ready_calls st |}.

(** Line 81: the cached session, if it may be used. *)
Definition cached_session (force : bool) (t : Z) (st : state)
  : option AuthResponse :=
  if negb force && negb (b2LastAuthAt st =? 0)
     && (t - b2LastAuthAt st <? B2_AUTH_TTL_MS)
  then b2LastAuthResponse st else None.

Section WithEnvironment.

Variable env : Environment.

(** [ensureB2Authorized(force)] from its call to its first [await]. *)
Definition call_authorize (force : bool) (t : Z) (st : state) : state :=
  if negb (credentials_configured env) then
    add_caller (Threw (Error "B2 credentials are not configured")) st
  else
    match cached_session force t st with
    | Some auth => add_caller (Cached auth) st
    | None =>
        match b2AuthPromise st with
        | Some p => add_caller (Joined p) st
        | None =>
            let p := List.length (promises st) in
            {| b2 := true; b2AuthPromise := Some p;
               b2LastAuthAt := b2LastAuthAt st;
               b2LastAuthResponse := b2LastAuthResponse st;
               b2InitPromise := b2InitPromise st;
               promises := (promises st ++ [Pending])%list;
               handshakes := S (handshakes st);
               callers := (callers st ++ [Started p false])%list;
               ready_calls := ready_calls st |}
        end
    end.

(** [ensureB2Ready()] from its call to its first [await]: the first call
    installs [b2InitPromise] and, when B2 is configured, goes straight into
    [ensureB2Authorized(true)]; every later call returns the promise. *)
Definition call_ready (t : Z) (st : state) : state :=
  let counted :=
    {| b2 := b2 st; b2AuthPromise := b2AuthPromise st;
       b2LastAuthAt := b2LastAuthAt st;
       b2LastAuthResponse := b2LastAuthResponse st;
       b2InitPromise := true; promises := promises st;
       handshakes := handshakes st; callers := callers st;
       ready_calls := S (ready_calls st) |} in
  if b2InitPromise st then counted
  else if storage_configured env then call_authorize true t counted
  else counted.

(** Lines 91-94 once B2 has answered. *)
Definition respond (p : nat) (answer : outcome AuthResponse) (t : Z)
    (st : state) : option state :=
  match nth_error (promises st) p with
  | Some Pending =>
      Some
        match answer with
        | Returns auth =>
            {| b2 := b2 st; b2AuthPromise := b2AuthPromise st;
               b2LastAuthAt := t; b2LastAuthResponse := Some auth;
               b2InitPromise := b2InitPromise st;
               promises := update p (Fulfilled auth) (promises st);
               handshakes := handshakes st; callers := callers st;
               ready_calls := ready_calls st |}
        | Throws err =>
            {| b2 := b2 st; b2AuthPromise := b2AuthPromise st;
               b2LastAuthAt := b2LastAuthAt st;
               b2LastAuthResponse := b2LastAuthResponse st;
               b2InitPromise := b2InitPromise st;
               promises := update p (Rejected err) (promises st);
               handshakes := handshakes st; callers := callers st;
               ready_calls := ready_calls st |}
        end
  | _ => None
  end.

(** Lines 97-99 once the awaited promise has settled. *)
Definition resume (c : nat) (st : state) : option state :=
  match nth_error (callers st) c with
  | Some (Started p false) =>
      match nth_error (promises st) p with
      | Some (Fulfilled _) | Some (Rejected _) =>
          Some {| b2 := b2 st; b2AuthPromise := None;
                  b2LastAuthAt := b2LastAuthAt st;
                  b2LastAuthResponse := b2LastAuthResponse st;
                  b2InitPromise := b2InitPromise st;
                  promises := promises st; handshakes := handshakes st;
                  callers := update c (Started p true) (callers st);
                  ready_calls := ready_calls st |}
      | _ => None
      end
  | _ => None
  end.

Definition step (st : state) (l : label) : option state :=
  match l with
  | Call force t => Some (call_authorize force t st)
  | CallReady t => Some (call_ready t st)
  | Respond p answer t => respond p answer t st
  | Resume c => resume c st
  end.

Fixpoint run (st : state) (ls : list label) : option state :=
  match ls with
  | [] => Some st
  | l :: rest =>
      match step st l with
      | Some st' => run st' rest
      | None => None
      end
  end.

Definition reachable (st : state) : Prop :=
  exists ls, run initial ls = Some st.

End WithEnvironment.

(** What holds in every state the server can reach. *)
Definition single_flight_invariant (st : state) : Prop :=
  handshakes st = List.length (promises st)
  /\ (forall q, nth_error (promises st) q = Some Pending ->
                b2AuthPromise st = Some q)
  /\ (forall c p, nth_error (callers st) c = Some (Started p false) ->
                  b2AuthPromise st = Some p)
  /\ (forall c c' p p',
         nth_error (callers st) c = Some (Started p false) ->
         nth_error (callers st) c' = Some (Started p' false) -> c = c')
  /\ (forall p, b2AuthPromise st = Some p ->
                (p < List.length (promises st))%nat
                /\ exists c, nth_error (callers st) c = Some (Started p false)).

(** What holds as long as only [ensureB2Ready] has been called. *)
Definition ready_invariant (env : Environment) (st : state) : Prop :=
  handshakes st
  = (if b2InitPromise st && storage_configured env then 1 else 0)%nat
  /\ (b2InitPromise st = false -> b2AuthPromise st = None).

(** Handshakes B2 has not answered yet. *)
Definition outstanding (st : state) : nat :=
  List.length (filter is_pending (promises st)).

(** What caller [c] has received so far. *)
Definition received (st : state) (c : nat) : option (outcome AuthResponse) :=
  match nth_error (callers st) c with
  | Some (Threw err) => Some (Throws err)
  | Some (Cached auth) => Some (Returns auth)
  | Some (Joined p) | Some (Started p true) =>
      match nth_error (promises st) p with
      | Some (Fulfilled auth) => Some (Returns auth)
      | Some (Rejected err) => Some (Throws err)
      | _ => None
      end
  | _ => None
  end.

(** The latest caller. *)
Definition last_caller (st : state) : option caller :=
  nth_error (callers st) (pred (List.length (callers st))).

(** The single-flight rule read literally: whoever calls while a handshake
    is in flight is handed that handshake's promise. *)
Definition joins_in_flight (env : Environment) (st : state) (force : bool)
    (t : Z) : Prop :=
  forall p, b2AuthPromise st = Some p ->
            nth_error (promises st) p = Some Pending ->
            last_caller (call_authorize env force t st) = Some (Joined p).

Definition is_direct_call (l : label) : bool :=
  match l with Call _ _ => true | _ => false end.

Definition is_ready_call (l : label) : bool :=
  match l with CallReady _ => true | _ => false end.

End Interleaved.

(** A quiescent state of the sequential model, seen as a state of the
    interleaving model in which no call has been made yet. *)
Definition of_State (s : State) : Interleaved.state :=
  {| Interleaved.b2 := b2 s;
     Interleaved.b2AuthPromise := None;
     Interleaved.b2LastAuthAt := b2LastAuthAt s;
     Interleaved.b2LastAuthResponse := b2LastAuthResponse s;
     Interleaved.b2InitPromise := match b2InitPromise s with
                                  | Some _ => true
                                  | None => false
                                  end;
     Interleaved.promises := [];
     Interleaved.handshakes := 0;
     Interleaved.callers := [];
     Interleaved.ready_calls := 0 |}.

(* ===================================================================== *)
(** ** Observations on a run *)
(* ===================================================================== *)

(** The events a run added: what [trace s'] holds beyond [trace s]. *)
Definition since (s s' : State) : list event :=
  skipn (List.length (trace s)) (trace s').

Definition is_authorize (ev : event) : bool :=
  match ev with B2_authorize => true | _ => false end.

Definition is_getUploadUrl (ev : event) : bool :=
  match ev with B2_getUploadUrl _ => true | _ => false end.

Definition is_uploadFile (ev : event) : bool :=
  match ev with B2_uploadFile _ _ _ _ _ => true | _ => false end.

Definition is_retry_warning (ev : event) : bool :=
  match ev with Console_warn _ => true | _ => false end.

Definition count (p : event -> bool) (d : list event) : nat :=
  List.length (filter p d).


Definition retry_warning : string :=
  "B2 auth token expired, re-authorizing and retrying upload".

(** The retry rule read literally: a retry happens only when the upload-URL
    fetch or the upload itself failed with an expiry signal. *)
Definition retry_only_on_fetch_or_upload_expiry (env : Environment)
    (world : World) (cfg : B2Config) (name : string) (buf : list Byte.byte)
    (mime : string) (s : State) : Prop :=
  count is_retry_warning
    (since s (snd (uploadFileToB2 env world cfg name buf mime s))) <> 0%nat ->
  exists t e,
    (getUploadUrl_result world t = Throws e
     \/ uploadFile_result world t = Throws e)
    /\ isExpiredAuthError e = Returns true.


(** A computation leaves the component [f] of the state as it found it. *)
Definition preserves {X A} (f : State -> X) (m : M A) : Prop :=
  forall s, f (snd (m s)) = f s.

(** The request is turned away as "no file" and nothing else happens. *)
Definition rejected_as_no_file (env : Environment) (world : World)
    (req : UploadRequest) (s : State) : Prop :=
  upload_route env world req s = (Returns (Json 400 (failure msg_no_file)), s).

(** The buffer of the request is absent or empty. *)
Definition buffer_absent_or_empty (req : UploadRequest) : Prop :=
  match req_file req with
  | None => True
  | Some file => buffer file = []
  end.

(** The string has no [/] in it. *)
Fixpoint no_slash (s : string) : bool :=
  match s with
  | EmptyString => true
  | String c rest => negb (Ascii.eqb c slash) && no_slash rest
  end.

Section Timestamps.

Variable Date_parse : string -> number.

(** The sort sees [a] at time [t]. *)
Definition has_time (a : value) (t : Z) : Prop :=
  time_of Date_parse a = Returns (Int t).

(** [a] may stand before [b]: it is at least as recent. *)
Definition newer_or_same (a b : value) : Prop :=
  exists ta tb, has_time a ta /\ has_time b tb /\ tb <= ta.

(** The record has no [createdAt], or one that gives no valid time. *)
Definition undated (a : value) : Prop :=
  exists c, member a f_createdAt = Returns c
            /\ (truthy c = false \/ Date_getTime Date_parse c = Returns NaN).

(** The record has a [createdAt] that gives a valid time. *)
Definition dated (a : value) : Prop :=
  exists c t, member a f_createdAt = Returns c /\ truthy c = true
              /\ Date_getTime Date_parse c = Returns (Int t).

(** The order read literally: whatever has no usable timestamp stands
    after everything that has one. *)
Definition undated_last (list : list value) : Prop :=
  forall i j a b,
    nth_error list i = Some a -> nth_error list j = Some b ->
    undated a -> dated b -> (j < i)%nat.

(** The [createdAt] of a stored record is missing (falsy) or gives a valid
    time. *)
Definition well_dated (data : value) : Prop :=
  exists c, member data f_createdAt = Returns c
            /\ (truthy c = false
                \/ exists t, Date_getTime Date_parse c = Returns (Int t)).

(** [item] is the element the list shows for the entry [(key, record)]: it
    carries the key as [hash]; its [fileName], [status], [fileUrl] and
    [mimeType] are those of the record, or [""] where the record's is
    falsy; its [createdAt] is the record's, or [null] where that is falsy;
    and the sort sees it at the time of the record's [createdAt]. *)
Definition listed (entry : string * value) (item : value) : Prop :=
  get item "hash" = VString (fst entry)
  /\ (forall f, In f [f_fileName; f_status; f_fileUrl; f_mimeType] ->
                exists x, member (snd entry) f = Returns x
                          /\ get item (field_name f)
                             = or_value x (VString ""))
  /\ (exists c, member (snd entry) f_createdAt = Returns c
                /\ get item "createdAt" = or_value c VNull)
  /\ (exists t, time_of Date_parse (snd entry) = Returns (Int t)
                /\ has_time item t).


End Timestamps.

(** Everything a computation adds to the trace satisfies [P]; the trace is
    only ever extended. *)
Definition emits {A} (P : event -> Prop) (m : M A) : Prop :=
  forall s, exists d, trace (snd (m s)) = (trace s ++ d)%list /\ Forall P d.

(** The event is not a write of the store file. *)
Definition no_write (ev : event) : Prop :=
  match ev with Fs_writeFile _ => False | _ => True end.

(** The event is not a call to B2. *)
Definition no_remote (ev : event) : Prop :=
  match ev with
  | B2_authorize | B2_getUploadUrl _ | B2_uploadFile _ _ _ _ _
  | B2_listBuckets _ | B2_getBucket_byId _ | B2_getBucket_byName _ => False
  | _ => True
  end.

(** The character is one of [0-9 a-f]. *)
Definition is_lower_hex (c : ascii) : bool :=
  let n := nat_of_ascii c in
  ((48 <=? n) && (n <=? 57))%nat || ((97 <=? n) && (n <=? 102))%nat.

(** The character is left alone by [encodeURIComponent], or is [%], or is
    one of [0-9 A-F]. *)
Definition is_url_safe (c : ascii) : bool :=
  is_unreserved c || Ascii.eqb c "%"%char.

Fixpoint string_forallb (p : ascii -> bool) (s : string) : bool :=
  match s with
  | EmptyString => true
  | String c rest => p c && string_forallb p rest
  end.

(** The string has no [sep] in it. *)
Definition no_char (sep : ascii) (s : string) : bool :=
  string_forallb (fun c => negb (Ascii.eqb c sep)) s.

(** The status of an answer. *)
Definition status_of (r : response) : Z :=
  match r with
  | Json st _ | JsonReports st _ | Send st _ | Redirect st _ => st
  | Html _ => 200
  end.

(** The state an upload request leaves behind. *)
Definition state_after (env : Environment) (world : World)
    (req : UploadRequest) (s : State) : State :=
  snd (upload_route env world req s).

(** The same outside, with a disk that answers writes differently. *)
Definition with_writeFile (world : World)
    (answer : list event -> outcome unit) : World :=
  {| authorize_result := authorize_result world;
     getUploadUrl_result := getUploadUrl_result world;
     uploadFile_result := uploadFile_result world;
     listBuckets_result := listBuckets_result world;
     getBucket_result := getBucket_result world;
     readFile_result := readFile_result world;
     writeFile_result := answer;
     Date_now := Date_now world;
     Date_toISOString := Date_toISOString world |}.

(** The public base the server settles on: the override of the environment
    when there is one, else the download URL of the handshake. *)
Definition base_of (env : Environment) (auth : AuthResponse) : string :=
  or_string (b2PublicBaseOverride env)
    match auth_data auth with
    | Some d => or_string (downloadUrl d) ""
    | None => ""
    end.

(** Is this the bucket the environment names? By id when an id is set,
    else by name. *)
Definition wanted (env : Environment) (b : Bucket) : bool :=
  if nonempty (b2BucketIdEnv env)
  then (bucket_id b =? b2BucketIdEnv env)%string
  else (bucket_name b =? b2BucketNameEnv env)%string.

(** The lookup of one bucket, by id when an id is set, else by name. *)
Definition lookup_event (env : Environment) : event :=
  if nonempty (b2BucketIdEnv env)
  then B2_getBucket_byId (b2BucketIdEnv env)
  else B2_getBucket_byName (b2BucketNameEnv env).

(** A character of an encoded path: URL-safe, or the separator. *)
Definition is_path_char (c : ascii) : bool :=
  is_url_safe c || Ascii.eqb c slash.

(** A name that needs no encoding: unreserved characters and separators. *)
Definition plain_path (s : string) : bool :=
  string_forallb (fun c => is_unreserved c || Ascii.eqb c slash) s.

(** *** Between two states of the interleaving *)

(** Nothing that has settled is taken back: a caller that no longer waits
    on line 97 is still what it was, and a promise that has settled still
    holds its result. *)
Definition keeps_settled (st st' : Interleaved.state) : Prop :=
  (forall c k, nth_error (Interleaved.callers st) c = Some k ->
               (forall p, k <> Interleaved.Started p false) ->
               nth_error (Interleaved.callers st') c = Some k)
  /\ (forall p q, nth_error (Interleaved.promises st) p = Some q ->
                  q <> Interleaved.Pending ->
                  nth_error (Interleaved.promises st') p = Some q).

(** B2 has answered some handshake with this session. *)
Definition issued (st : Interleaved.state) (auth : AuthResponse) : Prop :=
  exists p, nth_error (Interleaved.promises st) p
            = Some (Interleaved.Fulfilled auth).

(** The session on record and the sessions served from the cache were
    issued by B2. *)
Definition sessions_issued (st : Interleaved.state) : Prop :=
  (forall auth, Interleaved.b2LastAuthResponse st = Some auth ->
                issued st auth)
  /\ (forall c auth,
        nth_error (Interleaved.callers st) c = Some (Interleaved.Cached auth) ->
        issued st auth).

(** What the route answers once the store is known to be enabled, given
    what the two form fields convert to. *)
Definition upload_enabled_case (env : Environment) (world : World)
    (req : UploadRequest) (file : File) (cfg : B2Config) (s0 : State)
    (run : outcome response * State) : Prop :=
  match hash_of req file with
  | Throws e =>
      run = (Returns (Json 500 (failure msg_upload_error)),
             set_trace (trace s0 ++ [Console_error "Upload error:" e]) s0)
  | Returns hash =>
      match targetName_of req file with
      | Throws e =>
          run = (Returns (Json 500 (failure msg_upload_error)),
                 set_trace (trace s0 ++ [Console_error "Upload error:" e]) s0)
      | Returns targetName =>
          match uploadFileToB2 env world cfg targetName (buffer file)
                  (mimeType_of file) s0 with
          | (Returns _, s1) =>
              run
              = (Returns
                   (Json 200
                      (upload_ok hash targetName (fileUrl_of cfg targetName)
                         (mimeType_of file) (size file))),
                 snd (saveReports world
                        (set_reports
                           (set (reports s1) hash
                              (report_record targetName
                                 (fileUrl_of cfg targetName)
                                 (mimeType_of file)
                                 (Date_toISOString world (clock_reads s1))))
                           (set_clock_reads (S (clock_reads s1)) s1))))
          | (Throws e, s1) =>
              run
              = (Returns (Json 502 (failure msg_upload_failed)),
                 set_trace (trace s1 ++ [Console_error "B2 upload error:" e])
                   s1)
          end
      end
  end.

(** An upload request whose form holds these two fields. *)
Definition with_fields (file : option File) (hash targetName : option form_value)
  : UploadRequest :=
  {| req_file := file;
     req_body := Some {| body_hash := hash;
                         body_targetName := targetName |} |}.

(** *** A run in which B2 rejects the key itself *)

Definition err401 : value :=
  object [("message", VString "Request failed with status code 401");
          ("response",
           object [("status", VNumber (Int 401));
                   ("data", object [("code", VString "bad_auth_token");
                                    ("status", VNumber (Int 401))])])].

Definition env_configured : Environment :=
  {| b2KeyId := "key-id"; b2AppKey := "app-key";
     b2BucketIdEnv := "bucket-1"; b2BucketNameEnv := "reports";
     b2PublicBaseOverride := "" |}.

(** Authorization is refused with HTTP 401; the upload-URL fetch and the
    upload would both succeed if they were reached. *)
Definition world_key_rejected : World :=
  {| authorize_result := fun _ => Throws err401;
     getUploadUrl_result := fun _ =>
       Returns {| uploadUrl_data :=
                    Some {| uploadUrl := "https://pod/upload";
                            authorizationToken := "tok" |} |};
     uploadFile_result := fun _ => Returns (object []);
     listBuckets_result := fun _ => Returns {| list_data := None |};
     getBucket_result := fun _ => Returns {| gb_data := None |};
     readFile_result := fun _ => Returns "{}";
     writeFile_result := fun _ => Returns tt;
     Date_now := fun n => 1700000000000 + Z.of_nat n;
     Date_toISOString := fun _ => "2023-11-14T22:13:20.000Z" |}.

Definition cfg_ready : B2Config :=
  {| enabled := true; bucketId := Some "bucket-1";
     bucketName := Some "reports";
     publicBaseUrl := "https://f000.backblazeb2.com" |}.

(** A fresh process: nothing authorized, nothing cached, an empty registry. *)
Definition fresh_state (registry : value) : State :=
  {| b2 := false;
     b2Config := {| enabled := false; bucketId := Some "";
                    bucketName := Some "";
                    publicBaseUrl := "" |};
     b2InitPromise := None; b2AuthPromise := None;
     b2LastAuthAt := 0; b2LastAuthResponse := None;
     reports := registry; trace := []; clock_reads := 0 |}.


(** *** Two sessions and an interleaving of two requests *)

Definition session_old : AuthResponse :=
  {| auth_data := Some {| downloadUrl := "https://f000.backblazeb2.com";
                          accountId := "acct" |} |}.

Definition session_new : AuthResponse :=
  {| auth_data := Some {| downloadUrl := "https://f001.backblazeb2.com";
                          accountId := "acct" |} |}.

(** The server has authorized once at start-up; later a request forces a
    new handshake (the retry of an upload), which is still in flight. *)
Definition forced_handshake_in_flight : list Interleaved.label :=
  [ Interleaved.CallReady 1000;
    Interleaved.Respond 0 (Returns session_old) 1100;
    Interleaved.Resume 0;
    Interleaved.Call true 2000 ].

Definition state_in_flight : Interleaved.state :=
  match Interleaved.run env_configured Interleaved.initial
          forced_handshake_in_flight with
  | Some st => st
  | None => Interleaved.initial
  end.

(** Three requests call [ensureB2Ready] before B2 has answered. *)
Definition three_ready_calls : list Interleaved.label :=
  [ Interleaved.CallReady 1000; Interleaved.CallReady 1001;
    Interleaved.CallReady 1002 ].

(** *** A world in which B2 and the file system work *)

Definition world_ok : World :=
  {| authorize_result := fun _ => Returns session_old;
     getUploadUrl_result := fun _ =>
       Returns {| uploadUrl_data :=
                    Some {| uploadUrl := "https://pod/upload";
                            authorizationToken := "tok" |} |};
     uploadFile_result := fun _ => Returns (object []);
     listBuckets_result := fun _ => Returns {| list_data := None |};
     getBucket_result := fun _ => Returns {| gb_data := None |};
     readFile_result := fun _ => Returns "{}";
     writeFile_result := fun _ => Returns tt;
     Date_now := fun n => 1700000000000 + Z.of_nat n;
     Date_toISOString := fun _ => "2023-11-14T22:13:20.000Z" |}.

(** The store file does not exist. *)
Definition ENOENT : value :=
  object [("message", VString "ENOENT: no such file or directory");
          ("code", VString "ENOENT")].

Definition world_no_store_file : World :=
  {| authorize_result := authorize_result world_ok;
     getUploadUrl_result := getUploadUrl_result world_ok;
     uploadFile_result := uploadFile_result world_ok;
     listBuckets_result := listBuckets_result world_ok;
     getBucket_result := getBucket_result world_ok;
     readFile_result := fun _ => Throws ENOENT;
     writeFile_result := writeFile_result world_ok;
     Date_now := Date_now world_ok;
     Date_toISOString := Date_toISOString world_ok |}.

(** A parser that finds every text malformed: enough where the text is
    never reached. *)
Definition JSON_parse_rejecting (raw : string) : outcome value :=
  Throws (Error "Unexpected token").

Definition env_unconfigured : Environment :=
  {| b2KeyId := ""; b2AppKey := ""; b2BucketIdEnv := "";
     b2BucketNameEnv := ""; b2PublicBaseOverride := "" |}.

(** *** Requests *)

Definition pdf_file : File :=
  {| buffer := bytes_of_string "PDF-BYTES"; originalname := "report.pdf";
     mimetype := "application/pdf"; size := 9 |}.

Definition plain_upload : UploadRequest :=
  {| req_file := Some pdf_file;
     req_body := Some {| body_hash := None; body_targetName := None |} |}.

(** A file part that is present and holds no bytes. *)
Definition empty_file : File :=
  {| buffer := []; originalname := "empty.txt"; mimetype := "text/plain";
     size := 0 |}.

Definition empty_upload : UploadRequest :=
  {| req_file := Some empty_file;
     req_body := Some {| body_hash := None; body_targetName := None |} |}.

Definition no_file_upload : UploadRequest :=
  {| req_file := None;
     req_body := Some {| body_hash := None; body_targetName := None |} |}.

Definition nested_upload : UploadRequest :=
  {| req_file := Some pdf_file;
     req_body := Some {| body_hash := None;
                         body_targetName := Some (FText "a/b c.pdf") |} |}.

(** *** Registries *)

(** One record whose timestamp cannot be parsed, then one that can. *)
Definition registry_unparseable : value :=
  object [("bad", object [("fileName", VString "x.pdf");
                          ("createdAt", VString "not-a-date")]);
          ("good", object [("fileName", VString "y.pdf");
                           ("createdAt",
                            VString "2024-01-01T00:00:00.000Z")])].

(** One record without a timestamp, then one from before 1970. *)
Definition registry_before_epoch : value :=
  object [("undated", object [("fileName", VString "x.pdf")]);
          ("old", object [("fileName", VString "y.pdf");
                          ("createdAt",
                           VString "1969-07-20T20:17:40.000Z")])].

(** Two dated records and one without a timestamp, oldest first. *)
Definition registry_dated : value :=
  object [("first", object [("fileName", VString "a.pdf");
                            ("createdAt",
                             VString "2023-01-01T00:00:00.000Z")]);
          ("none", object [("fileName", VString "b.pdf")]);
          ("second", object [("fileName", VString "c.pdf");
                             ("createdAt",
                              VString "2024-01-01T00:00:00.000Z")])].

(** *** A world whose disk refuses every write *)

Definition EACCES : value :=
  object [("message", VString "EACCES: permission denied");
          ("code", VString "EACCES")].

Definition world_read_only_disk : World :=
  with_writeFile world_ok (fun _ => Throws EACCES).

(** The same file sent again under a fingerprint of the caller's choice. *)
Definition tagged_upload (tag name : string) : UploadRequest :=
  {| req_file := Some pdf_file;
     req_body := Some {| body_hash := Some (FText tag);
                         body_targetName := Some (FText name) |} |}.

(** *** A server that authorized a quarter of an hour ago, and one that
    authorized exactly twenty-three hours ago *)

Definition state_with_session : State :=
  {| b2 := true; b2Config := cfg_ready; b2InitPromise := Some cfg_ready;
     b2AuthPromise := None;
     b2LastAuthAt := 1699999100000; b2LastAuthResponse := Some session_old;
     reports := object []; trace := []; clock_reads := 0 |}.

Definition state_with_expired_session : State :=
  {| b2 := true; b2Config := cfg_ready; b2InitPromise := Some cfg_ready;
     b2AuthPromise := None;
     b2LastAuthAt := 1700000000000 - 82800000;
     b2LastAuthResponse := Some session_old;
     reports := object []; trace := []; clock_reads := 0 |}.

(** *** Only the name of the bucket is configured *)

Definition env_name_only : Environment :=
  {| b2KeyId := "key-id"; b2AppKey := "app-key";
     b2BucketIdEnv := ""; b2BucketNameEnv := "reports";
     b2PublicBaseOverride := "https://cdn.example/" |}.

Definition bucket_other : Bucket :=
  {| bucket_id := "bucket-0"; bucket_name := "other" |}.

Definition bucket_reports : Bucket :=
  {| bucket_id := "bucket-1"; bucket_name := "reports" |}.

(** The key may list the buckets of the account. *)
Definition world_listing : World :=
  {| authorize_result := authorize_result world_ok;
     getUploadUrl_result := getUploadUrl_result world_ok;
     uploadFile_result := uploadFile_result world_ok;
     listBuckets_result := fun _ =>
       Returns {| list_data := Some (Some [bucket_other; bucket_reports]) |};
     getBucket_result := fun _ => Throws err401;
     readFile_result := readFile_result world_ok;
     writeFile_result := writeFile_result world_ok;
     Date_now := Date_now world_ok;
     Date_toISOString := Date_toISOString world_ok |}.

(** The key is restricted to one bucket and may not list; the lookup of
    the bucket resolves with the list payload, which has no [bucketId] and
    no [bucketName] of its own. *)
Definition world_restricted_key : World :=
  {| authorize_result := authorize_result world_ok;
     getUploadUrl_result := getUploadUrl_result world_ok;
     uploadFile_result := uploadFile_result world_ok;
     listBuckets_result := fun _ => Throws err401;
     getBucket_result := fun _ =>
       Returns {| gb_data := Some {| gb_bucketId := None;
                                     gb_bucketName := None |} |};
     readFile_result := readFile_result world_ok;
     writeFile_result := writeFile_result world_ok;
     Date_now := Date_now world_ok;
     Date_toISOString := Date_toISOString world_ok |}.

(** *** A store file that holds one record *)

Definition stored_registry : value :=
  object [("k1", object [("fileName", VString "a.pdf");
                         ("fileUrl", VString "https://x/a.pdf")])].

(** The text of [stored_registry] as the store file holds it. *)
Definition quoted (s : string) : string :=
  String (ascii_of_nat 34) s ++ String (ascii_of_nat 34) "".

Definition stored_text : string :=
  "{" ++ quoted "k1" ++ ":{"
  ++ quoted "fileName" ++ ":" ++ quoted "a.pdf" ++ ","
  ++ quoted "fileUrl" ++ ":" ++ quoted "https://x/a.pdf" ++ "}}".

(** A parser that reads that one text and finds every other malformed. *)

Definition JSON_parse_stored (raw : string) : outcome value :=
  if (raw =? stored_text)%string then Returns stored_registry
  else Throws (Error "Unexpected token").

Definition world_with_store : World :=
  {| authorize_result := authorize_result world_ok;
     getUploadUrl_result := getUploadUrl_result world_ok;
     uploadFile_result := uploadFile_result world_ok;
     listBuckets_result := listBuckets_result world_ok;
     getBucket_result := getBucket_result world_ok;
     readFile_result := fun _ => Returns stored_text;
     writeFile_result := writeFile_result world_ok;
     Date_now := Date_now world_ok;
     Date_toISOString := Date_toISOString world_ok |}.

(** *** A store file with a record that is [null] *)

Definition registry_with_null : value :=
  object [("k1", object [("fileName", VString "a.pdf");
                         ("fileUrl", VString "https://x/a.pdf")]);
          ("gone", VNull)].

(** *** Two handshakes, one after the other *)

(** The server comes up and authorizes; the caller resumes. *)
Definition first_handshake : list Interleaved.label :=
  [ Interleaved.CallReady 1000;
    Interleaved.Respond 0 (Returns session_old) 1100;
    Interleaved.Resume 0 ].

(** Later a request forces a new handshake, B2 answers with another
    session, and a third request is served from the cache. *)
Definition second_handshake : list Interleaved.label :=
  [ Interleaved.Call true 2000;
    Interleaved.Respond 1 (Returns session_new) 2100;
    Interleaved.Resume 1;
    Interleaved.Call false 2200 ].

Definition state_authorized : Interleaved.state :=
  match Interleaved.run env_configured Interleaved.initial first_handshake
  with
  | Some st => st
  | None => Interleaved.initial
  end.

Definition state_reauthorized : Interleaved.state :=
  match Interleaved.run env_configured state_authorized second_handshake
  with
  | Some st => st
  | None => Interleaved.initial
  end.

(** *** Form fields that are not plain text *)

(** Both fields are sent, both empty. *)
Definition blank_fields_upload : UploadRequest :=
  with_fields (Some pdf_file) (Some (FText "")) (Some (FText "")).

(** The field [hash[a]]: an object without prototype. *)
Definition nested_field_upload : UploadRequest :=
  with_fields (Some pdf_file) (Some FNested) None.

(** The field [hash] sent twice. *)
Definition repeated_field_upload : UploadRequest :=
  with_fields (Some pdf_file) (Some (FArray [Some (FText "h1");
                                              Some (FText "h2")]))
    None.

(** *** Records whose file name is an object *)

(** Under ["k"] the file name is an object whose [toString] is a number;
    under ["plain"] it is an empty object, which converts to
    ["[object Object]"]. *)
Definition registry_odd_name : value :=
  object [("k", object [("fileName",
                         object [("toString", VNumber (Int 1))]);
                        ("fileUrl", VString "https://x/a.pdf")]);
          ("plain", object [("fileName", object [])])].

(* ===================================================================== *)
(** ** The platform functions on known values *)
(* ===================================================================== *)

Example sha256_of_abc :
  hex_of_bytes (sha256 (bytes_of_string "abc"))
  = "ba7816bf8f01cfea414140de5dae2223b00361a396177a9cb410ff61f20015ad".
Proof. vm_compute. reflexivity. Qed.

Example sha256_of_nothing :
  hex_of_bytes (sha256 [])
  = "e3b0c44298fc1c149afbf4c8996fb92427ae41e4649b934ca495991b7852b855".
Proof. vm_compute. reflexivity. Qed.

Example sha256_of_two_blocks :
  hex_of_bytes
    (sha256 (bytes_of_string
               "abcdbcdecdefdefgefghfghighijhijkijkljklmklmnlmnomnopnopq"))
  = "248d6a61d20638b8e5c026930c3e6039a33ce45964ff2167f6ecedd419db06c1".
Proof. vm_compute. reflexivity. Qed.

Example Date_parse_of_toISOString :
  Date_parse_standard "2023-11-14T22:13:20.000Z" = Int 1700000000000
  /\ Date_parse_standard "1970-01-01T00:00:00.000Z" = Int 0
  /\ Date_parse_standard "1969-12-31T23:59:59.999Z" = Int (-1)
  /\ Date_parse_standard "2024-02-29" = Int 1709164800000.
Proof. vm_compute. repeat split. Qed.

Example Date_parse_of_invalid :
  Date_parse_standard "not-a-date" = NaN
  /\ Date_parse_standard "2023-02-29T00:00:00.000Z" = NaN
  /\ Date_parse_standard "2024-13-01T00:00:00.000Z" = NaN.
Proof. vm_compute. repeat split. Qed.

Example encodeURIComponent_of_reserved :
  encodeURIComponent "a b&c/d-_.!~*'()%" = "a%20b%26c%2Fd-_.!~*'()%25".
Proof. vm_compute. reflexivity. Qed.

Example isExpiredAuthError_cases :
  isExpiredAuthError err401 = Returns true
  /\ isExpiredAuthError (object [("code", VString "expired_auth_token")])
     = Returns true
  /\ isExpiredAuthError (object [("status", VNumber (Int 401))])
     = Returns true
  /\ isExpiredAuthError (Error "B2 credentials are not configured")
     = Returns false
  /\ isExpiredAuthError VUndefined = Returns false.
Proof. vm_compute. repeat split. Qed.

Example Object_entries_order :
  map fst (Object_entries (object [("b", VNull); ("10", VNull);
                                   ("2", VNull); ("a", VNull)]))
  = ["2"; "10"; "b"; "a"].
Proof. vm_compute. reflexivity. Qed.

(** Form fields that are not plain text: a field sent twice is joined with
    a comma, a hole gives an empty piece, and an object without prototype
    cannot be converted. *)
Example String_of_form_cases :
  String_of_form (FText "abc") = Returns "abc"
  /\ String_of_form (FArray [Some (FText "h1"); Some (FText "h2")])
     = Returns "h1,h2"
  /\ String_of_form (FArray [Some (FText "a"); None;
                             Some (FArray [Some (FText "b");
                                           Some (FText "c")])])
     = Returns "a,,b,c"
  /\ String_of_form FNested
     = Throws (TypeError "Cannot convert object to primitive value")
  /\ String_of_form (FArray [Some (FText "a"); Some FNested])
     = Throws (TypeError "Cannot convert object to primitive value").
Proof. repeat split. Qed.

(** A nested [hash] field throws on line 265, after the store was found
    enabled: the outer [catch] logs the error and answers 500. Nothing was
    sent to B2 beyond the handshake and the registry is untouched. *)
Example nested_field_is_an_upload_error :
  fst (upload_route env_configured world_ok nested_field_upload
         (fresh_state (object [])))
  = Returns (Json 500 (failure msg_upload_error))
  /\ trace (snd (upload_route env_configured world_ok nested_field_upload
                   (fresh_state (object []))))
     = [B2_authorize;
        Console_error "Upload error:"
          (TypeError "Cannot convert object to primitive value")]
  /\ reports (snd (upload_route env_configured world_ok nested_field_upload
                     (fresh_state (object []))))
     = object [].
Proof. repeat split. Qed.

(** A [hash] field sent twice gives the key ["h1,h2"]. *)
Example repeated_field_is_joined :
  exists body,
    fst (upload_route env_configured world_ok repeated_field_upload
           (fresh_state (object [])))
    = Returns (Json 200 body)
    /\ get body "hash" = VString "h1,h2".
Proof. eexists. split; reflexivity. Qed.

(** [GET /verify] throws while it builds its page for a record whose file
    name is an object with a [toString] that is no function; [GET /file]
    redirects for the same record. *)
Example verify_route_cannot_convert :
  verify_route registry_odd_name (Some "k")
  = Throws (TypeError "Cannot convert object to primitive value")
  /\ file_route registry_odd_name (Some "k")
     = Returns (Redirect 302 (VString "https://x/a.pdf"))
  /\ verify_route registry_odd_name (Some "plain")
     = Returns (Html (Authentic "plain" (object []) VUndefined)).
Proof. repeat split. Qed.
(* ===================================================================== *)
(** ** Theorems: the retry policy of [uploadFileToB2] *)
(* ===================================================================== *)

Lemma member_truthy (v : value) (f : field) :
  truthy v = true -> exists x, member v f = Returns x.
Proof.
  destruct v; simpl; intros H; try discriminate; eauto.
Qed.

Lemma and_member_returns (v : value) (f : field) :
  exists x, and_member v f = Returns x.
Proof.
  unfold and_member. destruct (truthy v) eqn:T; eauto using member_truthy.
Qed.

Lemma and_member_truthy (v x : value) (f : field) :
  and_member v f = Returns x -> truthy x = true ->
  truthy v = true /\ member v f = Returns x.
Proof.
  unfold and_member. destruct (truthy v) eqn:T; intros E Hx; auto.
  inversion E; subst. congruence.
Qed.

(** [isExpiredAuthError] never throws: every member access is guarded. *)
Lemma isExpiredAuthError_total (err : value) :
  exists b, isExpiredAuthError err = Returns b.
Proof.
  unfold isExpiredAuthError.
  destruct (and_member_returns err f_response) as [resp ->]. simpl.
  destruct (and_member_returns resp f_data) as [rd Erd]. rewrite Erd. simpl.
  destruct (and_member_returns rd f_code) as [rdc Erdc]. rewrite Erdc. simpl.
  assert (Hcode : exists code,
             (if truthy rdc
              then obind (member resp f_data) (fun d => member d f_code)
              else and_member err f_code) = Returns code).
  { destruct (truthy rdc) eqn:T.
    - destruct (and_member_truthy _ _ _ Erdc T) as [Trd Mrd].
      destruct (and_member_truthy _ _ _ Erd Trd) as [_ Mresp].
      rewrite Mresp. simpl. eauto.
    - apply and_member_returns. }
  destruct Hcode as [code ->]. simpl.
  destruct (and_member_returns resp f_status) as [rs Ers]. rewrite Ers. simpl.
  assert (Hst : exists st,
             (if truthy rs then member resp f_status
              else and_member err f_status) = Returns st).
  { destruct (truthy rs) eqn:T.
    - destruct (and_member_truthy _ _ _ Ers T) as [_ Mr]. eauto.
    - apply and_member_returns. }
  destruct Hst as [st ->]. simpl. eauto.
Qed.

Lemma since_app (s s' : State) (d : list event) :
  trace s' = (trace s ++ d)%list -> since s s' = d.
Proof.
  unfold since. intros ->.
  rewrite skipn_app, skipn_all, Nat.sub_diag. reflexivity.
Qed.

Lemma count_app (p : event -> bool) (d1 d2 : list event) :
  count p (d1 ++ d2) = (count p d1 + count p d2)%nat.
Proof. unfold count. now rewrite filter_app, length_app. Qed.

Ltac count_tac :=
  rewrite ?count_app; unfold count in *; simpl in *; lia.

Ltac close_run Hfirst :=
  repeat split; auto; try tauto;
  try (now rewrite <- ?app_assoc);
  try count_tac;
  try (let F := fresh in let C := fresh in intros F C; apply (Hfirst F C)).

Section RetryPolicy.

Variable env : Environment.
Variable world : World.

(** What one call of [ensureB2Authorized] does to a quiescent state. *)
Lemma ensureB2Authorized_run (force : bool) (s : State) :
  b2AuthPromise s = None ->
  exists d, trace (snd (ensureB2Authorized env world force s))
            = (trace s ++ d)%list
    /\ b2AuthPromise (snd (ensureB2Authorized env world force s)) = None
    /\ (d = [] \/ d = [B2_authorize])
    /\ (force = true -> credentials_configured env = true ->
        d = [B2_authorize])
    /\ (credentials_configured env = false ->
        ensureB2Authorized env world force s
        = (Throws (Error "B2 credentials are not configured"), s)).
Proof.
  intros Hq. unfold ensureB2Authorized, credentials_configured.
  destruct (nonempty (b2KeyId env)), (nonempty (b2AppKey env)); simpl;
    try (exists []; rewrite app_nil_r; repeat split; auto; discriminate).
  unfold bind, now, read. simpl.
  destruct force; simpl.
  - rewrite Hq.
    destruct (b2 s); unfold modify, settle, external, try_finally, await, ret;
      simpl;
      destruct (authorize_result world (trace s ++ [B2_authorize])); simpl;
      exists [B2_authorize]; repeat split; auto; discriminate.
  - destruct (negb (b2LastAuthAt s =? 0)
              && (Date_now world (clock_reads s) - b2LastAuthAt s
                  <? B2_AUTH_TTL_MS)); simpl.
    + destruct (b2LastAuthResponse s); simpl.
      * exists []. rewrite app_nil_r. repeat split; auto; discriminate.
      * rewrite Hq.
        destruct (b2 s);
          unfold modify, settle, external, try_finally, await, ret; simpl;
          destruct (authorize_result world (trace s ++ [B2_authorize])); simpl;
          exists [B2_authorize]; repeat split; auto; discriminate.
    + rewrite Hq.
      destruct (b2 s);
        unfold modify, settle, external, try_finally, await, ret; simpl;
        destruct (authorize_result world (trace s ++ [B2_authorize])); simpl;
        exists [B2_authorize]; repeat split; auto; discriminate.
Qed.


(** What one [attempt] does to a quiescent state. *)
Lemma attempt_run (cfg : B2Config) (name : string) (buf : list Byte.byte)
    (mime : string) (force : bool) (s : State) :
  b2AuthPromise s = None ->
  exists d, trace (snd (attempt env world cfg name buf mime force s))
            = (trace s ++ d)%list
    /\ b2AuthPromise (snd (attempt env world cfg name buf mime force s)) = None
    /\ (count is_authorize d <= 1)%nat
    /\ (count is_getUploadUrl d <= 1)%nat
    /\ (count is_uploadFile d <= 1)%nat
    /\ count is_retry_warning d = 0%nat
    /\ (force = true -> credentials_configured env = true ->
        exists rest, d = B2_authorize :: rest)
    /\ (credentials_configured env = false ->
        attempt env world cfg name buf mime force s
        = (Throws (Error "B2 credentials are not configured"), s)).
Proof.
  intros Hq. unfold attempt, bind.
  destruct (ensureB2Authorized_run force s Hq)
    as (d0 & Ht & Hq1 & Hd0 & Hforce & Hcred).
  destruct (ensureB2Authorized env world force s) as [r s1] eqn:E.
  simpl in Ht, Hq1.
  assert (Hc0 : (count is_authorize d0 <= 1)%nat
                /\ count is_getUploadUrl d0 = 0%nat
                /\ count is_uploadFile d0 = 0%nat
                /\ count is_retry_warning d0 = 0%nat).
  { destruct Hd0 as [-> | ->]; cbv; auto. }
  destruct Hc0 as (Ha & Hg & Hu & Hw).
  assert (Hfirst : force = true -> credentials_configured env = true ->
                   forall tail, exists rest,
                     (d0 ++ tail)%list = B2_authorize :: rest).
  { intros F C tail. rewrite (Hforce F C). simpl. eauto. }
  destruct r as [auth | e]; simpl.
  - assert (Hcred' : credentials_configured env = false -> False).
    { intros C. specialize (Hcred C). congruence. }
    unfold b2_call, bind, read. simpl.
    destruct (b2 s1) eqn:Hb2; simpl.
    + unfold external at 1. simpl.
      destruct (getUploadUrl_result world
                  (trace s1 ++ [B2_getUploadUrl (bucketId cfg)]))
        as [resp | e]; simpl.
      * destruct (uploadUrl_data resp) as [u | ]; simpl.
        -- rewrite Hb2. unfold external. simpl.
           match goal with
           | |- context [uploadFile_result world ?t] =>
               destruct (uploadFile_result world t)
           end; simpl;
             exists (d0 ++ [B2_getUploadUrl (bucketId cfg);
                            B2_uploadFile (uploadUrl u) (authorizationToken u)
                              name buf mime])%list;
             rewrite Ht; close_run Hfirst.
        -- exists (d0 ++ [B2_getUploadUrl (bucketId cfg)])%list.
           rewrite Ht. close_run Hfirst.
      * exists (d0 ++ [B2_getUploadUrl (bucketId cfg)])%list.
        rewrite Ht. close_run Hfirst.
    + exists d0. repeat split; auto.
      * lia.
      * lia.
      * intros F C. destruct (Hfirst F C []) as [rest Hr].
        rewrite app_nil_r in Hr. eauto.
      * intros C; tauto.
  - exists d0. repeat split; auto.
    + lia.
    + lia.
    + intros F C. destruct (Hfirst F C []) as [rest Hr].
      rewrite app_nil_r in Hr. eauto.
    + intros C. specialize (Hcred C). congruence.
Qed.


(** C1 (amended). One upload through [uploadFileToB2], started from a
    quiescent state, makes at most two authorize handshakes, two upload-URL
    fetches and two uploads. It retries exactly once, and exactly when the
    first attempt -- its authorize step, the upload-URL fetch or the upload
    -- fails with an error that [isExpiredAuthError] accepts; the retry is
    [attempt(true)], whose first external call is the authorize handshake,
    and whatever the retry returns or throws is the result. A first failure
    without the expiry signal is rethrown with nothing further done. *)
Theorem uploadFileToB2_retry_policy (cfg : B2Config) (name : string)
    (buf : list Byte.byte) (mime : string) (s : State) :
  b2AuthPromise s = None ->
  let first := attempt env world cfg name buf mime false s in
  let run := uploadFileToB2 env world cfg name buf mime s in
  (count is_authorize (since s (snd run)) <= 2)%nat
  /\ (count is_getUploadUrl (since s (snd run)) <= 2)%nat
  /\ (count is_uploadFile (since s (snd run)) <= 2)%nat
  /\ (count is_retry_warning (since s (snd run)) <= 1)%nat
  /\ (count is_retry_warning (since s (snd run)) = 1%nat <->
      exists e, fst first = Throws e /\ isExpiredAuthError e = Returns true)
  /\ match fst first with
     | Returns _ => run = first
     | Throws e =>
         match isExpiredAuthError e with
         | Returns true =>
             let s1 := set_trace (trace (snd first)
                                  ++ [Console_warn retry_warning])%list
                         (snd first) in
             run = attempt env world cfg name buf mime true s1
             /\ exists rest, since s1 (snd run) = B2_authorize :: rest
         | Returns false => run = first
         | Throws _ => False
         end
     end.
Proof.
  intros Hq first run. subst first run.
  unfold uploadFileToB2, try_catch.
  destruct (attempt_run cfg name buf mime false s Hq)
    as (d1 & Ht1 & Hq1 & Ha1 & Hg1 & Hu1 & Hw1 & _ & Hcred1).
  destruct (attempt env world cfg name buf mime false s) as [r1 s1] eqn:E1.
  simpl in Ht1, Hq1. simpl fst. simpl snd.
  destruct r1 as [v | e].
  - simpl. rewrite (since_app _ _ _ Ht1).
    repeat split; try count_tac.
    intros (e & He & _). discriminate.
  - unfold bind, lift.
    destruct (isExpiredAuthError_total e) as [b Hb]. rewrite Hb.
    destruct b.
    + unfold console_warn, modify. fold retry_warning.
      set (s1' := set_trace (trace s1 ++ [Console_warn retry_warning])%list s1).
      assert (Hcfg : credentials_configured env = true).
      { destruct (credentials_configured env) eqn:C; auto.
        specialize (Hcred1 eq_refl). inversion Hcred1; subst.
        vm_compute in Hb. discriminate. }
      assert (Hq1' : b2AuthPromise s1' = None) by exact Hq1.
      destruct (attempt_run cfg name buf mime true s1' Hq1')
        as (d2 & Ht2 & _ & Ha2 & Hg2 & Hu2 & Hw2 & Hfirst & _).
      destruct (Hfirst eq_refl Hcfg) as [rest Hrest].
      destruct (attempt env world cfg name buf mime true s1') as [r2 s2] eqn:E2.
      cbn [snd] in Ht2. simpl snd.
      assert (Hall : trace s2
                     = (trace s ++ (d1 ++ [Console_warn retry_warning] ++ d2))%list).
      { rewrite Ht2. subst s1'. simpl. rewrite Ht1.
        now rewrite <- !app_assoc. }
      rewrite (since_app _ _ _ Hall), (since_app _ _ _ Ht2).
      repeat split; try count_tac; eauto.
    + simpl. rewrite (since_app _ _ _ Ht1).
      repeat split; try count_tac.
      intros (e' & He' & Hx). inversion He'; subst. congruence.
Qed.

End RetryPolicy.


(** C1, as stated, fails: when the authorize step of the first attempt is
    refused with HTTP 401, the upload is retried although neither the
    upload-URL fetch nor the upload failed (neither was even called). *)
Lemma retry_on_authorize_failure :
  trace (snd (uploadFileToB2 env_configured world_key_rejected cfg_ready
                "a.pdf" [] "application/pdf" (fresh_state (object []))))
  = [B2_authorize; Console_warn retry_warning; B2_authorize]
  /\ ~ retry_only_on_fetch_or_upload_expiry env_configured world_key_rejected
         cfg_ready "a.pdf" [] "application/pdf" (fresh_state (object [])).
Proof.
  split; [ reflexivity | ].
  unfold retry_only_on_fetch_or_upload_expiry. intros H.
  destruct H as (t & e & [Hf | Hu] & _).
  - vm_compute. discriminate.
  - simpl in Hf. discriminate.
  - simpl in Hu. discriminate.
Qed.

Lemma uploadFileToB2_retry_policy_witness :
  b2AuthPromise (fresh_state (object [])) = None
  /\ (count is_authorize
        (since (fresh_state (object []))
           (snd (uploadFileToB2 env_configured world_key_rejected cfg_ready
                   "a.pdf" [] "application/pdf" (fresh_state (object [])))))
      <= 2)%nat.
Proof.
  split; [ reflexivity | ].
  exact (proj1 (uploadFileToB2_retry_policy env_configured world_key_rejected
                  cfg_ready "a.pdf" [] "application/pdf"
                  (fresh_state (object [])) eq_refl)).
Defined.

(* ===================================================================== *)
(** ** What the session manager leaves alone *)
(* ===================================================================== *)

Section Frame.

Context {X : Type} (f : State -> X).

Hypothesis f_trace : forall t s, f (set_trace t s) = f s.
Hypothesis f_clock : forall n s, f (set_clock_reads n s) = f s.
Hypothesis f_b2 : forall b s, f (set_b2 b s) = f s.
Hypothesis f_at : forall t s, f (set_b2LastAuthAt t s) = f s.
Hypothesis f_response : forall r s, f (set_b2LastAuthResponse r s) = f s.
Hypothesis f_promise : forall p s, f (set_b2AuthPromise p s) = f s.

Lemma preserves_ret {A} (a : A) : preserves f (ret a).
Proof. intros s. reflexivity. Qed.

Lemma preserves_throw {A} (e : value) : preserves f (@throw A e).
Proof. intros s. reflexivity. Qed.

Lemma preserves_lift {A} (o : outcome A) : preserves f (lift o).
Proof. intros s. reflexivity. Qed.

Lemma preserves_await {A} (o : outcome A) : preserves f (await o).
Proof. intros s. reflexivity. Qed.

Lemma preserves_read : preserves f read.
Proof. intros s. reflexivity. Qed.

Lemma preserves_bind {A B} (m : M A) (k : A -> M B) :
  preserves f m -> (forall a, preserves f (k a)) -> preserves f (bind m k).
Proof.
  intros Hm Hk s. unfold bind. specialize (Hm s).
  destruct (m s) as [[a | e] s1]; simpl in *.
  - rewrite Hk. assumption.
  - assumption.
Qed.

Lemma preserves_try_catch {A} (m : M A) (h : value -> M A) :
  preserves f m -> (forall e, preserves f (h e)) -> preserves f (try_catch m h).
Proof.
  intros Hm Hh s. unfold try_catch. specialize (Hm s).
  destruct (m s) as [[a | e] s1]; simpl in *.
  - assumption.
  - rewrite Hh. assumption.
Qed.

Lemma preserves_try_finally {A} (m : M A) (fin : M unit) :
  preserves f m -> preserves f fin -> preserves f (try_finally m fin).
Proof.
  intros Hm Hf s. unfold try_finally. specialize (Hm s).
  destruct (m s) as [r s1]. specialize (Hf s1).
  destruct (fin s1) as [[u | e] s2]; simpl in *; congruence.
Qed.

Lemma preserves_settle {A} (m : M A) : preserves f m -> preserves f (settle m).
Proof.
  intros Hm s. unfold settle. specialize (Hm s).
  destruct (m s) as [r s1]. assumption.
Qed.

Lemma preserves_external {A} (ev : event) (answer : list event -> outcome A) :
  preserves f (external ev answer).
Proof. intros s. unfold external. simpl. apply f_trace. Qed.

Lemma preserves_modify (g : State -> State) :
  (forall s, f (g s) = f s) -> preserves f (modify g).
Proof. intros Hg s. unfold modify. simpl. apply Hg. Qed.

Section WithWorld.

Variable env : Environment.
Variable world : World.

Lemma preserves_now : preserves f (now world).
Proof. intros s. unfold now. simpl. apply f_clock. Qed.

Lemma preserves_now_iso : preserves f (now_iso world).
Proof. intros s. unfold now_iso. simpl. apply f_clock. Qed.

Lemma preserves_console_warn (text : string) : preserves f (console_warn text).
Proof. apply preserves_modify. intros s. apply f_trace. Qed.

Lemma preserves_console_error (label : string) (e : value) :
  preserves f (console_error label e).
Proof. apply preserves_modify. intros s. apply f_trace. Qed.

Lemma preserves_b2_call {A} (ev : event) (answer : list event -> outcome A) :
  preserves f (b2_call ev answer).
Proof.
  unfold b2_call. apply preserves_bind; [ apply preserves_read | ].
  intros s. destruct (b2 s);
    [ apply preserves_external | apply preserves_throw ].
Qed.

Lemma preserves_ensureB2Authorized (force : bool) :
  preserves f (ensureB2Authorized env world force).
Proof.
  unfold ensureB2Authorized.
  destruct (negb (nonempty (b2KeyId env)) || negb (nonempty (b2AppKey env)));
    [ apply preserves_throw | ].
  apply preserves_bind; [ apply preserves_now | intros t ].
  apply preserves_bind; [ apply preserves_read | intros s ].
  destruct (if negb force && negb (b2LastAuthAt s =? 0)
               && (t - b2LastAuthAt s <? B2_AUTH_TTL_MS)
            then b2LastAuthResponse s else None);
    [ apply preserves_ret | ].
  destruct (b2AuthPromise s); [ apply preserves_await | ].
  apply preserves_bind.
  { destruct (b2 s); [ apply preserves_ret | apply preserves_modify; auto ]. }
  intros _. apply preserves_bind.
  { apply preserves_settle.
    apply preserves_bind; [ apply preserves_external | intros auth ].
    apply preserves_bind; [ apply preserves_now | intros t' ].
    apply preserves_bind; [ apply preserves_modify; auto | intros _ ].
    apply preserves_bind; [ apply preserves_modify; auto | intros _ ].
    apply preserves_ret. }
  intros p. apply preserves_bind; [ apply preserves_modify; auto | intros _ ].
  apply preserves_try_finally;
    [ apply preserves_await | apply preserves_modify; auto ].
Qed.

Lemma preserves_attempt (cfg : B2Config) (name : string)
    (buf : list Byte.byte) (mime : string) (force : bool) :
  preserves f (attempt env world cfg name buf mime force).
Proof.
  unfold attempt.
  apply preserves_bind; [ apply preserves_ensureB2Authorized | intros _ ].
  apply preserves_bind; [ apply preserves_b2_call | intros resp ].
  destruct (uploadUrl_data resp);
    [ apply preserves_b2_call | apply preserves_throw ].
Qed.

Lemma preserves_uploadFileToB2 (cfg : B2Config) (name : string)
    (buf : list Byte.byte) (mime : string) :
  preserves f (uploadFileToB2 env world cfg name buf mime).
Proof.
  unfold uploadFileToB2.
  apply preserves_try_catch; [ apply preserves_attempt | intros err ].
  apply preserves_bind; [ apply preserves_lift | intros expired ].
  destruct expired; [ | apply preserves_throw ].
  apply preserves_bind; [ apply preserves_console_warn | intros _ ].
  apply preserves_attempt.
Qed.

End WithWorld.

End Frame.

(** One step of a frame proof, read off the shape of the computation. *)
Ltac frame_step :=
  match goal with
  | |- preserves _ (bind _ _) => apply preserves_bind; [ | intro ]
  | |- preserves _ (try_catch _ _) => apply preserves_try_catch; [ | intro ]
  | |- preserves _ (try_finally _ _) => apply preserves_try_finally
  | |- preserves _ (settle _) => apply preserves_settle
  | |- preserves _ (ret _) => apply preserves_ret
  | |- preserves _ (throw _) => apply preserves_throw
  | |- preserves _ (lift _) => apply preserves_lift
  | |- preserves _ (await _) => apply preserves_await
  | |- preserves _ read => apply preserves_read
  | |- preserves _ (external _ _) =>
      apply preserves_external; intros; reflexivity
  | |- preserves _ (b2_call _ _) =>
      apply preserves_b2_call; intros; reflexivity
  | |- preserves _ (modify _) => apply preserves_modify; intros; reflexivity
  | |- preserves _ (now _) => apply preserves_now; intros; reflexivity
  | |- preserves _ (now_iso _) => apply preserves_now_iso; intros; reflexivity
  | |- preserves _ (console_warn _) =>
      apply preserves_console_warn; intros; reflexivity
  | |- preserves _ (console_error _ _) =>
      apply preserves_console_error; intros; reflexivity
  | |- preserves _ (ensureB2Authorized _ _ _) =>
      apply preserves_ensureB2Authorized; intros; reflexivity
  | |- preserves _ (uploadFileToB2 _ _ _ _ _ _) =>
      apply preserves_uploadFileToB2; intros; reflexivity
  | |- preserves _ (if ?c then _ else _) => destruct c
  | |- preserves _ (match ?x with _ => _ end) => destruct x
  end.

Section RegistryFrame.

Variable env : Environment.
Variable world : World.

Lemma b2Init_preserves_reports : preserves reports (b2Init env world).
Proof. unfold b2Init. repeat frame_step. Qed.

Lemma ensureB2Ready_preserves_reports :
  preserves reports (ensureB2Ready env world).
Proof.
  unfold ensureB2Ready. repeat frame_step.
  apply b2Init_preserves_reports.
Qed.

Lemma uploadFileToB2_preserves_reports (cfg : B2Config) (name : string)
    (buf : list Byte.byte) (mime : string) :
  preserves reports (uploadFileToB2 env world cfg name buf mime).
Proof. frame_step. Qed.

Lemma saveReports_preserves_reports : preserves reports (saveReports world).
Proof. unfold saveReports. repeat frame_step. Qed.

Lemma saveReports_returns (s : State) :
  fst (saveReports world s) = Returns tt.
Proof.
  unfold saveReports, bind, read, try_catch, external, console_error, modify.
  simpl. destruct (writeFile_result world _) as [[] | e]; reflexivity.
Qed.

(** [ensureB2Ready] never throws, and it remembers what it returns. *)
Lemma ensureB2Ready_returns (s : State) :
  exists cfg, fst (ensureB2Ready env world s) = Returns cfg
              /\ b2InitPromise (snd (ensureB2Ready env world s)) = Some cfg.
Proof.
  unfold ensureB2Ready, bind, read, try_catch. simpl.
  destruct (b2InitPromise s) as [cfg | ] eqn:E; simpl.
  - exists cfg. auto.
  - destruct (b2Init env world s) as [[cfg | e] s1]; simpl; eauto.
Qed.

Lemma ensureB2Ready_cached (cfg : B2Config) (s : State) :
  b2InitPromise s = Some cfg ->
  ensureB2Ready env world s = (Returns cfg, s).
Proof.
  intros E. unfold ensureB2Ready, bind, read. simpl. now rewrite E.
Qed.

End RegistryFrame.

(* ===================================================================== *)
(** ** Theorems: [ensureB2Ready] *)
(* ===================================================================== *)

Section Ready.

Variable env : Environment.
Variable world : World.

Lemma upload_route_keeps_init (cfg : B2Config) (req : UploadRequest)
    (s : State) :
  b2InitPromise s = Some cfg ->
  b2InitPromise (snd (upload_route env world req s)) = Some cfg.
Proof.
  intros E. unfold upload_route.
  destruct (req_file req) as [file | ]; [ | exact E ].
  cbv iota.
  match goal with
  | |- context [bind (ensureB2Ready env world) ?K] => pose (rest := K)
  end.
  assert (HK : forall c, preserves b2InitPromise (rest c)).
  { intros c. subst rest. cbv beta. unfold saveReports. repeat frame_step. }
  fold rest. unfold try_catch, bind at 1.
  rewrite (ensureB2Ready_cached env world cfg s E).
  specialize (HK cfg s).
  match goal with
  | H : b2InitPromise (snd ?run) = _ |- _ =>
      destruct run as [[r | e] s']; simpl in *; congruence
  end.
Qed.

Lemma storage_needs_credentials :
  storage_configured env = true -> credentials_configured env = true.
Proof.
  unfold storage_configured. intros H.
  now apply andb_true_iff in H as [H _].
Qed.

Lemma b2Init_unconfigured (s : State) :
  storage_configured env = false ->
  exists cfg, b2Init env world s = (Returns cfg, set_b2Config cfg s)
              /\ enabled cfg = false.
Proof.
  unfold storage_configured, credentials_configured, b2Init.
  intros H.
  assert (C : negb (nonempty (b2KeyId env)) || negb (nonempty (b2AppKey env))
              || negb (nonempty (b2BucketIdEnv env))
                 && negb (nonempty (b2BucketNameEnv env)) = true).
  { destruct (nonempty (b2KeyId env)), (nonempty (b2AppKey env)),
      (nonempty (b2BucketIdEnv env)), (nonempty (b2BucketNameEnv env));
      simpl in *; congruence. }
  rewrite C. unfold bind, modify, read, ret. simpl. eauto.
Qed.

Lemma b2Init_authorize_fails (s : State) (e : value) :
  storage_configured env = true -> b2AuthPromise s = None ->
  authorize_result world (trace s ++ [B2_authorize]) = Throws e ->
  exists s1, b2Init env world s = (Throws e, s1)
             /\ trace s1 = (trace s ++ [B2_authorize])%list.
Proof.
  intros Hs Hq Ha. pose proof (storage_needs_credentials Hs) as Hc.
  unfold storage_configured in Hs. rewrite Hc in Hs. simpl in Hs.
  unfold credentials_configured in Hc.
  apply andb_true_iff in Hc as [Hk Hk'].
  unfold b2Init, ensureB2Authorized. rewrite Hk, Hk'. simpl.
  destruct (nonempty (b2BucketIdEnv env)), (nonempty (b2BucketNameEnv env));
    simpl in Hs; try discriminate; simpl;
    unfold bind, now, read; simpl; rewrite Hq;
    destruct (b2 s); unfold modify, settle, external, try_finally, await, ret;
    simpl; rewrite Ha; simpl; eauto.
Qed.

Lemma b2Init_discovery_fails (s : State) (auth : AuthResponse) :
  storage_configured env = true -> b2AuthPromise s = None ->
  nonempty (b2BucketIdEnv env) && nonempty (b2BucketNameEnv env) = false ->
  authorize_result world (trace s ++ [B2_authorize]) = Returns auth ->
  (forall t, exists e, listBuckets_result world t = Throws e) ->
  (forall t, exists e, getBucket_result world t = Throws e) ->
  exists s1, b2Init env world s = (Throws (Error bucket_not_found), s1).
Proof.
  intros Hs Hq Hb Ha Hlist Hget.
  pose proof (storage_needs_credentials Hs) as Hc.
  unfold storage_configured in Hs. rewrite Hc in Hs. simpl in Hs.
  unfold credentials_configured in Hc.
  apply andb_true_iff in Hc as [Hk Hk'].
  unfold b2Init, ensureB2Authorized. rewrite Hk, Hk'. simpl.
  destruct (nonempty (b2BucketIdEnv env)), (nonempty (b2BucketNameEnv env));
    simpl in Hs, Hb; try discriminate; simpl;
    unfold bind, now, read; simpl; rewrite Hq;
    destruct (b2 s) eqn:Hb2;
    unfold modify, settle, external, try_finally, await, ret, try_catch,
      b2_call, bind, read, throw;
    simpl; rewrite Ha; simpl;
    destruct (auth_data auth) as [d | ]; simpl; rewrite ?Hb2; simpl;
    repeat match goal with
           | |- context [listBuckets_result world ?t] =>
               let e := fresh "e" in
               let He := fresh "He" in
               destruct (Hlist t) as [e He]; rewrite He; simpl;
               rewrite ?Hb2; simpl
           | |- context [getBucket_result world ?t] =>
               let e := fresh "e" in
               let He := fresh "He" in
               destruct (Hget t) as [e He]; rewrite He; simpl;
               rewrite ?Hb2; simpl
           end;
    eauto.
Qed.

(** C3. [ensureB2Ready] never throws. Its first call resolves the
    configuration and stores it in [b2InitPromise]; from then on every call,
    also after any number of uploads, returns that same configuration and
    does nothing else. Without the key (or without a bucket id and name) the
    result has [enabled = false] and nothing is called or logged. When the
    initialisation throws -- the authorize handshake fails, or neither the
    bucket list nor the bucket lookup yields the bucket -- the error is
    logged with [console.error] and the result has [enabled = false]. *)
Theorem ensureB2Ready_idempotent (s : State) :
  exists cfg,
    fst (ensureB2Ready env world s) = Returns cfg
    /\ b2InitPromise (snd (ensureB2Ready env world s)) = Some cfg
    /\ (forall s', b2InitPromise s' = Some cfg ->
                   ensureB2Ready env world s' = (Returns cfg, s'))
    /\ (forall s' req, b2InitPromise s' = Some cfg ->
                       b2InitPromise (snd (upload_route env world req s'))
                       = Some cfg)
    /\ (b2InitPromise s = None -> storage_configured env = false ->
        enabled cfg = false
        /\ trace (snd (ensureB2Ready env world s)) = trace s)
    /\ (b2InitPromise s = None ->
        forall e s1, b2Init env world s = (Throws e, s1) ->
        enabled cfg = false
        /\ trace (snd (ensureB2Ready env world s))
           = (trace s1 ++ [Console_error "B2 init error:" e])%list)
    /\ (b2InitPromise s = None -> b2AuthPromise s = None ->
        storage_configured env = true ->
        forall e, authorize_result world (trace s ++ [B2_authorize]) = Throws e ->
        enabled cfg = false
        /\ trace (snd (ensureB2Ready env world s))
           = (trace s ++ [B2_authorize; Console_error "B2 init error:" e])%list)
    /\ (b2InitPromise s = None -> b2AuthPromise s = None ->
        storage_configured env = true ->
        nonempty (b2BucketIdEnv env) && nonempty (b2BucketNameEnv env) = false ->
        forall auth,
          authorize_result world (trace s ++ [B2_authorize]) = Returns auth ->
          (forall t, exists e, listBuckets_result world t = Throws e) ->
          (forall t, exists e, getBucket_result world t = Throws e) ->
          enabled cfg = false
          /\ exists s1,
               trace (snd (ensureB2Ready env world s))
               = (trace s1 ++ [Console_error "B2 init error:"
                                 (Error bucket_not_found)])%list).
Proof.
  destruct (ensureB2Ready_returns env world s) as (cfg & Hr & Hp).
  exists cfg. split; [ exact Hr | ]. split; [ exact Hp | ].
  split; [ intros s' E; now apply ensureB2Ready_cached | ].
  split; [ intros s' req E; now apply upload_route_keeps_init | ].
  assert (Hthrow : b2InitPromise s = None ->
            forall e s1, b2Init env world s = (Throws e, s1) ->
            enabled cfg = false
            /\ trace (snd (ensureB2Ready env world s))
               = (trace s1 ++ [Console_error "B2 init error:" e])%list).
  { intros E e s1 Hi. revert Hr.
    unfold ensureB2Ready, bind, read, try_catch. simpl. rewrite E, Hi.
    unfold console_error, modify, ret. simpl.
    intros Hr. inversion Hr; subst. auto. }
  split; [ | split; [ exact Hthrow | split ] ].
  - intros E Hs. destruct (b2Init_unconfigured s Hs) as (cfg' & Hi & He).
    revert Hr. unfold ensureB2Ready, bind, read, try_catch. simpl.
    rewrite E, Hi. simpl. intros Hr. inversion Hr; subst. auto.
  - intros E Hq Hs e Ha.
    destruct (b2Init_authorize_fails s e Hs Hq Ha) as (s1 & Hi & Ht).
    destruct (Hthrow E e s1 Hi) as [He Htr]. split; [ exact He | ].
    rewrite Htr, Ht. now rewrite <- app_assoc.
  - intros E Hq Hs Hb auth Ha Hlist Hget.
    destruct (b2Init_discovery_fails s auth Hs Hq Hb Ha Hlist Hget)
      as (s1 & Hi).
    destruct (Hthrow E _ s1 Hi) as [He Htr]. eauto.
Qed.

End Ready.

(** B2 refuses the key: the store comes up disabled, the error is logged,
    and the second call finds the first result. *)
Lemma ensureB2Ready_idempotent_witness :
  exists cfg,
    fst (ensureB2Ready env_configured world_key_rejected
           (fresh_state (object []))) = Returns cfg
    /\ enabled cfg = false
    /\ trace (snd (ensureB2Ready env_configured world_key_rejected
                     (fresh_state (object []))))
       = [B2_authorize; Console_error "B2 init error:" err401].
Proof.
  destruct (ensureB2Ready_idempotent env_configured world_key_rejected
              (fresh_state (object [])))
    as (cfg & Hr & _ & _ & _ & _ & _ & Hauth & _).
  exists cfg. split; [ exact Hr | ].
  exact (Hauth eq_refl eq_refl eq_refl err401 eq_refl).
Defined.

(* ===================================================================== *)
(** ** [POST /upload] case by case *)
(* ===================================================================== *)

Section UploadCases.

Variable env : Environment.
Variable world : World.

Lemma saveReports_run (s : State) :
  saveReports world s
  = match writeFile_result world (trace s ++ [Fs_writeFile (reports s)]) with
    | Returns _ =>
        (Returns tt, set_trace (trace s ++ [Fs_writeFile (reports s)]) s)
    | Throws e =>
        (Returns tt,
         set_trace ((trace s ++ [Fs_writeFile (reports s)])
                    ++ [Console_error "Failed to persist reports:" e])
           (set_trace (trace s ++ [Fs_writeFile (reports s)]) s))
    end.
Proof.
  unfold saveReports, bind, read, try_catch, external, console_error, modify.
  simpl. destruct (writeFile_result world _) as [[] | e]; reflexivity.
Qed.

(** The route, branch by branch. *)
Lemma upload_route_cases (req : UploadRequest) (s : State) :
  match req_file req with
  | None =>
      upload_route env world req s
      = (Returns (Json 400 (failure msg_no_file)), s)
  | Some file =>
      exists cfg s0,
        ensureB2Ready env world s = (Returns cfg, s0)
        /\ if enabled cfg then
             upload_enabled_case env world req file cfg s0
               (upload_route env world req s)
           else
             upload_route env world req s
             = (Returns (Json 500 (failure msg_store_not_configured)), s0)
  end.
Proof.
  destruct (req_file req) as [file | ] eqn:Hfile.
  - destruct (ensureB2Ready_returns env world s) as (cfg & Hr & _).
    destruct (ensureB2Ready env world s) as [r0 s0] eqn:E0. simpl in Hr.
    subst r0. exists cfg, s0. split; [ reflexivity | ].
    unfold upload_enabled_case, upload_route, console_error. rewrite Hfile.
    unfold try_catch, bind, ret, now_iso, modify, lift. rewrite E0.
    cbv beta iota zeta.
    destruct (enabled cfg); cbv beta iota zeta delta [negb];
      [ | reflexivity ].
    destruct (hash_of req file) as [hash | e]; [ | reflexivity ].
    destruct (targetName_of req file) as [targetName | e]; [ | reflexivity ].
    destruct (uploadFileToB2 env world cfg targetName (buffer file)
                (mimeType_of file) s0) as [[v | e] s1];
      cbv beta iota zeta; [ | reflexivity ].
    change (reports (set_clock_reads (S (clock_reads s1)) s1))
      with (reports s1).
    match goal with
    | |- context [saveReports world ?s2] =>
        pose proof (saveReports_returns world s2) as Hs2;
        destruct (saveReports world s2) as [[u | e] s3]; simpl in Hs2;
        [ reflexivity | discriminate ]
    end.
  - unfold upload_route, try_catch. rewrite Hfile. reflexivity.
Qed.

(** An upload that is not answered with 200 leaves the registry alone. *)
Lemma upload_refused_keeps_registry (req : UploadRequest) (s : State)
    (status : Z) (body : value) :
  fst (upload_route env world req s) = Returns (Json status body) ->
  status <> 200 ->
  reports (snd (upload_route env world req s)) = reports s.
Proof.
  intros Hans Hst. pose proof (upload_route_cases req s) as H.
  destruct (req_file req) as [file | ]; [ | now rewrite H ].
  destruct H as (cfg & s0 & E0 & H).
  pose proof (ensureB2Ready_preserves_reports env world s) as Hr0.
  rewrite E0 in Hr0. simpl in Hr0.
  destruct (enabled cfg); [ | now rewrite H ].
  unfold upload_enabled_case in H.
  destruct (hash_of req file) as [hash | e]; [ | now rewrite H ].
  destruct (targetName_of req file) as [targetName | e]; [ | now rewrite H ].
  pose proof (uploadFileToB2_preserves_reports env world cfg targetName
                (buffer file) (mimeType_of file) s0) as Hr1.
  destruct (uploadFileToB2 env world cfg targetName (buffer file)
              (mimeType_of file) s0) as [[v | e] s1];
    simpl in Hr1; rewrite H in *.
  - simpl in Hans. injection Hans as <- _. contradiction.
  - simpl. congruence.
Qed.

(** What a 200 from [POST /upload] implies. *)
Lemma upload_route_success (req : UploadRequest) (s : State) (body : value) :
  fst (upload_route env world req s) = Returns (Json 200 body) ->
  exists file cfg createdAt hash targetName,
    req_file req = Some file
    /\ fst (ensureB2Ready env world s) = Returns cfg
    /\ enabled cfg = true
    /\ hash_of req file = Returns hash
    /\ targetName_of req file = Returns targetName
    /\ body = upload_ok hash targetName (fileUrl_of cfg targetName)
                (mimeType_of file) (size file)
    /\ reports (snd (upload_route env world req s))
       = set (reports s) hash
           (report_record targetName (fileUrl_of cfg targetName)
              (mimeType_of file) createdAt).
Proof.
  intros Hok. pose proof (upload_route_cases req s) as H.
  destruct (req_file req) as [file | ];
    [ | rewrite H in Hok; discriminate ].
  destruct H as (cfg & s0 & E0 & H).
  pose proof (ensureB2Ready_preserves_reports env world s) as Hr0.
  rewrite E0 in Hr0. simpl in Hr0.
  destruct (enabled cfg) eqn:Hen; [ | rewrite H in Hok; discriminate ].
  unfold upload_enabled_case in H.
  destruct (hash_of req file) as [hash | e] eqn:Hhash;
    [ | rewrite H in Hok; discriminate ].
  destruct (targetName_of req file) as [targetName | e] eqn:Hname;
    [ | rewrite H in Hok; discriminate ].
  pose proof (uploadFileToB2_preserves_reports env world cfg targetName
                (buffer file) (mimeType_of file) s0) as Hr1.
  destruct (uploadFileToB2 env world cfg targetName (buffer file)
              (mimeType_of file) s0) as [[v | e] s1];
    simpl in Hr1; rewrite H in *; [ | discriminate ].
  simpl in Hok. injection Hok as <-.
  exists file, cfg, (Date_toISOString world (clock_reads s1)), hash,
    targetName.
  rewrite E0. repeat split; auto.
  cbn [snd]. rewrite saveReports_preserves_reports.
  cbn [reports set_reports]. now rewrite Hr1, Hr0.
Qed.

(** With a file part, whatever its length, the answer is never 400. *)
Lemma upload_with_file_not_400 (req : UploadRequest) (s : State)
    (body : value) :
  fst (upload_route env world req s) = Returns (Json 400 body) ->
  req_file req = None.
Proof.
  intros Hans. pose proof (upload_route_cases req s) as H.
  destruct (req_file req) as [file | ]; [ exfalso | reflexivity ].
  destruct H as (cfg & s0 & E0 & H).
  destruct (enabled cfg); [ | rewrite H in Hans; discriminate ].
  unfold upload_enabled_case in H.
  destruct (hash_of req file) as [hash | e];
    [ | rewrite H in Hans; discriminate ].
  destruct (targetName_of req file) as [targetName | e];
    [ | rewrite H in Hans; discriminate ].
  destruct (uploadFileToB2 env world cfg targetName (buffer file)
              (mimeType_of file) s0) as [[v | e] s1];
    rewrite H in Hans; discriminate.
Qed.

End UploadCases.

(* ===================================================================== *)
(** ** Theorems: the registry at start-up *)
(* ===================================================================== *)

Section Load.

Variable world : World.
Variable JSON_parse : string -> outcome value.

(** C4. When the store file cannot be read (it is missing or unreadable:
    [readFileSync] throws), when its text is malformed ([JSON.parse]
    throws), and also when it parses to something that is not an object,
    [loadReports] returns the seed map: it is not empty, it holds a record
    under ["123abc"], [/verify] answers for that key, and start-up goes
    through with the seed as registry. *)
Theorem loadReports_falls_back_to_seed (s : State) :
  (exists e, readFile_result world (trace s ++ [Fs_readFile]) = Throws e)
  \/ (exists raw,
         readFile_result world (trace s ++ [Fs_readFile]) = Returns raw
         /\ ((exists e, JSON_parse raw = Throws e)
             \/ (exists v, JSON_parse raw = Returns v
                           /\ truthy v && (typeof v =? "object")%string
                              = false))) ->
  let seed := seed_reports (Date_toISOString world (clock_reads s)) in
  fst (loadReports world JSON_parse s) = Returns seed
  /\ Object_entries seed <> []
  /\ (exists record, Object_entries seed = [("123abc", record)]
                     /\ get seed "123abc" = record)
  /\ verify_route seed (Some "123abc")
     = Returns (Html (Authentic "123abc" (VString "report1.pdf") VUndefined))
  /\ fst (startup world JSON_parse s) = Returns tt
  /\ reports (snd (startup world JSON_parse s)) = seed.
Proof.
  intros H seed.
  assert (Hload : loadReports world JSON_parse s
                  = (Returns seed,
                     set_clock_reads (S (clock_reads s))
                       (set_trace (trace s ++ [Fs_readFile]) s))).
  { unfold loadReports, bind, try_catch, external, lift, now_iso, ret.
    simpl.
    destruct H as [[e He] | (raw & Hraw & [[e He] | (v & Hv & Hobj)])].
    - rewrite He. reflexivity.
    - rewrite Hraw, He. reflexivity.
    - rewrite Hraw, Hv, Hobj. reflexivity. }
  repeat split.
  - now rewrite Hload.
  - discriminate.
  - eexists. split; reflexivity.
  - unfold startup, bind. rewrite Hload. unfold modify. simpl.
    apply saveReports_returns.
  - unfold startup, bind. rewrite Hload. unfold modify. simpl.
    match goal with
    | |- context [saveReports world ?s1] =>
        pose proof (saveReports_preserves_reports world s1) as Hp;
        pose proof (saveReports_returns world s1) as Hr;
        destruct (saveReports world s1) as [[u | e] s2]; simpl in *;
        [ exact Hp | discriminate ]
    end.
Qed.

End Load.

Lemma loadReports_falls_back_to_seed_witness :
  (exists e, readFile_result world_no_store_file
               (trace (fresh_state VUndefined) ++ [Fs_readFile]) = Throws e)
  /\ fst (loadReports world_no_store_file JSON_parse_rejecting
            (fresh_state VUndefined))
     = Returns (seed_reports "2023-11-14T22:13:20.000Z").
Proof.
  assert (H : exists e, readFile_result world_no_store_file
                (trace (fresh_state VUndefined) ++ [Fs_readFile]) = Throws e)
    by (exists ENOENT; reflexivity).
  split; [ exact H | ].
  exact (proj1 (loadReports_falls_back_to_seed world_no_store_file
                  JSON_parse_rejecting (fresh_state VUndefined)
                  (or_introl H))).
Defined.

(* ===================================================================== *)
(** ** Theorems: requests without a file, and empty form fields *)
(* ===================================================================== *)

(** C6 (amended). A request that carries no file part is answered 400
    before anything else happens: the state is what it was, so B2 was not
    contacted and the registry was neither changed nor written. No other
    request is answered 400. *)
Theorem upload_without_file_rejected (env : Environment) (world : World)
    (req : UploadRequest) (s : State) :
  req_file req = None ->
  rejected_as_no_file env world req s
  /\ trace (snd (upload_route env world req s)) = trace s
  /\ reports (snd (upload_route env world req s)) = reports s
  /\ (forall req' s',
         rejected_as_no_file env world req' s' -> req_file req' = None).
Proof.
  intros H. unfold rejected_as_no_file, upload_route, try_catch.
  rewrite H. simpl. repeat split.
  intros req' s' Hr.
  apply (upload_with_file_not_400 env world req' s' (failure msg_no_file)).
  fold (upload_route env world req' s'). unfold upload_route in Hr |- *.
  unfold try_catch in *. now rewrite Hr.
Qed.

Lemma upload_without_file_rejected_witness :
  req_file no_file_upload = None
  /\ rejected_as_no_file env_configured world_ok no_file_upload
       (fresh_state (object [])).
Proof.
  split; [ reflexivity | ].
  exact (proj1 (upload_without_file_rejected env_configured world_ok
                  no_file_upload (fresh_state (object [])) eq_refl)).
Defined.

(** C6, as stated, fails: a file part with an empty buffer is not turned
    away; it is uploaded to B2 and recorded in the registry, and the answer
    is 200. *)
Lemma empty_file_is_uploaded :
  buffer_absent_or_empty empty_upload
  /\ ~ rejected_as_no_file env_configured world_ok empty_upload
         (fresh_state (object []))
  /\ fst (upload_route env_configured world_ok empty_upload
            (fresh_state (object [])))
     = Returns
         (Json 200
            (upload_ok
               "e3b0c44298fc1c149afbf4c8996fb92427ae41e4649b934ca495991b7852b855"
               "empty.txt"
               "https://f000.backblazeb2.com/file/reports/empty.txt"
               "text/plain" 0))
  /\ In (B2_uploadFile "https://pod/upload" "tok" "empty.txt" [] "text/plain")
       (trace (snd (upload_route env_configured world_ok empty_upload
                      (fresh_state (object [])))))
  /\ truthy
       (get (reports (snd (upload_route env_configured world_ok empty_upload
                             (fresh_state (object [])))))
          "e3b0c44298fc1c149afbf4c8996fb92427ae41e4649b934ca495991b7852b855")
     = true.
Proof.
  split; [ reflexivity | ].
  split; [ unfold rejected_as_no_file; vm_compute; discriminate | ].
  split; [ vm_compute; reflexivity | ].
  split; [ vm_compute; tauto | vm_compute; reflexivity ].
Qed.

(* ===================================================================== *)
(** ** Theorems: [GET /file] *)
(* ===================================================================== *)

Lemma nonempty_true (h : string) : h <> "" -> nonempty h = true.
Proof.
  intros H. unfold nonempty. now apply String.eqb_neq in H as ->.
Qed.

Lemma member_truthy_object (record u : value) (f : field) :
  member record f = Returns u -> truthy u = true -> truthy record = true.
Proof.
  destruct record; simpl; intros H Hu; try discriminate; auto;
    inversion H; subst; discriminate.
Qed.

#[local] Arguments mem_string : simpl never.

(** C9. [GET /file] on a registry object:
    - without the [hash] parameter (absent, or present and empty) the
      answer is 400;
    - with a hash under which the registry holds nothing the answer is 404
      (the registry inherits from [Object.prototype], or from a record that
      an upload stored as its prototype);
    - with a hash whose record is falsy or has no (or a falsy) [fileUrl]
      the answer is 404; the seed record ["123abc"] is such a record;
    - otherwise the answer is a 302 redirect to the stored [fileUrl]. *)
Theorem file_route_responses (p : value) (props : list (string * value))
    (h : string) :
  let registry := VObject p props in
  file_route registry None = Returns (Send 400 msg_no_hash)
  /\ file_route registry (Some "") = Returns (Send 400 msg_no_hash)
  /\ (h <> "" -> lookup h props = None ->
      p = VObjectPrototype
      \/ (h <> "__proto__" /\ exists a b c d, p = report_record a b c d) ->
      file_route registry (Some h) = Returns (Send 404 msg_file_not_found))
  /\ (h <> "" -> forall record,
      lookup h props = Some record ->
      truthy record = false
      \/ (exists u, member record f_fileUrl = Returns u /\ truthy u = false) ->
      file_route registry (Some h) = Returns (Send 404 msg_file_not_found))
  /\ (h <> "" -> forall record u,
      lookup h props = Some record ->
      member record f_fileUrl = Returns u -> truthy u = true ->
      file_route registry (Some h) = Returns (Redirect 302 u))
  /\ (forall createdAt,
         file_route (seed_reports createdAt) (Some "123abc")
         = Returns (Send 404 msg_file_not_found)).
Proof.
  intros registry. subst registry.
  split; [ reflexivity | ]. split; [ reflexivity | ].
  split; [ | split; [ | split; [ | reflexivity ] ] ].
  - intros Hh Hl Hp. unfold file_route, get. rewrite (nonempty_true h Hh).
    cbn -[String.eqb mem_string]. rewrite Hl.
    destruct Hp as [-> | (Hproto & a & b & c & d & ->)].
    + cbn -[String.eqb mem_string].
      destruct (h =? "__proto__")%string; [ reflexivity | ].
      destruct (mem_string h Object_prototype_members); reflexivity.
    + apply String.eqb_neq in Hproto.
      unfold report_record, object. cbn -[String.eqb mem_string].
      rewrite Hproto.
      repeat match goal with
             | |- context [(?k =? h)%string] =>
                 destruct (k =? h)%string; cbn -[String.eqb mem_string]
             end;
        repeat match goal with
               | |- context [(?x =? "")%string] =>
                   destruct (x =? "")%string; cbn -[String.eqb mem_string]
               end; try reflexivity;
        destruct (mem_string h Object_prototype_members); reflexivity.
  - intros Hh record Hl Hr. unfold file_route, get.
    rewrite (nonempty_true h Hh). simpl. rewrite Hl.
    destruct Hr as [Hf | (u & Hu & Hf)].
    + rewrite Hf. reflexivity.
    + destruct (truthy record); simpl; [ | reflexivity ].
      rewrite Hu. simpl. rewrite Hf. reflexivity.
  - intros Hh record u Hl Hu Ht. unfold file_route, get.
    rewrite (nonempty_true h Hh). simpl. rewrite Hl.
    rewrite (member_truthy_object record u f_fileUrl Hu Ht). simpl.
    rewrite Hu. simpl. rewrite Ht. reflexivity.
Qed.

(* ===================================================================== *)
(** ** Theorems: a successful upload *)
(* ===================================================================== *)

Lemma or_string_empty (a : string) : or_string a "" = a.
Proof.
  unfold or_string, nonempty. destruct (String.eqb_spec a ""); subst; auto.
Qed.

Lemma hex_lower_not_underscore (k : nat) :
  (k < 16)%nat -> hex_lower k <> "_"%char.
Proof.
  intros H. do 16 (destruct k as [| k]; [ discriminate | ]). lia.
Qed.

Lemma hex_upper_not_slash (k : nat) :
  (k < 16)%nat -> hex_upper k <> slash.
Proof.
  intros H. do 16 (destruct k as [| k]; [ discriminate | ]). lia.
Qed.

(** A hex digest is never the one key that assignment treats specially. *)
Lemma hex_of_bytes_not_proto (bytes : list Byte.byte) :
  (hex_of_bytes bytes =? "__proto__")%string = false.
Proof.
  apply String.eqb_neq. destruct bytes as [| b rest]; cbn [hex_of_bytes].
  - discriminate.
  - intros H. injection H as Hc _.
    assert (Hlt : (Byte.to_nat b / 16 < 16)%nat).
    { pose proof (Byte.to_nat_bounded b).
      apply Nat.Div0.div_lt_upper_bound. lia. }
    exact (hex_lower_not_underscore _ Hlt Hc).
Qed.

Lemma lookup_replace_own (k : string) (v : value)
    (props : list (string * value)) :
  has_own k props = true -> lookup k (replace_own k v props) = Some v.
Proof.
  unfold has_own. induction props as [| [k' x] rest IH]; simpl.
  - discriminate.
  - destruct (k' =? k)%string eqn:E; simpl; rewrite E; auto.
Qed.

Lemma lookup_replace_own_other (k k' : string) (v : value)
    (props : list (string * value)) :
  k' <> k -> lookup k' (replace_own k v props) = lookup k' props.
Proof.
  intros Hne. induction props as [| [k0 x] rest IH]; simpl; auto.
  destruct (k0 =? k)%string eqn:E; simpl.
  - apply String.eqb_eq in E. subst k0.
    apply String.eqb_neq in Hne. rewrite String.eqb_sym in Hne.
    now rewrite Hne.
  - destruct (k0 =? k')%string; auto.
Qed.

Lemma lookup_snoc (k : string) (v : value) (props : list (string * value)) :
  has_own k props = false -> lookup k (props ++ [(k, v)]) = Some v.
Proof.
  unfold has_own. induction props as [| [k' x] rest IH]; simpl.
  - now rewrite String.eqb_refl.
  - destruct (k' =? k)%string; auto. discriminate.
Qed.

Lemma lookup_snoc_other (k k' : string) (v : value)
    (props : list (string * value)) :
  k' <> k -> lookup k' (props ++ [(k, v)]) = lookup k' props.
Proof.
  intros Hne. induction props as [| [k0 x] rest IH]; simpl.
  - apply String.eqb_neq in Hne. rewrite String.eqb_sym in Hne.
    now rewrite Hne.
  - destruct (k0 =? k')%string; auto.
Qed.

(** Assignment under an ordinary key makes or overwrites an own property
    and touches no other. *)
Lemma set_ordinary_key (p : value) (props : list (string * value))
    (k : string) (v : value) :
  (k =? "__proto__")%string = false ->
  exists props',
    set (VObject p props) k v = VObject p props'
    /\ lookup k props' = Some v
    /\ forall k', k' <> k -> lookup k' props' = lookup k' props.
Proof.
  intros Hk. unfold set. rewrite Hk. simpl.
  destruct (has_own k props) eqn:E.
  - eexists. split; [ reflexivity | ]. split.
    + now apply lookup_replace_own.
    + intros k' Hne. now apply lookup_replace_own_other.
  - eexists. split; [ reflexivity | ]. split.
    + now apply lookup_snoc.
    + intros k' Hne. now apply lookup_snoc_other.
Qed.

Section Upload.

Variable env : Environment.
Variable world : World.

(** C7. After a successful upload that supplies no fingerprint (the [hash]
    field is absent or empty), the answer names the SHA-256 of the uploaded
    bytes, in hex, as [hash], and the registry holds the new record as an
    own property under that same key; no other key has changed. *)
Theorem upload_key_is_sha256 (req : UploadRequest) (s : State) (body : value)
    (p : value) (props : list (string * value)) :
  fst (upload_route env world req s) = Returns (Json 200 body) ->
  providedHash req = Returns None ->
  reports s = VObject p props ->
  exists file record props' targetName,
    req_file req = Some file
    /\ get body "hash" = VString (hex_of_bytes (sha256 (buffer file)))
    /\ reports (snd (upload_route env world req s)) = VObject p props'
    /\ lookup (hex_of_bytes (sha256 (buffer file))) props' = Some record
    /\ targetName_of req file = Returns targetName
    /\ get record "fileName" = VString targetName
    /\ get record "status" = VString status_original
    /\ get record "fileUrl" = get body "fileUrl"
    /\ (forall k, k <> hex_of_bytes (sha256 (buffer file)) ->
                  lookup k props' = lookup k props).
Proof.
  intros Hok Hnone Hobj.
  destruct (upload_route_success env world req s body Hok)
    as (file & cfg & createdAt & hash & targetName & Hfile & _ & _ & Hhash
        & Hname & Hbody & Hrep).
  unfold hash_of in Hhash. rewrite Hnone in Hhash. cbn [obind] in Hhash.
  injection Hhash as <-. unfold computedHash in *.
  rewrite Hobj in Hrep.
  destruct (set_ordinary_key p props (hex_of_bytes (sha256 (buffer file)))
              (report_record targetName (fileUrl_of cfg targetName)
                 (mimeType_of file) createdAt)
              (hex_of_bytes_not_proto _))
    as (props' & Hset & Hnew & Hold).
  rewrite Hset in Hrep.
  exists file, (report_record targetName (fileUrl_of cfg targetName)
                  (mimeType_of file) createdAt), props', targetName.
  subst body. repeat split; auto.
Qed.

End Upload.

Lemma upload_key_is_sha256_witness :
  fst (upload_route env_configured world_ok plain_upload
         (fresh_state (object [])))
  = Returns
      (Json 200
         (upload_ok
            "ca7554f0db6ddfa48b2149feffc0dcbf5ed01b110297d7cd8d919185fa842098"
            "report.pdf"
            "https://f000.backblazeb2.com/file/reports/report.pdf"
            "application/pdf" 9))
  /\ exists file record props',
       req_file plain_upload = Some file
       /\ reports (snd (upload_route env_configured world_ok plain_upload
                          (fresh_state (object []))))
          = VObject VObjectPrototype props'
       /\ lookup (hex_of_bytes (sha256 (buffer file))) props' = Some record.
Proof.
  assert (H : fst (upload_route env_configured world_ok plain_upload
                     (fresh_state (object [])))
              = Returns
                  (Json 200
                     (upload_ok
                        "ca7554f0db6ddfa48b2149feffc0dcbf5ed01b110297d7cd8d919185fa842098"
                        "report.pdf"
                        "https://f000.backblazeb2.com/file/reports/report.pdf"
                        "application/pdf" 9)))
    by (vm_compute; reflexivity).
  split; [ exact H | ].
  destruct (upload_key_is_sha256 env_configured world_ok plain_upload
              (fresh_state (object [])) _ VObjectPrototype [] H
              eq_refl eq_refl)
    as (file & record & props' & name & Hf & _ & Hr & Hl & _).
  exists file, record, props'. auto.
Defined.

(* ===================================================================== *)
(** ** Theorems: the public URL *)
(* ===================================================================== *)

Lemma nat_of_ascii_bounded (c : ascii) : (nat_of_ascii c < 256)%nat.
Proof.
  destruct c as [[] [] [] [] [] [] [] []]; vm_compute; lia.
Qed.

Lemma unreserved_not_slash (c : ascii) :
  is_unreserved c = true -> Ascii.eqb c slash = false.
Proof.
  intros H. destruct (Ascii.eqb_spec c slash) as [-> | ]; [ | reflexivity ].
  vm_compute in H. discriminate.
Qed.

Lemma encodeURIComponent_no_slash (s : string) :
  no_slash (encodeURIComponent s) = true.
Proof.
  induction s as [| c rest IH]; cbn [encodeURIComponent]; [ reflexivity | ].
  destruct (is_unreserved c) eqn:U; cbn [no_slash].
  - now rewrite (unreserved_not_slash c U), IH.
  - pose proof (nat_of_ascii_bounded c) as Hb.
    assert (H1 : Ascii.eqb (hex_upper (nat_of_ascii c / 16)) slash = false).
    { apply Ascii.eqb_neq, hex_upper_not_slash.
      apply Nat.Div0.div_lt_upper_bound. lia. }
    assert (H2 : Ascii.eqb (hex_upper (nat_of_ascii c mod 16)) slash = false).
    { apply Ascii.eqb_neq, hex_upper_not_slash.
      apply Nat.mod_upper_bound. lia. }
    rewrite H1, H2, IH. reflexivity.
Qed.

Lemma split_slash_not_nil (s : string) : split_slash s <> [].
Proof.
  induction s as [| c rest IH]; simpl; try discriminate.
  destruct (Ascii.eqb c slash); try discriminate.
  destruct (split_slash rest); discriminate.
Qed.

Lemma split_slash_no_slash (s : string) :
  no_slash s = true -> split_slash s = [s].
Proof.
  induction s as [| c rest IH]; simpl; auto.
  intros H. apply andb_true_iff in H as [Hc Hr].
  apply negb_true_iff in Hc. rewrite Hc, (IH Hr). reflexivity.
Qed.

Lemma split_slash_app (x rest : string) :
  no_slash x = true ->
  split_slash (x ++ String slash rest) = x :: split_slash rest.
Proof.
  induction x as [| c x IH]; simpl.
  - intros _. reflexivity.
  - intros H. apply andb_true_iff in H as [Hc Hx].
    apply negb_true_iff in Hc. rewrite Hc, (IH Hx). reflexivity.
Qed.

Lemma split_join_slash (segments : list string) :
  segments <> [] ->
  Forall (fun seg => no_slash seg = true) segments ->
  split_slash (join_slash segments) = segments.
Proof.
  unfold join_slash.
  induction segments as [| x rest IH]; [ congruence | ].
  intros _ Hall. inversion Hall as [| ? ? Hx Hrest]; subst.
  destruct rest as [| y rest'].
  - simpl. now apply split_slash_no_slash.
  - change (String.concat "/" (x :: y :: rest'))
      with (x ++ String slash (String.concat "/" (y :: rest'))).
    rewrite split_slash_app by assumption.
    rewrite IH; auto. discriminate.
Qed.

(** Splitting the encoded path gives back the encoded segments: every [/]
    of the storage name is kept and no other is introduced. *)
Lemma split_safePath (targetName : string) :
  split_slash (safePath targetName)
  = map encodeURIComponent (split_slash targetName).
Proof.
  unfold safePath. apply split_join_slash.
  - pose proof (split_slash_not_nil targetName).
    destruct (split_slash targetName); simpl; congruence.
  - apply Forall_map, Forall_forall. intros seg _.
    apply encodeURIComponent_no_slash.
Qed.

Section PublicUrl.

Variable env : Environment.
Variable world : World.

(** C8. After a successful upload the [fileUrl] of the answer, which is also
    the [fileUrl] of the stored record, is the public base URL of the
    resolved configuration (without its trailing slash, if it has one),
    then [/file/], the bucket name passed through [encodeURIComponent]
    (the text [undefined] when the configuration holds no name), a [/], and
    the storage name with each of its [/]-separated segments passed through
    [encodeURIComponent] and joined again with [/]. The encoded path splits
    into exactly the encoded segments; ["a/b c.pdf"] gives
    ["a/b%20c.pdf"]. *)
Theorem upload_public_url (req : UploadRequest) (s : State) (body : value) :
  fst (upload_route env world req s) = Returns (Json 200 body) ->
  exists file cfg record hash targetName,
    req_file req = Some file
    /\ fst (ensureB2Ready env world s) = Returns cfg
    /\ hash_of req file = Returns hash
    /\ targetName_of req file = Returns targetName
    /\ get body "fileUrl"
       = VString (strip_trailing_slash (publicBaseUrl cfg) ++ "/file/"
                  ++ encodeURIComponent
                       (string_or_undefined (bucketName cfg))
                  ++ "/"
                  ++ join_slash (map encodeURIComponent
                                   (split_slash targetName)))
    /\ reports (snd (upload_route env world req s))
       = set (reports s) hash record
    /\ get record "fileUrl" = get body "fileUrl"
    /\ split_slash (join_slash (map encodeURIComponent
                                  (split_slash targetName)))
       = map encodeURIComponent (split_slash targetName)
    /\ safePath "a/b c.pdf" = "a/b%20c.pdf".
Proof.
  intros Hok.
  destruct (upload_route_success env world req s body Hok)
    as (file & cfg & createdAt & hash & targetName & Hfile & Hcfg & _
        & Hhash & Hname & Hbody & Hrep).
  exists file, cfg, (report_record targetName (fileUrl_of cfg targetName)
                       (mimeType_of file) createdAt), hash, targetName.
  subst body. repeat split; auto.
  - unfold fileUrl_of. rewrite or_string_empty. reflexivity.
  - apply split_safePath.
Qed.

End PublicUrl.

Lemma upload_public_url_witness :
  fst (upload_route env_configured world_ok nested_upload
         (fresh_state (object [])))
  = Returns
      (Json 200
         (upload_ok
            "ca7554f0db6ddfa48b2149feffc0dcbf5ed01b110297d7cd8d919185fa842098"
            "a/b c.pdf"
            "https://f000.backblazeb2.com/file/reports/a/b%20c.pdf"
            "application/pdf" 9))
  /\ exists file cfg,
       req_file nested_upload = Some file
       /\ fst (ensureB2Ready env_configured world_ok (fresh_state (object [])))
          = Returns cfg.
Proof.
  assert (H : fst (upload_route env_configured world_ok nested_upload
                     (fresh_state (object [])))
              = Returns
                  (Json 200
                     (upload_ok
                        "ca7554f0db6ddfa48b2149feffc0dcbf5ed01b110297d7cd8d919185fa842098"
                        "a/b c.pdf"
                        "https://f000.backblazeb2.com/file/reports/a/b%20c.pdf"
                        "application/pdf" 9)))
    by (vm_compute; reflexivity).
  split; [ exact H | ].
  destruct (upload_public_url env_configured world_ok nested_upload
              (fresh_state (object [])) _ H)
    as (file & cfg & record & hash & name & Hf & Hc & _).
  exists file, cfg. auto.
Defined.

(* ===================================================================== *)
(** ** Theorems: [GET /api/reports] *)
(* ===================================================================== *)

Lemma insert_index_permutation (n : N) (entry : string * value)
    (sorted : list (N * (string * value))) :
  Permutation (entry :: map snd sorted) (map snd (insert_index n entry sorted)).
Proof.
  induction sorted as [| [m e] rest IH]; simpl; auto.
  destruct (n <? m)%N; simpl; auto.
  eapply perm_trans; [ apply perm_swap | ]. now apply perm_skip.
Qed.

(** [Object.entries] lists every own property once. *)
Lemma Object_entries_permutation (p : value) (props : list (string * value)) :
  Permutation props (Object_entries (VObject p props)).
Proof.
  unfold Object_entries, named_entries.
  induction props as [| [k v] rest IH]; simpl; auto.
  destruct (array_index k) as [n | ]; simpl.
  - eapply perm_trans; [ apply perm_skip, IH | ].
    change ((k, v) :: map snd (index_entries rest) ++ filter _ rest)%list
      with (((k, v) :: map snd (index_entries rest)) ++ filter
              (fun kv => match array_index (fst kv) with
                         | Some _ => false
                         | None => true
                         end) rest)%list.
    apply Permutation_app_tail, insert_index_permutation.
  - eapply perm_trans; [ apply perm_skip, IH | ].
    apply Permutation_middle.
Qed.

Lemma member_returns_all (data c : value) (f g : field) :
  member data f = Returns c -> exists x, member data g = Returns x.
Proof.
  destruct data; simpl; intros H; try discriminate; eauto.
Qed.

Section Listing.

Variable Date_parse : string -> number.

Lemma truthy_or_null (c : value) : truthy (or_value c VNull) = truthy c.
Proof. unfold or_value. destruct (truthy c) eqn:E; auto. Qed.

(** What [report_item] makes of a well-dated record. *)
Lemma report_item_well_dated (k : string) (data : value) :
  well_dated Date_parse data ->
  exists item t,
    report_item (k, data) = Returns item
    /\ get item "hash" = VString k
    /\ has_time Date_parse item t
    /\ (forall c, member data f_createdAt = Returns c -> truthy c = false ->
                  t = 0)
    /\ listed Date_parse (k, data) item.
Proof.
  intros (c & Hc & Ht). unfold report_item.
  destruct (member_returns_all data c f_createdAt f_fileName Hc) as [x1 H1].
  destruct (member_returns_all data c f_createdAt f_status Hc) as [x2 H2].
  destruct (member_returns_all data c f_createdAt f_fileUrl Hc) as [x3 H3].
  destruct (member_returns_all data c f_createdAt f_mimeType Hc) as [x4 H4].
  rewrite H1, H2, H3, H4, Hc. cbn [obind].
  assert (Hm : forall t,
             (if truthy c then Date_getTime Date_parse c else Returns (Int 0))
             = Returns (Int t) ->
             has_time Date_parse
               (object [("hash", VString k);
                        ("fileName", or_value x1 (VString ""));
                        ("status", or_value x2 (VString ""));
                        ("fileUrl", or_value x3 (VString ""));
                        ("mimeType", or_value x4 (VString ""));
                        ("createdAt", or_value c VNull)]) t).
  { intros t E. unfold has_time, time_of.
    change (member (object _) f_createdAt)
      with (Returns (A := value) (or_value c VNull)).
    cbn [obind]. rewrite truthy_or_null.
    destruct (truthy c) eqn:T; [ | exact E ].
    unfold or_value. rewrite T. exact E. }
  assert (Htime : time_of Date_parse data
                  = if truthy c then Date_getTime Date_parse c
                    else Returns (Int 0)).
  { unfold time_of. now rewrite Hc. }
  assert (Hex : exists t,
             (if truthy c then Date_getTime Date_parse c else Returns (Int 0))
             = Returns (Int t)
             /\ (truthy c = false -> t = 0)).
  { destruct Ht as [Hf | [t Hv]].
    - exists 0. rewrite Hf. auto.
    - destruct (truthy c);
        [ exists t; split; [ exact Hv | discriminate ] | exists 0; auto ]. }
  destruct Hex as (t & Et & Hz).
  eexists. exists t. split; [ reflexivity | ]. split; [ reflexivity | ].
  split; [ apply Hm; exact Et | ]. split.
  - intros c' Hc' Hf. injection Hc' as <-. auto.
  - unfold listed. cbn [fst snd]. split; [ reflexivity | ]. split.
    + intros f [<- | [<- | [<- | [<- | []]]]]; eexists;
        (split; [ eassumption | reflexivity ]).
    + split.
      * exists c. split; [ exact Hc | reflexivity ].
      * exists t. split; [ rewrite Htime; exact Et | apply Hm; exact Et ].
Qed.

Lemma Array_map_report_items (entries : list (string * value)) :
  Forall (fun kv => well_dated Date_parse (snd kv)) entries ->
  exists items,
    Array_map report_item entries = Returns items
    /\ Forall2 (listed Date_parse) entries items
    /\ Forall (fun item => exists t, has_time Date_parse item t) items.
Proof.
  induction entries as [| [k data] rest IH]; intros H.
  - exists []. repeat split; constructor.
  - inversion H as [| ? ? Hd Hrest]; subst. simpl in Hd.
    destruct (report_item_well_dated k data Hd)
      as (item & t & Hi & Hh & Ht & _ & Hl).
    destruct (IH Hrest) as (items & Hm & Hf2 & Hv).
    exists (item :: items). cbn [Array_map]. rewrite Hi. cbn [obind].
    rewrite Hm. cbn [obind]. repeat split; constructor; eauto.
Qed.

Lemma has_time_unique (a : value) (t t' : Z) :
  has_time Date_parse a t -> has_time Date_parse a t' -> t = t'.
Proof. unfold has_time. congruence. Qed.

Lemma compare_timed (a b : value) (ta tb : Z) :
  has_time Date_parse a ta -> has_time Date_parse b tb ->
  by_createdAt_desc Date_parse a b = Returns (Int (tb - ta)).
Proof.
  unfold has_time, by_createdAt_desc. intros -> ->. reflexivity.
Qed.

Lemma sort_insert_sorted (x : value) (sorted : list value) :
  (exists t, has_time Date_parse x t) ->
  Forall (fun a => exists t, has_time Date_parse a t) sorted ->
  StronglySorted (newer_or_same Date_parse) sorted ->
  exists r,
    sort_insert (by_createdAt_desc Date_parse) x sorted = Returns r
    /\ Permutation (x :: sorted) r
    /\ StronglySorted (newer_or_same Date_parse) r.
Proof.
  intros [tx Hx]. induction sorted as [| y rest IH]; intros Hall Hs.
  - exists [x]. repeat split; auto. repeat constructor.
  - inversion Hall as [| ? ? [ty Hy] Hrest]; subst.
    inversion Hs as [| ? ? Hs' Hy_first]; subst.
    cbn [sort_insert]. rewrite (compare_timed x y tx ty Hx Hy). cbn [obind].
    unfold comes_first. destruct (ty - tx <=? 0) eqn:C.
    + apply Z.leb_le in C.
      exists (x :: y :: rest). repeat split; auto.
      constructor; auto. constructor.
      * exists tx, ty. repeat split; auto. lia.
      * eapply Forall_impl; [ | exact Hy_first ].
        intros z (ty' & tz & Hy' & Hz & Hle).
        rewrite (has_time_unique y ty' ty Hy' Hy) in Hle.
        exists tx, tz. repeat split; auto. lia.
    + apply Z.leb_gt in C.
      destruct (IH Hrest Hs') as (r & Hr & Hp & Hsr).
      exists (y :: r). rewrite Hr. cbn [obind]. repeat split.
      * eapply perm_trans; [ apply perm_swap | ]. now apply perm_skip.
      * constructor; auto.
        eapply Permutation_Forall; [ exact Hp | ].
        constructor; auto.
        exists ty, tx. repeat split; auto. lia.
Qed.

Lemma Array_sort_sorted (l : list value) :
  Forall (fun a => exists t, has_time Date_parse a t) l ->
  exists r,
    Array_sort (by_createdAt_desc Date_parse) l = Returns r
    /\ Permutation l r
    /\ StronglySorted (newer_or_same Date_parse) r.
Proof.
  induction l as [| x rest IH]; intros Hall.
  - exists []. repeat split; auto. constructor.
  - inversion Hall as [| ? ? Hx Hrest]; subst.
    destruct (IH Hrest) as (r0 & Hr0 & Hp0 & Hs0).
    assert (Hall0 : Forall (fun a => exists t, has_time Date_parse a t) r0)
      by (eapply Permutation_Forall; eauto).
    destruct (sort_insert_sorted x r0 Hx Hall0 Hs0) as (r & Hr & Hp & Hs).
    exists r. cbn [Array_sort]. rewrite Hr0. cbn [obind].
    repeat split; auto.
    eapply perm_trans; [ apply perm_skip, Hp0 | exact Hp ].
Qed.

(** C5 (amended). For a registry in which no record is [null] and every
    record's [createdAt] is missing (falsy) or gives a valid time,
    [/api/reports] answers 200 with one element per own property of the
    registry. Each element carries its key as [hash] and the record's
    [fileName], [status], [fileUrl], [mimeType] and [createdAt] (with [""],
    or [null] for [createdAt], where the record's is falsy), and the list
    is ordered by the time of the records' [createdAt], descending, where a
    record without [createdAt] counts as time 0 (1970-01-01). *)
Theorem reports_list_sorted (p : value) (props : list (string * value)) :
  (forall k data, In (k, data) props -> well_dated Date_parse data) ->
  exists items list,
    Permutation props (Object_entries (VObject p props))
    /\ Array_map report_item (Object_entries (VObject p props)) = Returns items
    /\ Forall2 (listed Date_parse) (Object_entries (VObject p props)) items
    /\ reports_list Date_parse (VObject p props) = Returns list
    /\ api_reports_route Date_parse (VObject p props) = JsonReports 200 list
    /\ Permutation items list
    /\ StronglySorted (newer_or_same Date_parse) list
    /\ (forall item c, In item list ->
                       member item f_createdAt = Returns c ->
                       truthy c = false -> has_time Date_parse item 0).
Proof.
  intros Hwell.
  pose proof (Object_entries_permutation p props) as Hperm.
  assert (Hall : Forall (fun kv => well_dated Date_parse (snd kv))
                   (Object_entries (VObject p props))).
  { eapply Permutation_Forall; [ exact Hperm | ].
    apply Forall_forall. intros [k data] Hin. simpl. eauto. }
  destruct (Array_map_report_items _ Hall) as (items & Hmap & Hhash & Hvalid).
  destruct (Array_sort_sorted items Hvalid) as (list & Hsort & Hp & Hs).
  exists items, list.
  assert (Hlist : reports_list Date_parse (VObject p props) = Returns list).
  { unfold reports_list. rewrite Hmap. cbn [obind]. exact Hsort. }
  split; [ exact Hperm | ]. split; [ exact Hmap | ].
  split; [ exact Hhash | ]. split; [ exact Hlist | ].
  split; [ unfold api_reports_route; now rewrite Hlist | ].
  split; [ exact Hp | ]. split; [ exact Hs | ].
  intros item c _ Hc Hf. unfold has_time, time_of.
  rewrite Hc. cbn [obind]. now rewrite Hf.
Qed.

End Listing.

Lemma reports_list_sorted_witness :
  (forall k data,
      In (k, data)
        [("first", object [("fileName", VString "a.pdf");
                           ("createdAt", VString "2023-01-01T00:00:00.000Z")]);
         ("none", object [("fileName", VString "b.pdf")]);
         ("second", object [("fileName", VString "c.pdf");
                            ("createdAt", VString "2024-01-01T00:00:00.000Z")])] ->
      well_dated Date_parse_standard data)
  /\ exists list,
       reports_list Date_parse_standard registry_dated = Returns list
       /\ StronglySorted (newer_or_same Date_parse_standard) list
       /\ map (fun item => get item "hash") list
          = [VString "second"; VString "first"; VString "none"]
       /\ map (fun item => get item "createdAt") list
          = [VString "2024-01-01T00:00:00.000Z";
             VString "2023-01-01T00:00:00.000Z"; VNull].
Proof.
  assert (H : forall k data,
             In (k, data)
               [("first", object [("fileName", VString "a.pdf");
                                  ("createdAt",
                                   VString "2023-01-01T00:00:00.000Z")]);
                ("none", object [("fileName", VString "b.pdf")]);
                ("second", object [("fileName", VString "c.pdf");
                                   ("createdAt",
                                    VString "2024-01-01T00:00:00.000Z")])] ->
             well_dated Date_parse_standard data).
  { intros k data [E | [E | [E | []]]]; inversion E; subst; clear E;
      unfold well_dated; eexists; (split; [ reflexivity | ]).
    - right. eexists. vm_compute. reflexivity.
    - left. reflexivity.
    - right. eexists. vm_compute. reflexivity. }
  split; [ exact H | ].
  destruct (reports_list_sorted Date_parse_standard VObjectPrototype _ H)
    as (items & list & _ & _ & _ & Hl & _ & _ & Hs & _).
  exists list. split; [ exact Hl | ]. split; [ exact Hs | ].
  pose proof Hl as E. vm_compute in E. injection E as <-.
  split; vm_compute; reflexivity.
Defined.

(** C5, as stated, fails. A record whose timestamp cannot be parsed
    compares as equal to every other record and keeps its place: here it
    stays first, before a dated record. A record without a timestamp counts
    as 1970-01-01 and stands before a record dated earlier than that. And
    with a record that is [null] no list is returned at all: building the
    element for it throws, and the answer is 500. *)
Lemma undated_records_not_last :
  (exists bad good,
      reports_list Date_parse_standard registry_unparseable
      = Returns [bad; good]
      /\ get bad "hash" = VString "bad"
      /\ get good "hash" = VString "good"
      /\ ~ undated_last Date_parse_standard [bad; good])
  /\ (exists none old,
         reports_list Date_parse_standard registry_before_epoch
         = Returns [none; old]
         /\ get none "hash" = VString "undated"
         /\ get old "hash" = VString "old"
         /\ ~ undated_last Date_parse_standard [none; old])
  /\ (exists e,
        reports_list Date_parse_standard registry_with_null = Throws e)
  /\ api_reports_route Date_parse_standard registry_with_null
     = Json 500 (failure msg_unexpected).
Proof.
  split; [ | split; [ | split; [ eexists | ]; reflexivity ] ].
  - eexists. eexists. split; [ vm_compute; reflexivity | ].
    split; [ reflexivity | ]. split; [ reflexivity | ].
    intros H.
    assert (Hlt : (1 < 0)%nat).
    { eapply (H 0%nat 1%nat); try reflexivity.
      - eexists. split; [ reflexivity | ]. right. vm_compute. reflexivity.
      - eexists. eexists. split; [ reflexivity | ].
        split; [ reflexivity | ]. vm_compute. reflexivity. }
    lia.
  - eexists. eexists. split; [ vm_compute; reflexivity | ].
    split; [ reflexivity | ]. split; [ reflexivity | ].
    intros H.
    assert (Hlt : (1 < 0)%nat).
    { eapply (H 0%nat 1%nat); try reflexivity.
      - eexists. split; [ reflexivity | ]. left. reflexivity.
      - eexists. eexists. split; [ reflexivity | ].
        split; [ reflexivity | ]. vm_compute. reflexivity. }
    lia.
Qed.

(* ===================================================================== *)
(** ** Theorems: single flight of the authorize handshake *)
(* ===================================================================== *)

Section UpdateLemmas.

Context {A : Type}.

Lemma length_update (n : nat) (x : A) (l : list A) :
  List.length (Interleaved.update n x l) = List.length l.
Proof.
  revert n. induction l as [| y l IH]; intros [| n]; simpl; auto.
Qed.

Lemma nth_error_update_eq (n : nat) (x : A) (l : list A) :
  (n < List.length l)%nat -> nth_error (Interleaved.update n x l) n = Some x.
Proof.
  revert n. induction l as [| y l IH]; intros [| n] H; simpl in *;
    try lia; auto.
  apply IH. lia.
Qed.

Lemma nth_error_update_neq (n m : nat) (x : A) (l : list A) :
  m <> n -> nth_error (Interleaved.update n x l) m = nth_error l m.
Proof.
  revert n m. induction l as [| y l IH]; intros [| n] [| m] H; simpl;
    try congruence; auto.
Qed.

Lemma nth_error_snoc (l : list A) (x y : A) (i : nat) :
  nth_error (l ++ [x]) i = Some y ->
  nth_error l i = Some y \/ (i = List.length l /\ y = x).
Proof.
  intros H. destruct (Nat.lt_ge_cases i (List.length l)) as [Hlt | Hge].
  - rewrite nth_error_app1 in H by assumption. auto.
  - rewrite nth_error_app2 in H by assumption.
    destruct (i - List.length l)%nat as [| k] eqn:E; simpl in H.
    + inversion H; subst. right. split; [lia | reflexivity].
    + destruct k; discriminate.
Qed.

Lemma nth_error_snoc_last (l : list A) (x : A) :
  nth_error (l ++ [x]) (List.length l) = Some x.
Proof.
  rewrite nth_error_app2 by lia. now rewrite Nat.sub_diag.
Qed.

End UpdateLemmas.

Lemma no_pending_filter (ps : list Interleaved.promise) :
  (forall q, nth_error ps q <> Some Interleaved.Pending) ->
  filter Interleaved.is_pending ps = [].
Proof.
  induction ps as [| x ps IH]; intros H; simpl; auto.
  destruct x; simpl.
  - exfalso. apply (H 0%nat). reflexivity.
  - apply IH. intros q. apply (H (S q)).
  - apply IH. intros q. apply (H (S q)).
Qed.

Lemma pending_at_most_one (ps : list Interleaved.promise) :
  (forall q q', nth_error ps q = Some Interleaved.Pending ->
                nth_error ps q' = Some Interleaved.Pending -> q = q') ->
  (List.length (filter Interleaved.is_pending ps) <= 1)%nat.
Proof.
  induction ps as [| x ps IH]; intros H; simpl; auto.
  destruct x; simpl.
  - rewrite no_pending_filter; simpl; auto.
    intros q Hq. specialize (H 0%nat (S q) eq_refl Hq). discriminate.
  - apply IH. intros q q' Hq Hq'.
    specialize (H (S q) (S q') Hq Hq'). congruence.
  - apply IH. intros q q' Hq Hq'.
    specialize (H (S q) (S q') Hq Hq'). congruence.
Qed.

Section SingleFlight.

Import Interleaved.

Variable env : Environment.

Lemma invariant_initial : single_flight_invariant initial.
Proof.
  unfold single_flight_invariant, initial; simpl.
  repeat split; intros; try discriminate;
    match goal with
    | H : nth_error [] ?i = Some _ |- _ => destruct i; discriminate
    end.
Qed.

Lemma invariant_add_caller (c0 : caller) (st : state) :
  (forall p, c0 <> Started p false) ->
  single_flight_invariant st -> single_flight_invariant (add_caller c0 st).
Proof.
  intros Hc (I1 & I2 & I3 & I4 & I5).
  unfold single_flight_invariant, add_caller; simpl.
  repeat split; auto.
  - intros c p H. apply nth_error_snoc in H as [H | [_ H]]; eauto.
    exfalso. eapply Hc; eauto.
  - intros c c' p p' H H'.
    apply nth_error_snoc in H as [H | [_ H]];
      [ | exfalso; eapply Hc; eauto ].
    apply nth_error_snoc in H' as [H' | [_ H']];
      [ | exfalso; eapply Hc; eauto ].
    eauto.
  - apply I5; auto.
  - destruct (I5 p H) as [_ [c Hc']]. exists c.
    rewrite nth_error_app1; auto.
    apply nth_error_Some. congruence.
Qed.

Lemma invariant_call_authorize (force : bool) (t : Z) (st : state) :
  single_flight_invariant st ->
  single_flight_invariant (call_authorize env force t st).
Proof.
  intros Hinv. unfold call_authorize.
  destruct (negb (credentials_configured env)).
  { apply invariant_add_caller; auto. discriminate. }
  destruct (cached_session force t st).
  { apply invariant_add_caller; auto. discriminate. }
  destruct (b2AuthPromise st) as [p | ] eqn:Hslot.
  { apply invariant_add_caller; auto. discriminate. }
  destruct Hinv as (I1 & I2 & I3 & I4 & I5).
  unfold single_flight_invariant; simpl.
  repeat split.
  - rewrite length_app. simpl. lia.
  - intros q H. apply nth_error_snoc in H as [H | [H _]].
    + specialize (I2 q H). congruence.
    + now subst.
  - intros c p H. apply nth_error_snoc in H as [H | [_ H]].
    + specialize (I3 c p H). congruence.
    + now inversion H.
  - intros c c' p p' H H'.
    apply nth_error_snoc in H as [H | [H _]];
      [ specialize (I3 c p H); congruence | ].
    apply nth_error_snoc in H' as [H' | [H' _]];
      [ specialize (I3 c' p' H'); congruence | ].
    congruence.
  - inversion H; subst. rewrite length_app. simpl. lia.
  - inversion H; subst. exists (List.length (callers st)).
    apply nth_error_snoc_last.
Qed.

Lemma invariant_ignores_counters (st : state) (flag : bool) (n : nat) :
  single_flight_invariant st ->
  single_flight_invariant
    {| b2 := b2 st; b2AuthPromise := b2AuthPromise st;
       b2LastAuthAt := b2LastAuthAt st;
       b2LastAuthResponse := b2LastAuthResponse st;
       b2InitPromise := flag; promises := promises st;
       handshakes := handshakes st; callers := callers st;
       ready_calls := n |}.
Proof. intros H; exact H. Qed.

Lemma invariant_step (st st' : state) (l : label) :
  single_flight_invariant st -> step env st l = Some st' ->
  single_flight_invariant st'.
Proof.
  intros Hinv Hstep. destruct l as [force t | t | p answer t | c]; simpl in Hstep.
  - inversion Hstep; subst. now apply invariant_call_authorize.
  - inversion Hstep; subst. unfold call_ready.
    destruct (b2InitPromise st).
    + now apply invariant_ignores_counters.
    + destruct (storage_configured env).
      * apply invariant_call_authorize. now apply invariant_ignores_counters.
      * now apply invariant_ignores_counters.
  - unfold respond in Hstep.
    destruct (nth_error (promises st) p) as [[ | | ] | ] eqn:Hp;
      try discriminate.
    destruct Hinv as (I1 & I2 & I3 & I4 & I5).
    assert (Hlt : (p < List.length (promises st))%nat).
    { apply nth_error_Some. congruence. }
    assert (Hsettle : forall x, is_pending x = false ->
              forall q, nth_error (update p x (promises st)) q = Some Pending ->
                        nth_error (promises st) q = Some Pending).
    { intros x Hx q Hq. destruct (Nat.eq_dec q p) as [-> | Hne].
      - rewrite nth_error_update_eq in Hq by assumption.
        inversion Hq; subst. discriminate.
      - now rewrite nth_error_update_neq in Hq by assumption. }
    inversion Hstep; subst; clear Hstep.
    destruct answer as [auth | err]; unfold single_flight_invariant; simpl;
      rewrite length_update; repeat split; eauto;
      try (intros q Hq; eapply I2, Hsettle; eauto; reflexivity);
      try (apply I5; auto).
  - unfold resume in Hstep.
    destruct (nth_error (callers st) c) as [[ | | | p [ | ]] | ] eqn:Hc;
      try discriminate.
    destruct (nth_error (promises st) p) as [[ | auth | err] | ] eqn:Hp;
      try discriminate;
      destruct Hinv as (I1 & I2 & I3 & I4 & I5);
      assert (Hlt : (c < List.length (callers st))%nat)
        by (apply nth_error_Some; congruence);
      assert (Hold : forall c' p',
                nth_error (update c (Started p true) (callers st)) c'
                = Some (Started p' false) ->
                c' <> c /\ nth_error (callers st) c' = Some (Started p' false))
        by (intros c' p' H; destruct (Nat.eq_dec c' c) as [-> | Hne];
            [ rewrite nth_error_update_eq in H by assumption; discriminate
            | rewrite nth_error_update_neq in H by assumption; auto ]);
      inversion Hstep; subst; clear Hstep;
      unfold single_flight_invariant; simpl; repeat split; auto;
      try discriminate.
    + intros q Hq. pose proof (I2 q Hq) as Hs. pose proof (I3 c p Hc) as Hs'.
      rewrite Hs in Hs'. inversion Hs'; subst. congruence.
    + intros c' p' H. apply Hold in H as [Hne H].
      exfalso. apply Hne. eapply I4; eauto.
    + intros c1 c2 p1 p2 H1 H2. apply Hold in H1 as [Hne H1].
      exfalso. apply Hne. eapply I4; eauto.
    + intros q Hq. pose proof (I2 q Hq) as Hs. pose proof (I3 c p Hc) as Hs'.
      rewrite Hs in Hs'. inversion Hs'; subst. congruence.
    + intros c' p' H. apply Hold in H as [Hne H].
      exfalso. apply Hne. eapply I4; eauto.
    + intros c1 c2 p1 p2 H1 H2. apply Hold in H1 as [Hne H1].
      exfalso. apply Hne. eapply I4; eauto.
Qed.

Lemma invariant_run (ls : list label) (st st' : state) :
  single_flight_invariant st -> run env st ls = Some st' ->
  single_flight_invariant st'.
Proof.
  revert st. induction ls as [| l ls IH]; intros st Hinv Hrun; simpl in Hrun.
  - inversion Hrun; subst. assumption.
  - destruct (step env st l) as [st1 | ] eqn:Hstep; try discriminate.
    apply (IH st1); [ eapply invariant_step; eauto | assumption ].
Qed.

Lemma invariant_reachable (st : state) :
  reachable env st -> single_flight_invariant st.
Proof.
  intros [ls Hrun]. eapply invariant_run; eauto. apply invariant_initial.
Qed.


Lemma ready_invariant_step (st st' : state) (l : label) :
  is_direct_call l = false ->
  ready_invariant env st -> step env st l = Some st' ->
  ready_invariant env st'
  /\ b2InitPromise st' = b2InitPromise st || is_ready_call l.
Proof.
  intros Hl [H1 H2] Hstep.
  destruct l as [force t | t | p answer t | c]; simpl in *;
    try discriminate.
  - inversion Hstep; subst; clear Hstep. unfold call_ready.
    destruct (b2InitPromise st) eqn:Hb.
    + unfold ready_invariant; simpl. repeat split; auto; try discriminate.
    + unfold call_authorize.
      destruct (storage_configured env) eqn:Hs.
      * assert (Hc : credentials_configured env = true).
        { unfold storage_configured in Hs.
          now apply andb_true_iff in Hs as [Hs _]. }
        rewrite Hc. simpl. rewrite (H2 eq_refl).
        unfold ready_invariant; simpl. rewrite Hs, H1. simpl.
        repeat split; auto; try discriminate.
      * unfold ready_invariant; simpl. rewrite Hs, H1. simpl.
        repeat split; auto; try discriminate.
  - unfold respond in Hstep.
    destruct (nth_error (promises st) p) as [[ | | ] | ]; try discriminate.
    inversion Hstep; subst; clear Hstep.
    destruct answer; unfold ready_invariant; simpl;
      rewrite orb_false_r; repeat split; auto.
  - unfold resume in Hstep.
    destruct (nth_error (callers st) c) as [[ | | | p [ | ]] | ];
      try discriminate.
    destruct (nth_error (promises st) p) as [[ | | ] | ]; try discriminate;
      inversion Hstep; subst; clear Hstep;
      unfold ready_invariant; simpl; rewrite orb_false_r;
      repeat split; auto.
Qed.

Lemma ready_invariant_run (ls : list label) (st st' : state) :
  forallb (fun l => negb (is_direct_call l)) ls = true ->
  ready_invariant env st -> run env st ls = Some st' ->
  ready_invariant env st'
  /\ b2InitPromise st' = b2InitPromise st || existsb is_ready_call ls.
Proof.
  revert st. induction ls as [| l ls IH]; intros st Hls Hinv Hrun;
    simpl in *.
  - inversion Hrun; subst. rewrite orb_false_r. auto.
  - apply andb_true_iff in Hls as [Hl Hls].
    apply negb_true_iff in Hl.
    destruct (step env st l) as [st1 | ] eqn:Hstep; try discriminate.
    destruct (ready_invariant_step _ _ _ Hl Hinv Hstep) as [Hinv1 Hb1].
    destruct (IH st1 Hls Hinv1 Hrun) as [Hinv' Hb'].
    split; auto. rewrite Hb', Hb1. now rewrite orb_assoc.
Qed.

(** Without the key nothing is ever started: every caller is turned away
    on line 78. *)
Lemma unconfigured_step (st st' : state) (l : label) :
  credentials_configured env = false ->
  b2AuthPromise st = None /\ b2LastAuthResponse st = None
  /\ promises st = []
  /\ Forall (fun c => exists e, c = Threw e) (callers st) ->
  step env st l = Some st' ->
  b2AuthPromise st' = None /\ b2LastAuthResponse st' = None
  /\ promises st' = []
  /\ Forall (fun c => exists e, c = Threw e) (callers st').
Proof.
  intros Hcred (Hslot & Hlast & Hps & Hcs) Hstep.
  assert (Hcall : forall force t flag n,
             let counted :=
               {| b2 := b2 st; b2AuthPromise := b2AuthPromise st;
                  b2LastAuthAt := b2LastAuthAt st;
                  b2LastAuthResponse := b2LastAuthResponse st;
                  b2InitPromise := flag; promises := promises st;
                  handshakes := handshakes st; callers := callers st;
                  ready_calls := n |} in
             b2AuthPromise (call_authorize env force t counted) = None
             /\ b2LastAuthResponse (call_authorize env force t counted) = None
             /\ promises (call_authorize env force t counted) = []
             /\ Forall (fun c => exists e, c = Threw e)
                  (callers (call_authorize env force t counted))).
  { intros force t flag n counted. unfold call_authorize. rewrite Hcred.
    subst counted. simpl. repeat split; auto.
    apply Forall_app. split; [ exact Hcs | ]. repeat constructor. eauto. }
  destruct l as [force t | t | p answer t | c]; simpl in Hstep.
  - injection Hstep as <-.
    exact (Hcall force t (b2InitPromise st) (ready_calls st)).
  - injection Hstep as <-. unfold call_ready.
    assert (Hs : storage_configured env = false)
      by (unfold storage_configured; now rewrite Hcred).
    rewrite Hs. destruct (b2InitPromise st); simpl; auto.
  - unfold respond in Hstep. rewrite Hps in Hstep.
    destruct p; discriminate.
  - unfold resume in Hstep.
    destruct (nth_error (callers st) c) as [k | ] eqn:Hc; [ | discriminate ].
    apply nth_error_In in Hc.
    rewrite Forall_forall in Hcs. destruct (Hcs k Hc) as [e ->].
    discriminate.
Qed.

Lemma unconfigured_run (ls : list label) (st st' : state) :
  credentials_configured env = false ->
  b2AuthPromise st = None /\ b2LastAuthResponse st = None
  /\ promises st = []
  /\ Forall (fun c => exists e, c = Threw e) (callers st) ->
  run env st ls = Some st' ->
  b2AuthPromise st' = None /\ b2LastAuthResponse st' = None
  /\ promises st' = []
  /\ Forall (fun c => exists e, c = Threw e) (callers st').
Proof.
  intros Hcred. revert st.
  induction ls as [| l ls IH]; intros st Hidle Hrun; simpl in Hrun.
  - injection Hrun as <-. exact Hidle.
  - destruct (step env st l) as [st1 | ] eqn:Hstep; try discriminate.
    apply (IH st1); [ eapply unconfigured_step; eauto | assumption ].
Qed.

(** A handshake in flight, a session on record or a caller that started a
    handshake: each shows that the key is configured. *)
Lemma started_needs_credentials (st : state) :
  reachable env st ->
  (exists p, b2AuthPromise st = Some p)
  \/ (exists auth, b2LastAuthResponse st = Some auth)
  \/ (exists c p done, nth_error (callers st) c = Some (Started p done)) ->
  credentials_configured env = true.
Proof.
  intros [ls Hrun] Hsign.
  destruct (credentials_configured env) eqn:Hcred; [ reflexivity | ].
  destruct (unconfigured_run ls initial st Hcred) as (Hslot & Hlast & _ & Hcs).
  { simpl. repeat split; auto. }
  { exact Hrun. }
  destruct Hsign as [[p Hp] | [[auth Ha] | (c & p & done & Hc)]];
    try congruence.
  apply nth_error_In in Hc. rewrite Forall_forall in Hcs.
  destruct (Hcs _ Hc) as [e He]. discriminate.
Qed.

Lemma cached_session_on_record (force : bool) (t : Z) (st : state)
    (auth : AuthResponse) :
  cached_session force t st = Some auth -> b2LastAuthResponse st = Some auth.
Proof.
  unfold cached_session.
  destruct (negb force && negb (b2LastAuthAt st =? 0)
            && (t - b2LastAuthAt st <? B2_AUTH_TTL_MS));
    [ auto | discriminate ].
Qed.

(** C2 (amended).
    - In every reachable state at most one authorize handshake is
      outstanding.
    - A call of [ensureB2Authorized] that is not served from the cached
      session and finds a promise in [b2AuthPromise] is handed that very
      promise: no handshake is started.
    - A call that may use the cached session returns it at once, whatever
      is in flight, and starts no handshake either.
    - Callers that hold the same promise receive the same result.
    - When the promise has settled, fulfilled or rejected, the caller that
      made it resumes and clears [b2AuthPromise], and the next forced call
      starts a fresh handshake; a promise in the slot always has such a
      caller waiting to clear it.
    The second and the third hold in every state the server can reach,
    and in any state at all when the key is configured.
    - If nothing but [ensureB2Ready] is called, any number of calls (one at
      least), in any interleaving with B2's answers, starts exactly one
      handshake when the key and a bucket id or name are configured, and
      none otherwise, be it the key or the bucket that is missing. *)
Theorem single_flight_authorize :
  (forall st, reachable env st -> (outstanding st <= 1)%nat)
  /\ (forall st force t p,
        credentials_configured env = true \/ reachable env st ->
        b2AuthPromise st = Some p -> cached_session force t st = None ->
        last_caller (call_authorize env force t st) = Some (Joined p)
        /\ handshakes (call_authorize env force t st) = handshakes st
        /\ promises (call_authorize env force t st) = promises st)
  /\ (forall st force t auth,
        credentials_configured env = true \/ reachable env st ->
        cached_session force t st = Some auth ->
        last_caller (call_authorize env force t st) = Some (Cached auth)
        /\ handshakes (call_authorize env force t st) = handshakes st
        /\ promises (call_authorize env force t st) = promises st)
  /\ (forall st c c' p,
         (nth_error (callers st) c = Some (Joined p)
          \/ nth_error (callers st) c = Some (Started p true)) ->
         (nth_error (callers st) c' = Some (Joined p)
          \/ nth_error (callers st) c' = Some (Started p true)) ->
         received st c = received st c')
  /\ (forall st c p,
         reachable env st ->
         nth_error (callers st) c = Some (Started p false) ->
         nth_error (promises st) p <> Some Pending ->
         exists st', step env st (Resume c) = Some st'
                     /\ b2AuthPromise st' = None
                     /\ forall t, handshakes (call_authorize env true t st')
                                  = S (handshakes st'))
  /\ (forall st p,
         reachable env st -> b2AuthPromise st = Some p ->
         exists c, nth_error (callers st) c = Some (Started p false))
  /\ (forall ls st,
         forallb (fun l => negb (is_direct_call l)) ls = true ->
         run env initial ls = Some st ->
         handshakes st
         = (if storage_configured env && existsb is_ready_call ls
            then 1 else 0)%nat).
Proof.
  split; [ | split; [ | split; [ | split; [ | split; [ | split ] ] ] ] ].
  - intros st Hr. apply invariant_reachable in Hr.
    destruct Hr as (_ & I2 & _). unfold outstanding.
    apply pending_at_most_one. intros q q' Hq Hq'.
    pose proof (I2 q Hq) as E. rewrite (I2 q' Hq') in E. congruence.
  - intros st force t p Hwhere Hslot Hcache.
    assert (Hcred : credentials_configured env = true).
    { destruct Hwhere as [H | Hr]; [ exact H | ].
      apply (started_needs_credentials st Hr). left. eauto. }
    unfold call_authorize. rewrite Hcred. simpl. rewrite Hcache, Hslot.
    split; [ | split; reflexivity ].
    unfold last_caller, add_caller. simpl. rewrite length_app. simpl.
    replace (pred (List.length (callers st) + 1))
      with (List.length (callers st)) by lia.
    apply nth_error_snoc_last.
  - intros st force t auth Hwhere Hcache.
    assert (Hcred : credentials_configured env = true).
    { destruct Hwhere as [H | Hr]; [ exact H | ].
      apply (started_needs_credentials st Hr). right. left.
      exists auth. exact (cached_session_on_record force t st auth Hcache). }
    unfold call_authorize. rewrite Hcred. simpl. rewrite Hcache.
    split; [ | split; reflexivity ].
    unfold last_caller, add_caller. simpl. rewrite length_app. simpl.
    replace (pred (List.length (callers st) + 1))
      with (List.length (callers st)) by lia.
    apply nth_error_snoc_last.
  - intros st c c' p Hc Hc'. unfold received.
    destruct Hc as [-> | ->], Hc' as [-> | ->]; reflexivity.
  - intros st c p Hr Hc Hp.
    assert (Hcred : credentials_configured env = true).
    { apply (started_needs_credentials st Hr). right. right. eauto. }
    apply invariant_reachable in Hr.
    destruct Hr as (_ & _ & I3 & _ & I5).
    destruct (I5 p (I3 c p Hc)) as [Hlt _].
    simpl. unfold resume. rewrite Hc.
    destruct (nth_error (promises st) p) as [[ | auth | err] | ] eqn:E.
    + congruence.
    + eexists. repeat split. intros t. unfold call_authorize.
      rewrite Hcred. reflexivity.
    + eexists. repeat split. intros t. unfold call_authorize.
      rewrite Hcred. reflexivity.
    + apply nth_error_None in E. lia.
  - intros st p Hr Hs. apply invariant_reachable in Hr.
    destruct Hr as (_ & _ & _ & _ & I5). now apply I5.
  - intros ls st Hls Hrun.
    assert (Hinit : ready_invariant env initial).
    { unfold ready_invariant, initial; simpl. auto. }
    destruct (ready_invariant_run ls initial st Hls Hinit Hrun) as [[H1 _] Hb].
    rewrite H1, Hb. simpl. now rewrite andb_comm.
Qed.

End SingleFlight.

(** X30. Run alone, the transitions of the interleaving model do what the
    sequential [ensureB2Authorized] does: the caller receives the same
    result and the session variables end up the same. *)
Lemma sequential_agrees_with_interleaving (env : Environment) (world : World)
    (force : bool) (s : State) :
  credentials_configured env = true -> b2AuthPromise s = None ->
  let t := Date_now world (clock_reads s) in
  let answer := authorize_result world (trace s ++ [B2_authorize]) in
  let result := ensureB2Authorized env world force s in
  match Interleaved.cached_session force t (of_State s) with
  | Some _ =>
      Interleaved.received
        (Interleaved.call_authorize env force t (of_State s)) 0
      = Some (fst result)
  | None =>
      exists st,
        Interleaved.run env (of_State s)
          [Interleaved.Call force t;
           Interleaved.Respond 0 answer (Date_now world (S (clock_reads s)));
           Interleaved.Resume 0] = Some st
        /\ Interleaved.received st 0 = Some (fst result)
        /\ Interleaved.b2AuthPromise st = None
        /\ Interleaved.b2 st = b2 (snd result)
        /\ Interleaved.b2LastAuthAt st = b2LastAuthAt (snd result)
        /\ Interleaved.b2LastAuthResponse st = b2LastAuthResponse (snd result)
        /\ Interleaved.handshakes st
           = count is_authorize (since s (snd result))
  end.
Proof.
  intros Hc Hq t answer result. subst t answer result.
  unfold credentials_configured in Hc.
  apply andb_true_iff in Hc as [Hk Hk'].
  unfold Interleaved.run, Interleaved.step, Interleaved.call_authorize,
    Interleaved.cached_session, credentials_configured, of_State,
    ensureB2Authorized, bind, now, read.
  rewrite Hk, Hk'. cbn -[B2_AUTH_TTL_MS Z.sub Z.ltb Z.eqb]. rewrite Hq.
  destruct (negb force && negb (b2LastAuthAt s =? 0)
            && (Date_now world (clock_reads s) - b2LastAuthAt s
                <? B2_AUTH_TTL_MS));
    [ destruct (b2LastAuthResponse s) as [cached | ] eqn:Hresp;
      [ reflexivity | ] | ];
    cbn -[B2_AUTH_TTL_MS Z.sub Z.ltb Z.eqb];
    destruct (b2 s) eqn:Hb2;
    unfold modify, settle, external, try_finally, await, ret;
    cbn -[B2_AUTH_TTL_MS Z.sub Z.ltb Z.eqb];
    destruct (authorize_result world (trace s ++ [B2_authorize]));
    cbn -[B2_AUTH_TTL_MS Z.sub Z.ltb Z.eqb];
    eexists; repeat split; try reflexivity;
    unfold since, count; cbn [trace snd set_trace set_b2AuthPromise
      set_b2LastAuthResponse set_b2LastAuthAt set_clock_reads set_b2];
    rewrite ?skipn_app, ?skipn_all, ?Nat.sub_diag, ?Hb2, ?Hresp;
    reflexivity.
Qed.

(** C2, as stated, fails, in two places. A call that is not forced and
    finds the cached session still valid returns that session at once,
    although a forced handshake is in flight; it neither awaits nor
    receives the result of the handshake. And on a server that has no key
    configured, three calls of [ensureB2Ready] start no handshake at all,
    not one. *)
Lemma cached_caller_does_not_join :
  Interleaved.b2AuthPromise state_in_flight = Some 1%nat
  /\ nth_error (Interleaved.promises state_in_flight) 1
     = Some Interleaved.Pending
  /\ Interleaved.last_caller
       (Interleaved.call_authorize env_configured false 2500 state_in_flight)
     = Some (Interleaved.Cached session_old)
  /\ (forall st,
         Interleaved.run env_configured state_in_flight
           [Interleaved.Call false 2500;
            Interleaved.Respond 1 (Returns session_new) 2600;
            Interleaved.Resume 1] = Some st ->
         Interleaved.received st 1 = Some (Returns session_new)
         /\ Interleaved.received st 2 = Some (Returns session_old))
  /\ ~ Interleaved.joins_in_flight env_configured state_in_flight false 2500
  /\ exists st,
       Interleaved.run env_unconfigured Interleaved.initial three_ready_calls
       = Some st
       /\ Interleaved.ready_calls st = 3%nat
       /\ Interleaved.handshakes st = 0%nat
       /\ Interleaved.b2LastAuthResponse st = None.
Proof.
  split; [ reflexivity | ]. split; [ reflexivity | ].
  split; [ reflexivity | ]. split; [ | split ].
  - intros st H. vm_compute in H. inversion H; subst.
    split; reflexivity.
  - intros H. specialize (H 1%nat eq_refl eq_refl).
    vm_compute in H. discriminate.
  - eexists. split; [ vm_compute; reflexivity | ].
    repeat split.
Qed.

Lemma single_flight_authorize_witness :
  Interleaved.handshakes
    (match Interleaved.run env_configured Interleaved.initial
             three_ready_calls with
     | Some st => st
     | None => Interleaved.initial
     end) = 1%nat
  /\ Interleaved.handshakes
       (match Interleaved.run env_unconfigured Interleaved.initial
                three_ready_calls with
        | Some st => st
        | None => Interleaved.initial
        end) = 0%nat
  /\ Interleaved.last_caller
       (Interleaved.call_authorize env_configured true 2500 state_in_flight)
     = Some (Interleaved.Joined 1).
Proof.
  split; [ | split ].
  - exact (proj2 (proj2 (proj2 (proj2 (proj2 (proj2
             (single_flight_authorize env_configured))))))
           three_ready_calls _ eq_refl eq_refl).
  - exact (proj2 (proj2 (proj2 (proj2 (proj2 (proj2
             (single_flight_authorize env_unconfigured))))))
           three_ready_calls _ eq_refl eq_refl).
  - exact (proj1 (proj1 (proj2 (single_flight_authorize env_configured))
                    state_in_flight true 2500 1%nat
                    (or_introl eq_refl) eq_refl eq_refl)).
Defined.

(* ===================================================================== *)
(** ** What a computation adds to the trace *)
(* ===================================================================== *)

Section Emits.

Variable P : event -> Prop.

Lemma emits_nothing {A} (m : M A) :
  (forall s, trace (snd (m s)) = trace s) -> emits P m.
Proof.
  intros H s. exists []. rewrite app_nil_r. split; [ apply H | constructor ].
Qed.

Lemma emits_ret {A} (a : A) : emits P (ret a).
Proof. now apply emits_nothing. Qed.

Lemma emits_throw {A} (e : value) : emits P (@throw A e).
Proof. now apply emits_nothing. Qed.

Lemma emits_lift {A} (o : outcome A) : emits P (lift o).
Proof. now apply emits_nothing. Qed.

Lemma emits_await {A} (o : outcome A) : emits P (await o).
Proof. now apply emits_nothing. Qed.

Lemma emits_read : emits P read.
Proof. now apply emits_nothing. Qed.

Lemma emits_modify (g : State -> State) :
  (forall s, trace (g s) = trace s) -> emits P (modify g).
Proof. intros H. apply emits_nothing. intros s. apply H. Qed.

Lemma emits_now (world : World) : emits P (now world).
Proof. now apply emits_nothing. Qed.

Lemma emits_now_iso (world : World) : emits P (now_iso world).
Proof. now apply emits_nothing. Qed.

Lemma emits_bind {A B} (m : M A) (k : A -> M B) :
  emits P m -> (forall a, emits P (k a)) -> emits P (bind m k).
Proof.
  intros Hm Hk s. unfold bind. destruct (Hm s) as (d1 & Ht1 & Hd1).
  destruct (m s) as [[a | e] s1]; simpl in *.
  - destruct (Hk a s1) as (d2 & Ht2 & Hd2). exists (d1 ++ d2)%list.
    rewrite Ht2, Ht1, app_assoc. split; auto. now apply Forall_app.
  - eauto.
Qed.

Lemma emits_try_catch {A} (m : M A) (h : value -> M A) :
  emits P m -> (forall e, emits P (h e)) -> emits P (try_catch m h).
Proof.
  intros Hm Hh s. unfold try_catch. destruct (Hm s) as (d1 & Ht1 & Hd1).
  destruct (m s) as [[a | e] s1]; simpl in *.
  - eauto.
  - destruct (Hh e s1) as (d2 & Ht2 & Hd2). exists (d1 ++ d2)%list.
    rewrite Ht2, Ht1, app_assoc. split; auto. now apply Forall_app.
Qed.

Lemma emits_try_finally {A} (m : M A) (fin : M unit) :
  emits P m -> emits P fin -> emits P (try_finally m fin).
Proof.
  intros Hm Hf s. unfold try_finally. destruct (Hm s) as (d1 & Ht1 & Hd1).
  destruct (m s) as [r s1]. simpl in *.
  destruct (Hf s1) as (d2 & Ht2 & Hd2).
  destruct (fin s1) as [[u | e] s2]; simpl in *;
    exists (d1 ++ d2)%list; rewrite Ht2, Ht1, app_assoc;
    (split; auto; now apply Forall_app).
Qed.

Lemma emits_settle {A} (m : M A) : emits P m -> emits P (settle m).
Proof.
  intros Hm s. unfold settle. destruct (Hm s) as (d & Ht & Hd).
  destruct (m s) as [r s1]. eauto.
Qed.

Lemma emits_event (ev : event) (g : State -> State) :
  P ev -> (forall s, g s = set_trace (trace s ++ [ev]) s) ->
  emits P (modify g).
Proof.
  intros Hev Hg s. exists [ev]. unfold modify. simpl. rewrite Hg. simpl.
  auto.
Qed.

Lemma emits_external {A} (ev : event) (answer : list event -> outcome A) :
  P ev -> emits P (external ev answer).
Proof. intros Hev s. exists [ev]. unfold external. simpl. auto. Qed.

Lemma emits_console_warn (text : string) :
  P (Console_warn text) -> emits P (console_warn text).
Proof. intros H. eapply emits_event; eauto. Qed.

Lemma emits_console_error (label : string) (e : value) :
  P (Console_error label e) -> emits P (console_error label e).
Proof. intros H. eapply emits_event; eauto. Qed.

Lemma emits_b2_call {A} (ev : event) (answer : list event -> outcome A) :
  P ev -> emits P (b2_call ev answer).
Proof.
  intros H. unfold b2_call. apply emits_bind; [ apply emits_read | ].
  intros s. destruct (b2 s); [ now apply emits_external | apply emits_throw ].
Qed.

End Emits.

(** One step of a trace proof, read off the shape of the computation. *)
Ltac emits_step :=
  match goal with
  | |- emits _ (bind _ _) => apply emits_bind; [ | intro ]
  | |- emits _ (try_catch _ _) => apply emits_try_catch; [ | intro ]
  | |- emits _ (try_finally _ _) => apply emits_try_finally
  | |- emits _ (settle _) => apply emits_settle
  | |- emits _ (ret _) => apply emits_ret
  | |- emits _ (throw _) => apply emits_throw
  | |- emits _ (lift _) => apply emits_lift
  | |- emits _ (await _) => apply emits_await
  | |- emits _ read => apply emits_read
  | |- emits _ (now _) => apply emits_now
  | |- emits _ (now_iso _) => apply emits_now_iso
  | |- emits _ (external _ _) => apply emits_external; exact I
  | |- emits _ (b2_call _ _) => apply emits_b2_call; exact I
  | |- emits _ (console_warn _) => apply emits_console_warn; exact I
  | |- emits _ (console_error _ _) => apply emits_console_error; exact I
  | |- emits _ (modify _) => apply emits_modify; intros; reflexivity
  | |- emits _ (if ?c then _ else _) => destruct c
  | |- emits _ (match ?x with _ => _ end) => destruct x
  end.

Section EmitsServer.

Variable env : Environment.
Variable world : World.

Lemma ensureB2Ready_never_writes : emits no_write (ensureB2Ready env world).
Proof.
  unfold ensureB2Ready, b2Init, ensureB2Authorized. repeat emits_step.
Qed.

Lemma uploadFileToB2_never_writes (cfg : B2Config) (name : string)
    (buf : list Byte.byte) (mime : string) :
  emits no_write (uploadFileToB2 env world cfg name buf mime).
Proof.
  unfold uploadFileToB2, attempt, ensureB2Authorized. repeat emits_step.
Qed.

End EmitsServer.

Section UploadOutcomes.

Variable env : Environment.
Variable world : World.

(** X1. [POST /upload] never lets an exception escape: it answers with a
    JSON body and one of the statuses 200, 400, 500, 502. Unless the status
    is 200 the registry is what it was and no write of the store file is
    attempted; with a 200 exactly one write is attempted, and what it
    carries is the registry the request left in memory. *)
Theorem upload_route_outcomes (req : UploadRequest) (s : State) :
  exists status body d,
    fst (upload_route env world req s) = Returns (Json status body)
    /\ trace (state_after env world req s) = (trace s ++ d)%list
    /\ ((status = 400 \/ status = 500 \/ status = 502)
        /\ reports (state_after env world req s) = reports s
        /\ Forall no_write d
        \/ status = 200
           /\ exists before after,
                d = (before
                     ++ Fs_writeFile (reports (state_after env world req s))
                        :: after)%list
                /\ Forall no_write before /\ Forall no_write after).
Proof.
  unfold state_after. pose proof (upload_route_cases env world req s) as H.
  destruct (req_file req) as [file | ].
  - destruct H as (cfg & s0 & E0 & H).
    destruct (ensureB2Ready_never_writes env world s) as (d0 & Ht0 & Hd0).
    pose proof (ensureB2Ready_preserves_reports env world s) as Hr0.
    rewrite E0 in Ht0, Hr0. simpl in Ht0, Hr0.
    destruct (enabled cfg).
    + assert (Hcaught : forall e,
                upload_route env world req s
                = (Returns (Json 500 (failure msg_upload_error)),
                   set_trace (trace s0 ++ [Console_error "Upload error:" e])
                     s0) ->
                exists status body d,
                  fst (upload_route env world req s)
                  = Returns (Json status body)
                  /\ trace (snd (upload_route env world req s))
                     = (trace s ++ d)%list
                  /\ ((status = 400 \/ status = 500 \/ status = 502)
                      /\ reports (snd (upload_route env world req s))
                         = reports s
                      /\ Forall no_write d
                      \/ status = 200
                         /\ exists before after,
                              d = (before
                                   ++ Fs_writeFile
                                        (reports
                                           (snd (upload_route env world req
                                                   s)))
                                      :: after)%list
                              /\ Forall no_write before
                              /\ Forall no_write after)).
      { intros e ->. do 2 eexists.
        exists (d0 ++ [Console_error "Upload error:" e])%list.
        split; [ reflexivity | ]. simpl.
        split; [ now rewrite Ht0, app_assoc | ].
        left. repeat split; auto.
        apply Forall_app. split; [ exact Hd0 | repeat constructor ]. }
      unfold upload_enabled_case in H.
      destruct (hash_of req file) as [hash | e]; [ | exact (Hcaught e H) ].
      destruct (targetName_of req file) as [targetName | e];
        [ | exact (Hcaught e H) ].
      clear Hcaught.
      destruct (uploadFileToB2_never_writes env world cfg targetName
                  (buffer file) (mimeType_of file) s0)
        as (d1 & Ht1 & Hd1).
      pose proof (uploadFileToB2_preserves_reports env world cfg targetName
                    (buffer file) (mimeType_of file) s0) as Hr1.
      destruct (uploadFileToB2 env world cfg targetName (buffer file)
                  (mimeType_of file) s0) as [[v | e] s1];
        simpl in Ht1, Hr1; rewrite H; clear H.
      * remember (set (reports s1) hash
                    (report_record targetName (fileUrl_of cfg targetName)
                       (mimeType_of file)
                       (Date_toISOString world (clock_reads s1)))) as r.
        rewrite saveReports_run.
        cbn [reports set_reports set_clock_reads trace]. rewrite Ht1.
        destruct (writeFile_result world _) as [[] | e];
          cbn [fst snd reports trace set_trace set_reports set_clock_reads].
        -- exists 200. eexists. exists ((d0 ++ d1) ++ [Fs_writeFile r])%list.
           split; [ reflexivity | ].
           split; [ now rewrite Ht0, !app_assoc | ].
           right. split; [ reflexivity | ].
           exists (d0 ++ d1)%list, []. repeat split; auto.
           apply Forall_app; auto.
        -- exists 200. eexists.
           exists ((d0 ++ d1)
                   ++ [Fs_writeFile r;
                       Console_error "Failed to persist reports:" e])%list.
           split; [ reflexivity | ].
           split; [ rewrite Ht0, <- !app_assoc; reflexivity | ].
           right. split; [ reflexivity | ].
           exists (d0 ++ d1)%list,
             [Console_error "Failed to persist reports:" e].
           repeat split; auto.
           ++ apply Forall_app; auto.
           ++ repeat constructor.
      * do 2 eexists.
        exists ((d0 ++ d1) ++ [Console_error "B2 upload error:" e])%list.
        split; [ reflexivity | ]. simpl.
        split; [ now rewrite Ht1, Ht0, !app_assoc | ].
        left. repeat split; auto; [ congruence | ].
        repeat (apply Forall_app; split); auto. repeat constructor.
    + rewrite H. do 2 eexists. exists d0.
      split; [ reflexivity | ]. simpl. split; [ exact Ht0 | ].
      left. repeat split; auto.
  - rewrite H. do 2 eexists. exists [].
    split; [ reflexivity | ]. simpl. split; [ now rewrite app_nil_r | ].
    left. repeat split; auto.
Qed.

(** X2. Storage that came up disabled stays disabled: once an upload has
    been refused because the store is not configured, every later upload
    that carries a file is refused the same way, and the server does
    nothing else for it: no call to B2, no log line, no change of state. *)
Theorem disabled_store_is_final (req req' : UploadRequest) (s : State)
    (file' : File) :
  fst (upload_route env world req s)
  = Returns (Json 500 (failure msg_store_not_configured)) ->
  req_file req' = Some file' ->
  upload_route env world req' (state_after env world req s)
  = (Returns (Json 500 (failure msg_store_not_configured)),
     state_after env world req s).
Proof.
  intros Hfirst Hfile'. unfold state_after.
  pose proof (upload_route_cases env world req s) as H.
  destruct (req_file req) as [file | ];
    [ | rewrite H in Hfirst; discriminate ].
  destruct H as (cfg & s0 & E0 & H).
  destruct (ensureB2Ready_returns env world s) as (cfg0 & Hc & Hp).
  rewrite E0 in Hc, Hp. simpl in Hc, Hp. injection Hc as <-.
  destruct (enabled cfg) eqn:Hen.
  - unfold upload_enabled_case in H.
    destruct (hash_of req file) as [hash | e];
      [ | rewrite H in Hfirst; discriminate ].
    destruct (targetName_of req file) as [targetName | e];
      [ | rewrite H in Hfirst; discriminate ].
    destruct (uploadFileToB2 env world cfg targetName (buffer file)
                (mimeType_of file) s0) as [[v | e] s1];
      rewrite H in Hfirst; discriminate.
  - rewrite H. cbn [snd].
    pose proof (upload_route_cases env world req' s0) as H'.
    rewrite Hfile' in H'. destruct H' as (cfg' & s0' & E0' & H').
    rewrite (ensureB2Ready_cached env world cfg s0 Hp) in E0'.
    injection E0' as <- <-. now rewrite Hen in H'.
Qed.

(** X3. What the disk answers to the write of the store file changes
    neither the answer to the upload nor the registry in memory: a failed
    write is logged and the request goes on as if it had succeeded. *)
Theorem upload_answer_ignores_disk (answer : list event -> outcome unit)
    (req : UploadRequest) (s : State) :
  fst (upload_route env (with_writeFile world answer) req s)
  = fst (upload_route env world req s)
  /\ reports (state_after env (with_writeFile world answer) req s)
     = reports (state_after env world req s).
Proof.
  unfold state_after.
  pose proof (upload_route_cases env world req s) as H.
  pose proof (upload_route_cases env (with_writeFile world answer) req s)
    as H'.
  destruct (req_file req) as [file | ]; [ | now rewrite H, H' ].
  destruct H as (cfg & s0 & E0 & H).
  destruct H' as (cfg' & s0' & E0' & H').
  change (ensureB2Ready env (with_writeFile world answer))
    with (ensureB2Ready env world) in E0'.
  rewrite E0 in E0'. injection E0' as <- <-.
  destruct (enabled cfg); [ | now rewrite H, H' ].
  unfold upload_enabled_case in H, H'.
  destruct (hash_of req file) as [hash | e]; [ | now rewrite H, H' ].
  destruct (targetName_of req file) as [targetName | e];
    [ | now rewrite H, H' ].
  change (uploadFileToB2 env (with_writeFile world answer))
    with (uploadFileToB2 env world) in H'.
  destruct (uploadFileToB2 env world cfg targetName (buffer file)
              (mimeType_of file) s0) as [[v | e] s1];
    rewrite H, H'; [ | split; reflexivity ].
  split; [ reflexivity | ]. cbn [snd].
  rewrite !saveReports_preserves_reports. reflexivity.
Qed.

End UploadOutcomes.

Lemma disabled_store_is_final_witness :
  upload_route env_unconfigured world_ok (tagged_upload "h2" "b.pdf")
    (state_after env_unconfigured world_ok plain_upload
       (fresh_state (object [])))
  = (Returns (Json 500 (failure msg_store_not_configured)),
     state_after env_unconfigured world_ok plain_upload
       (fresh_state (object []))).
Proof.
  apply (disabled_store_is_final env_unconfigured world_ok plain_upload
           (tagged_upload "h2" "b.pdf") (fresh_state (object [])) pdf_file);
    reflexivity.
Defined.

(* ===================================================================== *)
(** ** Further theorems: the registry after an upload *)
(* ===================================================================== *)

Lemma has_own_false_lookup (k : string) (props : list (string * value)) :
  has_own k props = false -> lookup k props = None.
Proof. unfold has_own. destruct (lookup k props); [ discriminate | auto ]. Qed.

(** Reading back the key that was just assigned gives the record, whatever
    the key: an own property, a new one, or [__proto__] through the
    accessor. *)
Lemma get_set_report_record (p : value) (props : list (string * value))
    (k a b c d : string) :
  get (set (VObject p props) k (report_record a b c d)) k
  = report_record a b c d.
Proof.
  unfold set. destruct (has_own k props) eqn:Hown.
  - unfold get. cbn [get_from]. now rewrite lookup_replace_own.
  - destruct ((k =? "__proto__")%string && reaches_proto_accessor p) eqn:Hacc.
    + apply andb_prop in Hacc. destruct Hacc as [Hk _].
      apply String.eqb_eq in Hk. subst k.
      change (is_object_or_null (report_record a b c d)) with true.
      cbv iota. unfold get. cbn [get_from].
      rewrite (has_own_false_lookup _ _ Hown). reflexivity.
    + unfold get. cbn [get_from]. now rewrite lookup_snoc.
Qed.

(** Only [__proto__] looks at the receiver. *)
Lemma get_from_receiver (r r' cur : value) (k : string) :
  prototypeOf r = prototypeOf r' -> get_from r cur k = get_from r' cur k.
Proof.
  intros Hp. induction cur; cbn [get_from]; auto.
  - destruct (lookup k props); auto.
  - now rewrite Hp.
Qed.

Lemma nonempty_app_file (a b : string) : nonempty (a ++ "/file/" ++ b) = true.
Proof. destruct a; reflexivity. Qed.

Lemma fileUrl_of_nonempty (cfg : B2Config) (name : string) :
  nonempty (fileUrl_of cfg name) = true.
Proof. unfold fileUrl_of. apply nonempty_app_file. Qed.

(** *** The shape of a SHA-256 digest *)

Lemma round_length (st : list Z) (kw : Z * Z) :
  List.length (SHA256.round st kw) = List.length st.
Proof.
  unfold SHA256.round.
  do 9 (destruct st as [| ? st]; [ reflexivity | ]). reflexivity.
Qed.

Lemma fold_round_length (kws : list (Z * Z)) (st : list Z) :
  List.length (fold_left SHA256.round kws st) = List.length st.
Proof.
  revert st. induction kws as [| kw rest IH]; intros st; simpl; auto.
  now rewrite IH, round_length.
Qed.

Lemma compress_length (hash block : list Z) :
  List.length (SHA256.compress hash block) = List.length hash.
Proof.
  unfold SHA256.compress.
  rewrite length_map, length_combine, fold_round_length. apply Nat.min_id.
Qed.

Lemma fold_compress_length (bs : list (list Z)) (hash : list Z) :
  List.length (fold_left SHA256.compress bs hash) = List.length hash.
Proof.
  revert hash. induction bs as [| b rest IH]; intros hash; simpl; auto.
  now rewrite IH, compress_length.
Qed.

Lemma flat_map_bytes_length (ws : list Z) :
  List.length (flat_map SHA256.bytes_of_word ws) = (4 * List.length ws)%nat.
Proof. induction ws as [| w rest IH]; simpl in *; lia. Qed.

Lemma digest_length (msg : list Byte.byte) :
  List.length (SHA256.digest msg) = 32%nat.
Proof.
  unfold SHA256.digest. cbv zeta.
  now rewrite length_map, flat_map_bytes_length, fold_compress_length.
Qed.

Lemma hex_of_bytes_length (bytes : list Byte.byte) :
  String.length (hex_of_bytes bytes) = (2 * List.length bytes)%nat.
Proof. induction bytes as [| b rest IH]; simpl in *; lia. Qed.

Lemma hex_lower_is_lower_hex (k : nat) :
  (k < 16)%nat -> is_lower_hex (hex_lower k) = true.
Proof.
  intros H. do 16 (destruct k as [| k]; [ reflexivity | ]). lia.
Qed.

Lemma hex_of_bytes_lower_hex (bytes : list Byte.byte) :
  string_forallb is_lower_hex (hex_of_bytes bytes) = true.
Proof.
  induction bytes as [| b rest IH]; [ reflexivity | ].
  cbn [hex_of_bytes string_forallb]. rewrite IH.
  pose proof (Byte.to_nat_bounded b) as Hb.
  rewrite !hex_lower_is_lower_hex; auto.
  - apply Nat.mod_upper_bound. lia.
  - apply Nat.Div0.div_lt_upper_bound. lia.
Qed.

Lemma computedHash_nonempty (file : File) :
  nonempty (computedHash file) = true.
Proof.
  unfold computedHash.
  pose proof (hex_of_bytes_length (sha256 (buffer file))) as H.
  unfold sha256 in *. rewrite digest_length in H.
  destruct (hex_of_bytes (SHA256.digest (buffer file)));
    [ simpl in H; lia | reflexivity ].
Qed.

Lemma hash_of_nonempty (req : UploadRequest) (file : File) (hash : string) :
  hash_of req file = Returns hash -> nonempty hash = true.
Proof.
  unfold hash_of.
  destruct (providedHash req) as [[h | ] | e]; cbn [obind];
    try discriminate; intros H; injection H as <-.
  - unfold or_string. destruct (nonempty h) eqn:E; [ exact E | ].
    apply computedHash_nonempty.
  - apply computedHash_nonempty.
Qed.

(** X4. The key the server computes for a file is always sixty-four
    characters long and made of the digits [0-9] and the letters [a-f]
    only. *)
Theorem computedHash_shape (file : File) :
  String.length (computedHash file) = 64%nat
  /\ string_forallb is_lower_hex (computedHash file) = true.
Proof.
  unfold computedHash, sha256. split.
  - now rewrite hex_of_bytes_length, digest_length.
  - apply hex_of_bytes_lower_hex.
Qed.

Section RegistryAfterUpload.

Variable env : Environment.
Variable world : World.

(** X5. What was uploaded can be fetched: after an upload answered with
    200, [GET /file] with the [hash] of the answer redirects (302) to the
    [fileUrl] of the answer, and [GET /verify] with that hash shows the
    file as authentic, under the [fileName] and [fileUrl] of the answer.
    This holds for every key the caller may have chosen. *)
Theorem uploaded_file_is_served (req : UploadRequest) (s : State)
    (body p : value) (props : list (string * value)) :
  fst (upload_route env world req s) = Returns (Json 200 body) ->
  reports s = VObject p props ->
  exists hash fileName fileUrl,
    get body "hash" = VString hash
    /\ get body "fileName" = VString fileName
    /\ get body "fileUrl" = VString fileUrl
    /\ file_route (reports (state_after env world req s)) (Some hash)
       = Returns (Redirect 302 (VString fileUrl))
    /\ verify_route (reports (state_after env world req s)) (Some hash)
       = Returns (Html (Authentic hash (VString fileName) (VString fileUrl))).
Proof.
  intros Hok Hobj. unfold state_after.
  destruct (upload_route_success env world req s body Hok)
    as (file & cfg & createdAt & hash & targetName & _ & _ & _ & Hhash & _
        & Hbody & Hrep).
  rewrite Hrep, Hobj. subst body.
  pose proof (hash_of_nonempty req file hash Hhash) as Hne.
  pose proof (fileUrl_of_nonempty cfg targetName) as Hu.
  exists hash, targetName, (fileUrl_of cfg targetName).
  repeat split.
  - unfold file_route. rewrite Hne, get_set_report_record.
    cbn -[fileUrl_of]. unfold nonempty in Hu. now rewrite Hu.
  - unfold verify_route. rewrite Hne, get_set_report_record.
    cbn -[fileUrl_of]. unfold nonempty in Hu. now rewrite Hu.
Qed.

(** X6. An upload leaves every other record alone: whatever the answer,
    a key other than the [hash] of the answer reads the same from the
    registry before and after, as long as that hash is not [__proto__]. *)
Theorem upload_keeps_other_records (req : UploadRequest) (s : State)
    (status : Z) (body p : value) (props : list (string * value))
    (k : string) :
  fst (upload_route env world req s) = Returns (Json status body) ->
  reports s = VObject p props ->
  get body "hash" <> VString k ->
  get body "hash" <> VString "__proto__" ->
  get (reports (state_after env world req s)) k = get (reports s) k.
Proof.
  intros Hans Hobj Hk Hproto. unfold state_after.
  destruct (Z.eq_dec status 200) as [-> | Hst].
  - destruct (upload_route_success env world req s body Hans)
      as (file & cfg & createdAt & hash & targetName & _ & _ & _ & _ & _
          & Hbody & Hrep).
    subst body. rewrite Hrep, Hobj.
    assert (Hne : k <> hash).
    { intros ->. now apply Hk. }
    assert (Hnp : (hash =? "__proto__")%string = false).
    { apply String.eqb_neq. intros E. apply Hproto. now rewrite E. }
    destruct (set_ordinary_key p props hash
                (report_record targetName (fileUrl_of cfg targetName)
                   (mimeType_of file) createdAt) Hnp)
      as (props' & -> & _ & Hold).
    unfold get. cbn [get_from]. rewrite (Hold k Hne).
    destruct (lookup k props); auto.
    now apply get_from_receiver.
  - now rewrite (upload_refused_keeps_registry env world req s status body
                   Hans Hst).
Qed.

Section Listing.

Variable Date_parse : string -> number.

(** X7. A caller who names the key [__proto__] gets a 200 and the file is
    served under that key, but the record is no entry of the registry: it
    has become the registry's prototype, so the list of [/api/reports] is
    what it was before the upload. *)
Theorem proto_key_is_not_listed (req : UploadRequest) (s : State)
    (body : value) (props : list (string * value)) :
  fst (upload_route env world req s) = Returns (Json 200 body) ->
  providedHash req = Returns (Some "__proto__") ->
  reports s = VObject VObjectPrototype props ->
  has_own "__proto__" props = false ->
  file_route (reports (state_after env world req s)) (Some "__proto__")
  = Returns (Redirect 302 (get body "fileUrl"))
  /\ Object_entries (reports (state_after env world req s))
     = Object_entries (reports s)
  /\ api_reports_route Date_parse (reports (state_after env world req s))
     = api_reports_route Date_parse (reports s).
Proof.
  intros Hok Hhash Hobj Hown. unfold state_after.
  destruct (upload_route_success env world req s body Hok)
    as (file & cfg & createdAt & hash & targetName & _ & _ & _ & Hh & _
        & Hbody & Hrep).
  unfold hash_of in Hh. rewrite Hhash in Hh. cbn in Hh.
  injection Hh as <-. subst body.
  assert (Hentries :
            Object_entries (reports (snd (upload_route env world req s)))
            = Object_entries (reports s)).
  { rewrite Hrep, Hobj. unfold set. rewrite Hown. reflexivity. }
  repeat split.
  - rewrite Hrep, Hobj. unfold file_route.
    rewrite get_set_report_record. cbn -[fileUrl_of].
    pose proof (fileUrl_of_nonempty cfg targetName) as Hu.
    unfold nonempty in Hu. now rewrite Hu.
  - exact Hentries.
  - unfold api_reports_route, reports_list. now rewrite Hentries.
Qed.

End Listing.

End RegistryAfterUpload.

Lemma uploaded_file_is_served_witness :
  exists hash fileName fileUrl,
    file_route
      (reports (state_after env_configured world_ok
                  (tagged_upload "constructor" "a/b c.pdf")
                  (fresh_state (object []))))
      (Some hash)
    = Returns (Redirect 302 (VString fileUrl))
    /\ verify_route
         (reports (state_after env_configured world_ok
                     (tagged_upload "constructor" "a/b c.pdf")
                     (fresh_state (object []))))
         (Some hash)
       = Returns (Html (Authentic hash (VString fileName) (VString fileUrl))).
Proof.
  destruct (uploaded_file_is_served env_configured world_ok
              (tagged_upload "constructor" "a/b c.pdf")
              (fresh_state (object [])) _ VObjectPrototype []
              eq_refl eq_refl)
    as (hash & fileName & fileUrl & _ & _ & _ & Hf & Hv).
  exists hash, fileName, fileUrl. split; assumption.
Defined.

Lemma upload_keeps_other_records_witness :
  get (reports (state_after env_configured world_ok
                  (tagged_upload "h2" "b.pdf")
                  (fresh_state registry_dated)))
    "second"
  = get registry_dated "second".
Proof.
  refine (upload_keeps_other_records env_configured world_ok
            (tagged_upload "h2" "b.pdf") (fresh_state registry_dated)
            200 _ VObjectPrototype _ "second" eq_refl eq_refl _ _);
    discriminate.
Defined.

Lemma proto_key_is_not_listed_witness :
  file_route
    (reports (state_after env_configured world_ok
                (tagged_upload "__proto__" "b.pdf")
                (fresh_state registry_dated)))
    (Some "__proto__")
  = Returns
      (Redirect 302
         (VString "https://f000.backblazeb2.com/file/reports/b.pdf"))
  /\ Object_entries
       (reports (state_after env_configured world_ok
                   (tagged_upload "__proto__" "b.pdf")
                   (fresh_state registry_dated)))
     = Object_entries registry_dated.
Proof.
  destruct (proto_key_is_not_listed env_configured world_ok
              Date_parse_standard (tagged_upload "__proto__" "b.pdf")
              (fresh_state registry_dated) _ _
              eq_refl eq_refl eq_refl eq_refl)
    as (Hf & He & _).
  split; [ exact Hf | exact He ].
Defined.

(* ===================================================================== *)
(** ** Further theorems: the B2 session *)
(* ===================================================================== *)

Section SessionMore.

Variable env : Environment.
Variable world : World.

(** What a forced handshake does to a state with no handshake in flight. *)
Lemma ensureB2Authorized_forced (s : State) :
  credentials_configured env = true ->
  b2AuthPromise s = None ->
  exists s1,
    ensureB2Authorized env world true s
    = (authorize_result world (trace s ++ [B2_authorize]), s1)
    /\ trace s1 = (trace s ++ [B2_authorize])%list
    /\ b2AuthPromise s1 = None
    /\ b2 s1 = true
    /\ reports s1 = reports s
    /\ b2InitPromise s1 = b2InitPromise s
    /\ b2Config s1 = b2Config s
    /\ match authorize_result world (trace s ++ [B2_authorize]) with
       | Returns auth =>
           b2LastAuthResponse s1 = Some auth
           /\ b2LastAuthAt s1 = Date_now world (S (clock_reads s))
           /\ clock_reads s1 = S (S (clock_reads s))
       | Throws _ =>
           b2LastAuthResponse s1 = b2LastAuthResponse s
           /\ b2LastAuthAt s1 = b2LastAuthAt s
           /\ clock_reads s1 = S (clock_reads s)
       end.
Proof.
  unfold credentials_configured. intros Hc Hq.
  apply andb_true_iff in Hc as [Hk Hk'].
  unfold ensureB2Authorized. rewrite Hk, Hk'. simpl.
  unfold bind, now, read. simpl. rewrite Hq.
  destruct (b2 s) eqn:Hb2;
    unfold modify, settle, external, try_finally, await, ret; simpl;
    destruct (authorize_result world (trace s ++ [B2_authorize])); simpl;
    eexists; (split; [ reflexivity | ]); simpl; repeat split; auto.
Qed.

(** A call that is not forced, on a state with a session on record. *)
Lemma ensureB2Authorized_cached (s : State) (auth : AuthResponse) :
  credentials_configured env = true ->
  b2LastAuthResponse s = Some auth ->
  b2LastAuthAt s <> 0 ->
  Date_now world (clock_reads s) - b2LastAuthAt s < B2_AUTH_TTL_MS ->
  ensureB2Authorized env world false s
  = (Returns auth, set_clock_reads (S (clock_reads s)) s).
Proof.
  unfold credentials_configured. intros Hc Hr Hat Httl.
  apply andb_true_iff in Hc as [Hk Hk'].
  unfold ensureB2Authorized. rewrite Hk, Hk'. simpl.
  unfold bind, now, read. simpl.
  apply Z.eqb_neq in Hat. apply Z.ltb_lt in Httl.
  rewrite Hat, Httl, Hr. reflexivity.
Qed.

Lemma ensureB2Authorized_needs_credentials (force : bool) (s : State)
    (auth : AuthResponse) :
  fst (ensureB2Authorized env world force s) = Returns auth ->
  credentials_configured env = true.
Proof.
  unfold ensureB2Authorized, credentials_configured.
  destruct (nonempty (b2KeyId env)), (nonempty (b2AppKey env)); simpl;
    auto; discriminate.
Qed.

(** X8. A session obtained by a handshake is reused: the time of the
    handshake is read from the clock when B2 has answered, and a later call
    that is not forced, made less than twenty-three hours after that time,
    returns the same session without calling B2. *)
Theorem handshake_then_reuse (s : State) (auth : AuthResponse) :
  b2AuthPromise s = None ->
  fst (ensureB2Authorized env world true s) = Returns auth ->
  b2LastAuthAt (snd (ensureB2Authorized env world true s)) <> 0 ->
  Date_now world (clock_reads (snd (ensureB2Authorized env world true s)))
  - b2LastAuthAt (snd (ensureB2Authorized env world true s))
  < 82800000 ->
  b2LastAuthAt (snd (ensureB2Authorized env world true s))
  = Date_now world (S (clock_reads s))
  /\ ensureB2Authorized env world false
       (snd (ensureB2Authorized env world true s))
     = (Returns auth,
        set_clock_reads
          (S (clock_reads (snd (ensureB2Authorized env world true s))))
          (snd (ensureB2Authorized env world true s))).
Proof.
  intros Hq Hok.
  pose proof (ensureB2Authorized_needs_credentials true s auth Hok) as Hc.
  destruct (ensureB2Authorized_forced s Hc Hq)
    as (s1 & E & _ & _ & _ & _ & _ & _ & H).
  rewrite E in *. cbn [fst snd] in *. rewrite Hok in H.
  destruct H as (Hr & Hat & _). intros Hnz Httl.
  split; [ exact Hat | ].
  now apply ensureB2Authorized_cached.
Qed.

(** X9. A handshake that fails does not cost the server the session it
    had: the session on record and its time stay as they were and no
    handshake is left pending, so a later call that is not forced, still
    within twenty-three hours of the old handshake, returns the old
    session without calling B2. *)
Theorem failed_handshake_keeps_session (s : State) (old : AuthResponse)
    (e : value) :
  b2AuthPromise s = None ->
  credentials_configured env = true ->
  fst (ensureB2Authorized env world true s) = Throws e ->
  b2LastAuthResponse s = Some old ->
  b2LastAuthAt s <> 0 ->
  Date_now world (S (clock_reads s)) - b2LastAuthAt s < 82800000 ->
  b2AuthPromise (snd (ensureB2Authorized env world true s)) = None
  /\ ensureB2Authorized env world false
       (snd (ensureB2Authorized env world true s))
     = (Returns old,
        set_clock_reads (S (S (clock_reads s)))
          (snd (ensureB2Authorized env world true s))).
Proof.
  intros Hq Hc Hfail Hold Hnz Httl.
  destruct (ensureB2Authorized_forced s Hc Hq)
    as (s1 & E & _ & Hq1 & _ & _ & _ & _ & H).
  rewrite E in *. cbn [fst snd] in *. rewrite Hfail in H.
  destruct H as (Hr & Hat & Hclock).
  split; [ exact Hq1 | ].
  rewrite <- Hclock.
  apply ensureB2Authorized_cached; auto; try congruence.
  now rewrite Hat, Hclock.
Qed.

(** X10. A session is too old at twenty-three hours sharp: a call that is
    not forced, on a state with no handshake in flight, calls B2 if and
    only if there is no session on record, or its time is zero, or at
    least 82800000 milliseconds have passed since. *)
Theorem session_expires_at_ttl (s : State) :
  credentials_configured env = true ->
  b2AuthPromise s = None ->
  (trace (snd (ensureB2Authorized env world false s))
   = (trace s ++ [B2_authorize])%list
   /\ (b2LastAuthResponse s = None
       \/ b2LastAuthAt s = 0
       \/ 82800000 <= Date_now world (clock_reads s) - b2LastAuthAt s))
  \/ (exists auth,
        b2LastAuthResponse s = Some auth
        /\ fst (ensureB2Authorized env world false s) = Returns auth
        /\ trace (snd (ensureB2Authorized env world false s)) = trace s
        /\ b2LastAuthAt s <> 0
        /\ Date_now world (clock_reads s) - b2LastAuthAt s < 82800000).
Proof.
  unfold credentials_configured. intros Hc Hq.
  apply andb_true_iff in Hc as [Hk Hk'].
  unfold ensureB2Authorized. rewrite Hk, Hk'. simpl.
  unfold bind, now, read. simpl.
  change B2_AUTH_TTL_MS with 82800000.
  destruct (Z.eqb_spec (b2LastAuthAt s) 0) as [Hz | Hz]; simpl.
  - left. rewrite Hq.
    destruct (b2 s); unfold modify, settle, external, try_finally, await, ret;
      simpl; destruct (authorize_result world _); simpl; auto.
  - destruct (Z.ltb_spec (Date_now world (clock_reads s) - b2LastAuthAt s)
                82800000) as [Hlt | Hge].
    + destruct (b2LastAuthResponse s) as [auth | ] eqn:Hr.
      * right. exists auth. simpl. auto.
      * left. rewrite Hq.
        destruct (b2 s);
          unfold modify, settle, external, try_finally, await, ret;
          simpl; destruct (authorize_result world _); simpl; auto.
    + left. rewrite Hq.
      destruct (b2 s);
        unfold modify, settle, external, try_finally, await, ret;
        simpl; destruct (authorize_result world _); simpl; auto.
Qed.

Lemma attempt_extends_trace (cfg : B2Config) (name : string)
    (buf : list Byte.byte) (mime : string) (force : bool) :
  emits no_write (attempt env world cfg name buf mime force).
Proof. unfold attempt, ensureB2Authorized. repeat emits_step. Qed.

(** An attempt that succeeds ends with the fetch of an upload URL and the
    upload to it. *)
Lemma attempt_success (cfg : B2Config) (name : string)
    (buf : list Byte.byte) (mime : string) (force : bool) (s s' : State)
    (v : value) :
  attempt env world cfg name buf mime force s = (Returns v, s') ->
  exists pre resp d,
    trace s'
    = (trace s ++ pre
       ++ [B2_getUploadUrl (bucketId cfg);
           B2_uploadFile (uploadUrl d) (authorizationToken d) name buf
             mime])%list
    /\ getUploadUrl_result world
         (trace s ++ pre ++ [B2_getUploadUrl (bucketId cfg)])
       = Returns resp
    /\ uploadUrl_data resp = Some d
    /\ uploadFile_result world (trace s') = Returns v.
Proof.
  unfold attempt, bind.
  assert (Hpre : emits no_write (ensureB2Authorized env world force))
    by (unfold ensureB2Authorized; repeat emits_step).
  destruct (Hpre s) as (pre & Ht & _).
  destruct (ensureB2Authorized env world force s) as [[auth | e] s1];
    [ | discriminate ].
  simpl in Ht. unfold b2_call, bind, read. simpl.
  destruct (b2 s1) eqn:Hb2; [ | discriminate ].
  unfold external at 1. simpl.
  destruct (getUploadUrl_result world
              (trace s1 ++ [B2_getUploadUrl (bucketId cfg)]))
    as [resp | e] eqn:Hg; [ | discriminate ].
  simpl. destruct (uploadUrl_data resp) as [d | ] eqn:Hd; [ | discriminate ].
  simpl. rewrite Hb2. unfold external. simpl.
  intros H. injection H as Hv <-. simpl.
  exists pre, resp, d. rewrite Ht in *.
  rewrite <- !app_assoc in *. simpl in *. auto.
Qed.

(** X11. An upload to B2 that succeeds ends with two calls: the fetch of an
    upload URL for the bucket of the configuration, then the upload itself,
    sent to the URL and with the token that this fetch returned, carrying
    the name, the bytes and the media type it was given; what that last
    call returned is the result. *)
Theorem upload_goes_where_b2_said (cfg : B2Config) (name : string)
    (buf : list Byte.byte) (mime : string) (s : State) (v : value) :
  fst (uploadFileToB2 env world cfg name buf mime s) = Returns v ->
  exists pre resp d,
    trace (snd (uploadFileToB2 env world cfg name buf mime s))
    = (trace s ++ pre
       ++ [B2_getUploadUrl (bucketId cfg);
           B2_uploadFile (uploadUrl d) (authorizationToken d) name buf
             mime])%list
    /\ getUploadUrl_result world
         (trace s ++ pre ++ [B2_getUploadUrl (bucketId cfg)])
       = Returns resp
    /\ uploadUrl_data resp = Some d
    /\ uploadFile_result world
         (trace (snd (uploadFileToB2 env world cfg name buf mime s)))
       = Returns v.
Proof.
  unfold uploadFileToB2, try_catch.
  destruct (attempt_extends_trace cfg name buf mime false s)
    as (d1 & Ht1 & _).
  destruct (attempt env world cfg name buf mime false s) as [[v0 | e] s1]
    eqn:E1; simpl in Ht1.
  - simpl. intros H. injection H as <-.
    exact (attempt_success cfg name buf mime false s s1 v0 E1).
  - unfold bind, lift.
    destruct (isExpiredAuthError e) as [[ | ] | e']; try discriminate.
    unfold console_warn, modify. simpl.
    match goal with
    | |- context [attempt env world cfg name buf mime true ?s2] =>
        remember s2 as s2' eqn:Hs2;
        destruct (attempt env world cfg name buf mime true s2')
          as [[v1 | e1] s3] eqn:E2
    end; [ | discriminate ].
    simpl. intros H. injection H as <-.
    destruct (attempt_success cfg name buf mime true s2' s3 v1 E2)
      as (pre & resp & d & Ht & Hg & Hd & Hu).
    assert (Ht2 : trace s2'
                  = (trace s
                     ++ d1
                     ++ [Console_warn
                           "B2 auth token expired, re-authorizing and retrying upload"])%list).
    { subst s2'. simpl. now rewrite Ht1, <- app_assoc. }
    rewrite Ht2 in Ht, Hg.
    exists ((d1 ++ [Console_warn
                      "B2 auth token expired, re-authorizing and retrying upload"])
            ++ pre)%list, resp, d.
    rewrite <- !app_assoc in *. simpl in *. auto.
Qed.

End SessionMore.

Lemma handshake_then_reuse_witness :
  ensureB2Authorized env_configured world_ok false
    (snd (ensureB2Authorized env_configured world_ok true
            (fresh_state (object []))))
  = (Returns session_old,
     set_clock_reads 3
       (snd (ensureB2Authorized env_configured world_ok true
               (fresh_state (object []))))).
Proof.
  apply (handshake_then_reuse env_configured world_ok
           (fresh_state (object [])) session_old);
    try reflexivity.
  vm_compute. discriminate.
Defined.

Lemma failed_handshake_keeps_session_witness :
  ensureB2Authorized env_configured world_key_rejected false
    (snd (ensureB2Authorized env_configured world_key_rejected true
            state_with_session))
  = (Returns session_old,
     set_clock_reads 2
       (snd (ensureB2Authorized env_configured world_key_rejected true
               state_with_session))).
Proof.
  apply (failed_handshake_keeps_session env_configured world_key_rejected
           state_with_session session_old err401);
    try reflexivity.
  vm_compute. discriminate.
Defined.

Lemma session_expires_at_ttl_witness :
  trace (snd (ensureB2Authorized env_configured world_ok false
                state_with_expired_session))
  = [B2_authorize]
  /\ trace (snd (ensureB2Authorized env_configured world_ok false
                   state_with_session))
     = [].
Proof.
  split.
  - destruct (session_expires_at_ttl env_configured world_ok
                state_with_expired_session eq_refl eq_refl)
      as [(Ht & _) | (auth & _ & _ & _ & _ & Hlt)].
    + exact Ht.
    + vm_compute in Hlt. discriminate.
  - destruct (session_expires_at_ttl env_configured world_ok
                state_with_session eq_refl eq_refl)
      as [(_ & [Hn | [Hz | Hge]]) | (auth & _ & _ & Ht & _)].
    + discriminate.
    + discriminate.
    + exfalso. vm_compute in Hge. now apply Hge.
    + exact Ht.
Defined.

Lemma upload_goes_where_b2_said_witness :
  exists pre,
    trace (snd (uploadFileToB2 env_configured world_ok cfg_ready "a.pdf"
                  (buffer pdf_file) "application/pdf" state_with_session))
    = (pre
       ++ [B2_getUploadUrl (Some "bucket-1");
           B2_uploadFile "https://pod/upload" "tok" "a.pdf"
             (buffer pdf_file) "application/pdf"])%list.
Proof.
  destruct (upload_goes_where_b2_said env_configured world_ok cfg_ready
              "a.pdf" (buffer pdf_file) "application/pdf" state_with_session
              (object []) eq_refl)
    as (pre & resp & d & Ht & Hg & Hd & _).
  exists pre. rewrite Ht. simpl in Hg. injection Hg as <-.
  simpl in Hd. injection Hd as <-. reflexivity.
Defined.


(* ===================================================================== *)
(** ** Further theorems: how the store comes up *)
(* ===================================================================== *)

Section ReadyMore.

Variable env : Environment.
Variable world : World.

Lemma ensureB2Ready_first (s : State) :
  b2InitPromise s = None ->
  forall cfg s1, b2Init env world s = (Returns cfg, s1) ->
  ensureB2Ready env world s = (Returns cfg, set_b2InitPromise (Some cfg) s1).
Proof.
  intros E cfg s1 Hi.
  unfold ensureB2Ready, bind, read, try_catch. simpl.
  now rewrite E, Hi.
Qed.

(** X12. With the key, the bucket id and the bucket name all configured,
    the store comes up with one call to B2, the handshake: the id and the
    name are taken from the environment as they are, and the public base
    is the configured override or, without one, the download URL of the
    handshake. *)
Theorem ready_with_configured_bucket (s : State) (auth : AuthResponse) :
  b2InitPromise s = None ->
  b2AuthPromise s = None ->
  credentials_configured env = true ->
  nonempty (b2BucketIdEnv env) = true ->
  nonempty (b2BucketNameEnv env) = true ->
  authorize_result world (trace s ++ [B2_authorize]) = Returns auth ->
  fst (ensureB2Ready env world s)
  = Returns {| enabled := true; bucketId := Some (b2BucketIdEnv env);
               bucketName := Some (b2BucketNameEnv env);
               publicBaseUrl := base_of env auth |}
  /\ trace (snd (ensureB2Ready env world s))
     = (trace s ++ [B2_authorize])%list.
Proof.
  intros E Hq Hc Hid Hname Ha.
  destruct (ensureB2Authorized_forced env world s Hc Hq)
    as (s1 & E1 & Ht1 & _).
  rewrite Ha in E1.
  assert (Hi : exists s2,
             b2Init env world s
             = (Returns {| enabled := true;
                           bucketId := Some (b2BucketIdEnv env);
                           bucketName := Some (b2BucketNameEnv env);
                           publicBaseUrl := base_of env auth |}, s2)
             /\ trace s2 = trace s1).
  { unfold credentials_configured in Hc.
    apply andb_true_iff in Hc as [Hk Hk'].
    unfold b2Init. rewrite Hk, Hk', Hid, Hname. simpl.
    unfold bind at 1. rewrite E1.
    unfold bind, modify, read, ret. simpl. eauto. }
  destruct Hi as (s2 & Hi & Ht2).
  rewrite (ensureB2Ready_first s E _ _ Hi). simpl.
  split; [ reflexivity | congruence ].
Qed.

(** X13. With only the id or only the name of the bucket configured, the
    server asks B2 for the list of buckets first; when the bucket is on the
    list, the first entry that matches gives the id and the name, and the
    single-bucket lookup is not made. *)
Theorem discovery_uses_listing_first (s : State) (auth : AuthResponse)
    (d : AuthData) (buckets : list Bucket) (list : ListBucketsResponse)
    (b : Bucket) :
  b2InitPromise s = None ->
  b2AuthPromise s = None ->
  storage_configured env = true ->
  nonempty (b2BucketIdEnv env) && nonempty (b2BucketNameEnv env) = false ->
  authorize_result world (trace s ++ [B2_authorize]) = Returns auth ->
  auth_data auth = Some d ->
  listBuckets_result world
    (trace s ++ [B2_authorize; B2_listBuckets (accountId d)])
  = Returns list ->
  list_data list = Some (Some buckets) ->
  find (wanted env) buckets = Some b ->
  fst (ensureB2Ready env world s)
  = Returns {| enabled := true; bucketId := Some (bucket_id b);
               bucketName := Some (bucket_name b);
               publicBaseUrl := base_of env auth |}
  /\ trace (snd (ensureB2Ready env world s))
     = (trace s ++ [B2_authorize; B2_listBuckets (accountId d)])%list.
Proof.
  intros E Hq Hs Hboth Ha Hd Hl Hbs Hfind.
  pose proof (storage_needs_credentials env Hs) as Hc.
  destruct (ensureB2Authorized_forced env world s Hc Hq)
    as (s1 & E1 & Ht1 & _ & Hb2 & _).
  rewrite Ha in E1.
  assert (Hi : exists s2,
             b2Init env world s
             = (Returns {| enabled := true; bucketId := Some (bucket_id b);
                           bucketName := Some (bucket_name b);
                           publicBaseUrl := base_of env auth |}, s2)
             /\ trace s2
                = (trace s1 ++ [B2_listBuckets (accountId d)])%list).
  { unfold storage_configured in Hs. rewrite Hc in Hs. simpl in Hs.
    unfold credentials_configured in Hc.
    apply andb_true_iff in Hc as [Hk Hk'].
    unfold b2Init. rewrite Hk, Hk'. simpl.
    unfold wanted in Hfind. unfold base_of.
    rewrite Ht1, <- app_assoc in *. simpl in Hl.
    destruct (nonempty (b2BucketIdEnv env)),
      (nonempty (b2BucketNameEnv env));
      simpl in Hs, Hboth; try discriminate; simpl;
      unfold bind at 1; rewrite E1;
      unfold try_catch, b2_call, bind, read, external, modify, ret; simpl;
      rewrite Hd; simpl; rewrite Hb2; simpl;
      rewrite Ht1, <- app_assoc; simpl; rewrite Hl; simpl;
      rewrite Hbs, Hfind; simpl; eexists; split; try reflexivity;
      simpl; now rewrite Ht1, <- app_assoc. }
  destruct Hi as (s2 & Hi & Ht2).
  rewrite (ensureB2Ready_first s E _ _ Hi). simpl.
  split; [ reflexivity | ].
  rewrite Ht2, Ht1, <- app_assoc. reflexivity.
Qed.

(** X14. When the list of buckets cannot be had, or does not hold the
    bucket, the server looks the one bucket up, by id when an id is
    configured and by name otherwise, and takes as id and name the
    [bucketId] and the [bucketName] it reads from the [data] of the answer,
    without looking at them: the store comes up enabled also when [data]
    has neither, as with the list payload the client resolves with, and the
    configuration then holds [undefined] for both. *)
Theorem discovery_falls_back_to_lookup (s : State) (auth : AuthResponse)
    (d : AuthData) (gb : GetBucketResponse) (data : GetBucketData) :
  b2InitPromise s = None ->
  b2AuthPromise s = None ->
  storage_configured env = true ->
  nonempty (b2BucketIdEnv env) && nonempty (b2BucketNameEnv env) = false ->
  authorize_result world (trace s ++ [B2_authorize]) = Returns auth ->
  auth_data auth = Some d ->
  match listBuckets_result world
          (trace s ++ [B2_authorize; B2_listBuckets (accountId d)]) with
  | Returns list =>
      find (wanted env)
        match list_data list with
        | Some (Some buckets) => buckets
        | _ => []
        end
      = None
  | Throws _ => True
  end ->
  getBucket_result world
    (trace s ++ [B2_authorize; B2_listBuckets (accountId d);
                 lookup_event env])
  = Returns gb ->
  gb_data gb = Some data ->
  fst (ensureB2Ready env world s)
  = Returns {| enabled := true; bucketId := gb_bucketId data;
               bucketName := gb_bucketName data;
               publicBaseUrl := base_of env auth |}
  /\ trace (snd (ensureB2Ready env world s))
     = (trace s ++ [B2_authorize; B2_listBuckets (accountId d);
                    lookup_event env])%list.
Proof.
  intros E Hq Hs Hboth Ha Hd Hl Hg Hb.
  pose proof (storage_needs_credentials env Hs) as Hc.
  destruct (ensureB2Authorized_forced env world s Hc Hq)
    as (s1 & E1 & Ht1 & _ & Hb2 & _).
  rewrite Ha in E1.
  assert (Hi : exists s2,
             b2Init env world s
             = (Returns {| enabled := true; bucketId := gb_bucketId data;
                           bucketName := gb_bucketName data;
                           publicBaseUrl := base_of env auth |}, s2)
             /\ trace s2
                = (trace s1 ++ [B2_listBuckets (accountId d);
                                lookup_event env])%list).
  { unfold storage_configured in Hs. rewrite Hc in Hs. simpl in Hs.
    unfold credentials_configured in Hc.
    apply andb_true_iff in Hc as [Hk Hk'].
    unfold b2Init. rewrite Hk, Hk'. simpl.
    unfold wanted in Hl. unfold lookup_event in *. unfold base_of.
    destruct (nonempty (b2BucketIdEnv env)),
      (nonempty (b2BucketNameEnv env));
      simpl in Hs, Hboth; try discriminate; simpl;
      unfold bind at 1; rewrite E1;
      unfold try_catch, b2_call, bind, read, external, modify, ret; simpl;
      rewrite Hd; simpl; rewrite Hb2; simpl;
      rewrite Ht1, <- app_assoc; simpl;
      destruct (listBuckets_result world _) as [list | e]; simpl;
      rewrite ?Hl; simpl; rewrite ?Hb2; simpl;
      rewrite ?Ht1, <- ?app_assoc; simpl; rewrite Hg; simpl;
      unfold found_in; rewrite Hb; simpl; eexists; split; try reflexivity; simpl;
      rewrite ?Ht1, <- ?app_assoc; reflexivity. }
  destruct Hi as (s2 & Hi & Ht2).
  rewrite (ensureB2Ready_first s E _ _ Hi). simpl.
  split; [ reflexivity | ].
  rewrite Ht2, Ht1, <- app_assoc. reflexivity.
Qed.

End ReadyMore.

Lemma ready_with_configured_bucket_witness :
  fst (ensureB2Ready env_configured world_ok (fresh_state (object [])))
  = Returns cfg_ready
  /\ trace (snd (ensureB2Ready env_configured world_ok
                   (fresh_state (object []))))
     = [B2_authorize].
Proof.
  exact (ready_with_configured_bucket env_configured world_ok
           (fresh_state (object [])) session_old
           eq_refl eq_refl eq_refl eq_refl eq_refl eq_refl).
Defined.

Lemma discovery_uses_listing_first_witness :
  fst (ensureB2Ready env_name_only world_listing (fresh_state (object [])))
  = Returns {| enabled := true; bucketId := Some "bucket-1";
               bucketName := Some "reports";
               publicBaseUrl := "https://cdn.example/" |}
  /\ trace (snd (ensureB2Ready env_name_only world_listing
                   (fresh_state (object []))))
     = [B2_authorize; B2_listBuckets "acct"].
Proof.
  exact (discovery_uses_listing_first env_name_only world_listing
           (fresh_state (object [])) session_old
           {| downloadUrl := "https://f000.backblazeb2.com";
              accountId := "acct" |}
           [bucket_other; bucket_reports]
           {| list_data := Some (Some [bucket_other; bucket_reports]) |}
           bucket_reports
           eq_refl eq_refl eq_refl eq_refl eq_refl eq_refl eq_refl eq_refl
           eq_refl).
Defined.

Lemma discovery_falls_back_to_lookup_witness :
  fst (ensureB2Ready env_name_only world_restricted_key
         (fresh_state (object [])))
  = Returns {| enabled := true; bucketId := None; bucketName := None;
               publicBaseUrl := "https://cdn.example/" |}
  /\ trace (snd (ensureB2Ready env_name_only world_restricted_key
                   (fresh_state (object []))))
     = [B2_authorize; B2_listBuckets "acct"; B2_getBucket_byName "reports"].
Proof.
  exact (discovery_falls_back_to_lookup env_name_only world_restricted_key
           (fresh_state (object [])) session_old
           {| downloadUrl := "https://f000.backblazeb2.com";
              accountId := "acct" |}
           {| gb_data := Some {| gb_bucketId := None;
                                 gb_bucketName := None |} |}
           {| gb_bucketId := None; gb_bucketName := None |}
           eq_refl eq_refl eq_refl eq_refl eq_refl eq_refl I eq_refl
           eq_refl).
Defined.

(* ===================================================================== *)
(** ** Further theorems: start-up, the read routes and the public URL *)
(* ===================================================================== *)

Section StartupMore.

Variable world : World.
Variable JSON_parse : string -> outcome value.

Lemma loadReports_run (s : State) :
  exists v s1,
    loadReports world JSON_parse s = (Returns v, s1)
    /\ trace s1 = (trace s ++ [Fs_readFile])%list
    /\ truthy v = true /\ typeof v = "object"
    /\ (forall raw parsed,
          readFile_result world (trace s ++ [Fs_readFile]) = Returns raw ->
          JSON_parse raw = Returns parsed ->
          truthy parsed && (typeof parsed =? "object")%string = true ->
          v = parsed /\ clock_reads s1 = clock_reads s).
Proof.
  unfold loadReports, bind, try_catch, external, lift, now_iso, ret. simpl.
  destruct (readFile_result world (trace s ++ [Fs_readFile])) as [raw | e];
    simpl.
  - destruct (JSON_parse raw) as [parsed | e] eqn:Hj; simpl.
    + destruct (truthy parsed && (typeof parsed =? "object")%string) eqn:Hok;
        simpl.
      * apply andb_true_iff in Hok as [Ht Ho]. apply String.eqb_eq in Ho.
        do 2 eexists. split; [ reflexivity | ]. simpl.
        split; [ reflexivity | ]. split; [ exact Ht | ].
        split; [ exact Ho | ].
        intros raw' parsed' Hraw Hp _. injection Hraw as <-.
        rewrite Hj in Hp. injection Hp as <-. split; reflexivity.
      * do 2 eexists. split; [ reflexivity | ]. simpl.
        do 3 (split; [ reflexivity | ]).
        intros raw' parsed' Hraw Hp Hok'. injection Hraw as <-.
        rewrite Hj in Hp. injection Hp as <-. congruence.
    + do 2 eexists. split; [ reflexivity | ]. simpl.
      do 3 (split; [ reflexivity | ]).
      intros raw' parsed' Hraw Hp. injection Hraw as <-. congruence.
  - do 2 eexists. split; [ reflexivity | ]. simpl.
    do 3 (split; [ reflexivity | ]). discriminate.
Qed.

(** X15. Start-up always goes through, whatever the store file holds and
    whether or not it can be read or written: nothing is thrown, the
    registry in memory is a non-null object afterwards, and the file is
    read once and then written once with exactly that registry. *)
Theorem startup_installs_an_object (s : State) :
  fst (startup world JSON_parse s) = Returns tt
  /\ truthy (reports (snd (startup world JSON_parse s))) = true
  /\ typeof (reports (snd (startup world JSON_parse s))) = "object"
  /\ exists tail,
       trace (snd (startup world JSON_parse s))
       = (trace s
          ++ Fs_readFile
             :: Fs_writeFile (reports (snd (startup world JSON_parse s)))
             :: tail)%list
       /\ Forall no_write tail.
Proof.
  destruct (loadReports_run s) as (v & s1 & Hl & Ht1 & Htruthy & Hobj & _).
  unfold startup, bind. rewrite Hl. unfold modify. cbv beta iota.
  rewrite saveReports_run.
  cbn [reports set_reports trace]. rewrite Ht1.
  destruct (writeFile_result world _) as [[] | e];
    cbn [fst snd reports trace set_trace set_reports].
  - repeat split; auto. exists []. rewrite <- app_assoc. auto.
  - repeat split; auto.
    exists [Console_error "Failed to persist reports:" e].
    rewrite <- !app_assoc. split; [ reflexivity | repeat constructor ].
Qed.

(** X16. A store file that parses to an object is taken as it is: the
    registry after start-up is the parsed object, also when it is empty,
    the seed record is not added and the clock is not read. *)
Theorem startup_keeps_stored_registry (s : State) (raw : string)
    (parsed : value) :
  readFile_result world (trace s ++ [Fs_readFile]) = Returns raw ->
  JSON_parse raw = Returns parsed ->
  truthy parsed = true ->
  typeof parsed = "object" ->
  reports (snd (startup world JSON_parse s)) = parsed
  /\ clock_reads (snd (startup world JSON_parse s)) = clock_reads s.
Proof.
  intros Hraw Hp Ht Ho.
  destruct (loadReports_run s) as (v & s1 & Hl & _ & _ & _ & Hkeep).
  destruct (Hkeep raw parsed Hraw Hp) as [-> Hclock].
  { rewrite Ht, Ho. reflexivity. }
  unfold startup, bind. rewrite Hl. unfold modify. cbv beta iota.
  rewrite saveReports_run. cbn [reports set_reports trace].
  destruct (writeFile_result world _) as [[] | e]; simpl; auto.
Qed.

End StartupMore.

(** *** [/file] and [/verify] *)

(** X17. The two read routes agree. Whenever [GET /verify] shows a file
    as authentic, [GET /file] with the same query redirects to the URL
    shown, or answers 404 when that URL is falsy. Whenever [GET /file]
    redirects to a URL, [GET /verify] shows the file as authentic with that
    URL, unless it throws while it builds its page, which it does when
    the file name or the URL of the record is an object that cannot be
    converted to a string. Whenever [GET /verify] shows "not authentic",
    [GET /file] answers 404. *)
Theorem verify_agrees_with_file (registry : value) (hash : option string) :
  (forall h name u,
      verify_route registry hash = Returns (Html (Authentic h name u)) ->
      hash = Some h
      /\ file_route registry hash
         = if truthy u then Returns (Redirect 302 u)
           else Returns (Send 404 msg_file_not_found))
  /\ (forall u,
        file_route registry hash = Returns (Redirect 302 u) ->
        exists h name,
          hash = Some h
          /\ member (get registry h) f_fileName = Returns name
          /\ verify_route registry hash
             = match converts_to_string name, converts_to_string u with
               | Returns _, Returns _ => Returns (Html (Authentic h name u))
               | Throws e, _ => Throws e
               | Returns _, Throws e => Throws e
               end)
  /\ (verify_route registry hash = Returns (Html NotAuthentic) ->
      file_route registry hash = Returns (Send 404 msg_file_not_found)).
Proof.
  unfold file_route, verify_route.
  destruct hash as [h | ];
    [ | repeat split; try discriminate; intros; discriminate ].
  destruct (nonempty h); cbn [negb];
    [ | repeat split; try discriminate; intros; discriminate ].
  destruct (truthy (get registry h)) eqn:Ht; cbn [negb].
  - pose proof (member_truthy (get registry h) f_fileUrl Ht) as [u0 Hu].
    pose proof (member_truthy (get registry h) f_fileName Ht) as [n0 Hn].
    rewrite Hu, Hn. cbn [obind]. split; [ | split ].
    + intros h' name u H.
      destruct (converts_to_string n0); cbn [obind] in H;
        [ | discriminate ].
      destruct (truthy u0) eqn:Htu; cbn [negb].
      * destruct (converts_to_string u0); cbn [obind] in H;
          [ | discriminate ].
        injection H as <- <- <-. now rewrite Htu.
      * cbn [obind] in H. injection H as <- <- <-. now rewrite Htu.
    + intros u H. destruct (truthy u0) eqn:Htu; cbn [negb] in H;
        [ | discriminate ].
      injection H as <-. exists h, n0. split; [ reflexivity | ].
      split; [ exact Hn | ].
      destruct (converts_to_string n0) as [[] | e]; cbn [obind];
        [ | reflexivity ].
      destruct (converts_to_string u0) as [[] | e]; reflexivity.
    + intros H. destruct (converts_to_string n0); cbn [obind] in H;
        [ | discriminate ].
      destruct (truthy u0);
        [ destruct (converts_to_string u0); cbn [obind] in H | ];
        discriminate.
  - repeat split; try discriminate; intros; discriminate.
Qed.

(** X18. A name that every object inherits is taken for a record: with a
    registry that has no entry of its own under such a name
    ([constructor], [toString], [__proto__], ...), [GET /verify] for that
    name shows "authentic" with neither file name nor URL, while
    [GET /file] answers 404. *)
Theorem inherited_name_passes_as_authentic (props : list (string * value))
    (k : string) :
  In k ("__proto__" :: Object_prototype_members) ->
  has_own k props = false ->
  verify_route (VObject VObjectPrototype props) (Some k)
  = Returns (Html (Authentic k VUndefined VUndefined))
  /\ file_route (VObject VObjectPrototype props) (Some k)
     = Returns (Send 404 msg_file_not_found).
Proof.
  intros Hin Hown. apply has_own_false_lookup in Hown.
  unfold verify_route, file_route, get. cbn [get_from].
  simpl in Hin.
  repeat (destruct Hin as [<- | Hin]; [ rewrite Hown; split; reflexivity | ]).
  contradiction.
Qed.

(** *** The public URL *)

Lemma string_forallb_app (p : ascii -> bool) (a b : string) :
  string_forallb p (a ++ b) = string_forallb p a && string_forallb p b.
Proof.
  induction a as [| c a IH]; simpl; auto. now rewrite IH, andb_assoc.
Qed.

Lemma hex_upper_unreserved (k : nat) :
  (k < 16)%nat -> is_unreserved (hex_upper k) = true.
Proof.
  intros H. do 16 (destruct k as [| k]; [ reflexivity | ]). lia.
Qed.

Lemma encodeURIComponent_url_safe (s : string) :
  string_forallb is_url_safe (encodeURIComponent s) = true.
Proof.
  induction s as [| c rest IH]; cbn [encodeURIComponent]; [ reflexivity | ].
  destruct (is_unreserved c) eqn:U; cbn [string_forallb].
  - unfold is_url_safe at 1. now rewrite U, IH.
  - pose proof (nat_of_ascii_bounded c) as Hb. rewrite IH.
    unfold is_url_safe.
    rewrite !hex_upper_unreserved; [ reflexivity | | ].
    + apply Nat.mod_upper_bound. lia.
    + apply Nat.Div0.div_lt_upper_bound. lia.
Qed.

Lemma url_safe_is_path_char (s : string) :
  string_forallb is_url_safe s = true -> string_forallb is_path_char s = true.
Proof.
  induction s as [| c rest IH]; simpl; auto.
  intros H. apply andb_true_iff in H as [Hc Hr].
  rewrite (IH Hr). unfold is_path_char. now rewrite Hc.
Qed.

Lemma join_slash_path_chars (segments : list string) :
  Forall (fun seg => string_forallb is_url_safe seg = true) segments ->
  string_forallb is_path_char (join_slash segments) = true.
Proof.
  unfold join_slash. induction 1 as [| x rest Hx Hrest IH]; [ reflexivity | ].
  destruct rest as [| y rest].
  - now apply url_safe_is_path_char.
  - change (String.concat "/" (x :: y :: rest))
      with (x ++ "/" ++ String.concat "/" (y :: rest)).
    rewrite !string_forallb_app, (url_safe_is_path_char x Hx), IH.
    reflexivity.
Qed.

(** X19. The path part of a public URL is safe to put in a URL: whatever
    the storage name, the encoded path holds only letters, digits, the
    marks [- _ . ! ~ * ' ( )], the percent sign and the separating
    slashes. *)
Theorem safePath_is_url_safe (targetName : string) :
  string_forallb is_path_char (safePath targetName) = true.
Proof.
  unfold safePath. apply join_slash_path_chars.
  apply Forall_forall. intros seg Hin.
  apply in_map_iff in Hin as (x & <- & _).
  apply encodeURIComponent_url_safe.
Qed.

Lemma join_split_slash (s : string) : join_slash (split_slash s) = s.
Proof.
  unfold join_slash. induction s as [| c rest IH]; [ reflexivity | ].
  cbn [split_slash].
  pose proof (split_slash_not_nil rest) as Hne.
  destruct (Ascii.eqb_spec c slash) as [-> | Hc].
  - destruct (split_slash rest) as [| seg segs]; [ congruence | ].
    cbn [String.concat]. simpl in *. now rewrite IH.
  - destruct (split_slash rest) as [| seg segs]; [ congruence | ].
    destruct segs; simpl in *; now rewrite <- IH.
Qed.

Lemma encode_plain_segments (s : string) :
  plain_path s = true ->
  map encodeURIComponent (split_slash s) = split_slash s.
Proof.
  unfold plain_path. induction s as [| c rest IH]; [ reflexivity | ].
  cbn [string_forallb split_slash]. intros H.
  apply andb_true_iff in H as [Hc Hr]. specialize (IH Hr).
  destruct (Ascii.eqb c slash) eqn:E.
  - cbn [map encodeURIComponent]. now rewrite IH.
  - rewrite orb_false_r in Hc.
    destruct (split_slash rest) as [| seg segs];
      cbn [map encodeURIComponent] in *; rewrite Hc.
    + reflexivity.
    + injection IH as -> ->. reflexivity.
Qed.

(** X20. A storage name that needs no encoding is its own path: when the
    name holds only letters, digits, the marks [- _ . ! ~ * ' ( )] and
    slashes, the path of the public URL is the name itself, slashes
    included. *)
Theorem plain_name_is_its_own_path (targetName : string) :
  plain_path targetName = true -> safePath targetName = targetName.
Proof.
  intros H. unfold safePath.
  now rewrite (encode_plain_segments targetName H), join_split_slash.
Qed.

Lemma strip_trailing_slash_snoc (b : string) :
  strip_trailing_slash (b ++ "/") = b.
Proof.
  induction b as [| c rest IH]; [ reflexivity | ].
  destruct rest as [| c' rest']; [ reflexivity | ].
  change (strip_trailing_slash (String c (String c' rest') ++ "/"))
    with (String c (strip_trailing_slash (String c' rest' ++ "/"))).
  now rewrite IH.
Qed.

(** X21. One trailing slash on the public base makes no difference: a base
    that does not end in a slash and the same base with a slash added give
    the same public URL for every name. *)
Theorem fileUrl_ignores_trailing_slash (on : bool)
    (id name : option string) (base : string) (targetName : string) :
  strip_trailing_slash base = base ->
  fileUrl_of {| enabled := on; bucketId := id; bucketName := name;
                publicBaseUrl := base ++ "/" |} targetName
  = fileUrl_of {| enabled := on; bucketId := id; bucketName := name;
                  publicBaseUrl := base |} targetName.
Proof.
  intros Hb. unfold fileUrl_of. cbn [publicBaseUrl bucketName].
  rewrite !or_string_empty, strip_trailing_slash_snoc, Hb. reflexivity.
Qed.

Lemma startup_keeps_stored_registry_witness :
  reports (snd (startup world_with_store JSON_parse_stored
                  (fresh_state VUndefined)))
  = stored_registry
  /\ clock_reads (snd (startup world_with_store JSON_parse_stored
                         (fresh_state VUndefined)))
     = 0%nat.
Proof.
  exact (startup_keeps_stored_registry world_with_store JSON_parse_stored
           (fresh_state VUndefined) stored_text stored_registry
           eq_refl eq_refl eq_refl eq_refl).
Defined.

Lemma inherited_name_passes_as_authentic_witness :
  verify_route stored_registry (Some "constructor")
  = Returns (Html (Authentic "constructor" VUndefined VUndefined))
  /\ file_route stored_registry (Some "constructor")
     = Returns (Send 404 msg_file_not_found).
Proof.
  apply (inherited_name_passes_as_authentic _ "constructor").
  - simpl. auto.
  - reflexivity.
Defined.

Lemma plain_name_is_its_own_path_witness :
  safePath "2024/q1/report-final_v2.pdf" = "2024/q1/report-final_v2.pdf".
Proof.
  apply (plain_name_is_its_own_path "2024/q1/report-final_v2.pdf").
  reflexivity.
Defined.

Lemma fileUrl_ignores_trailing_slash_witness :
  fileUrl_of {| enabled := true; bucketId := Some "bucket-1";
                bucketName := Some "reports";
                publicBaseUrl := "https://cdn.example/" |} "a b.pdf"
  = "https://cdn.example/file/reports/a%20b.pdf".
Proof.
  exact (fileUrl_ignores_trailing_slash true (Some "bucket-1")
           (Some "reports") "https://cdn.example" "a b.pdf" eq_refl).
Defined.

(* ===================================================================== *)
(** ** Further theorems: the guard of [/reports] and [/config] *)
(* ===================================================================== *)

Lemma split_char_not_nil (sep : ascii) (s : string) : split_char sep s <> [].
Proof.
  induction s as [| c rest IH]; simpl; try discriminate.
  destruct (Ascii.eqb c sep); try discriminate.
  destruct (split_char sep rest); discriminate.
Qed.

Lemma split_char_single (sep : ascii) (s : string) :
  no_char sep s = true -> split_char sep s = [s].
Proof.
  unfold no_char. induction s as [| c rest IH]; simpl; auto.
  intros H. apply andb_true_iff in H as [Hc Hr].
  apply negb_true_iff in Hc. rewrite Hc, (IH Hr). reflexivity.
Qed.

Lemma split_char_app (sep : ascii) (x rest : string) :
  no_char sep x = true ->
  split_char sep (x ++ String sep rest) = x :: split_char sep rest.
Proof.
  unfold no_char. induction x as [| c x IH]; simpl.
  - intros _. now rewrite Ascii.eqb_refl.
  - intros H. apply andb_true_iff in H as [Hc Hx].
    apply negb_true_iff in Hc. rewrite Hc, (IH Hx). reflexivity.
Qed.

Lemma split_char_join (sep : ascii) (segments : list string) :
  segments <> [] ->
  Forall (fun seg => no_char sep seg = true) segments ->
  split_char sep (String.concat (String sep EmptyString) segments)
  = segments.
Proof.
  induction segments as [| x rest IH]; [ congruence | ].
  intros _ Hall. inversion Hall as [| ? ? Hx Hrest]; subst.
  destruct rest as [| y rest'].
  - simpl. now apply split_char_single.
  - change (String.concat (String sep EmptyString) (x :: y :: rest'))
      with (x ++ String sep
                   (String.concat (String sep EmptyString) (y :: rest'))).
    rewrite split_char_app by assumption.
    rewrite IH; auto. discriminate.
Qed.

(** No piece of a split holds the separator. *)
Lemma split_char_pieces (sep : ascii) (s : string) :
  Forall (fun seg => no_char sep seg = true) (split_char sep s).
Proof.
  unfold no_char. induction s as [| c rest IH]; simpl.
  - repeat constructor.
  - destruct (Ascii.eqb c sep) eqn:E.
    + constructor; [ reflexivity | exact IH ].
    + destruct (split_char sep rest) as [| seg segs].
      * repeat constructor. simpl. now rewrite E.
      * inversion IH as [| ? ? Hseg Hsegs]; subst.
        constructor; [ simpl; now rewrite E, Hseg | exact Hsegs ].
Qed.

Lemma toLowerCase_app (a b : string) :
  toLowerCase (a ++ b) = toLowerCase a ++ toLowerCase b.
Proof. induction a as [| c a IH]; simpl; [ | rewrite IH ]; reflexivity. Qed.

Lemma lower_ascii_space (c : ascii) :
  Ascii.eqb (lower_ascii c) " " = Ascii.eqb c " ".
Proof.
  destruct (Ascii.eqb_spec c " ") as [-> | Hne]; [ reflexivity | ].
  unfold lower_ascii.
  destruct ((65 <=? nat_of_ascii c) && (nat_of_ascii c <=? 90))%nat eqn:E;
    [ | now apply Ascii.eqb_neq ].
  apply andb_true_iff in E as [Hlo Hhi].
  apply Nat.leb_le in Hlo. apply Nat.leb_le in Hhi.
  apply Ascii.eqb_neq. intros Heq.
  apply (f_equal nat_of_ascii) in Heq.
  rewrite nat_ascii_embedding in Heq by lia.
  change (nat_of_ascii " ") with 32%nat in Heq. lia.
Qed.

Lemma toLowerCase_no_space (s : string) :
  no_char " " (toLowerCase s) = no_char " " s.
Proof.
  unfold no_char. induction s as [| c rest IH]; simpl; auto.
  now rewrite lower_ascii_space, IH.
Qed.

Section GuardMore.

Variable base64_to_utf8 : string -> string.

(** X22. The guard of [/reports] never reports a missing password: the
    password falls back to ["944221"] when [REPORTS_PASSWORD] is unset or
    empty, so a request is either let through or refused with 401 and a
    [WWW-Authenticate] challenge; the 503 answer cannot occur. *)
Theorem reports_password_is_never_unset (REPORTS_PASSWORD : string)
    (authorization : option string) :
  nonempty (reportsPassword_of REPORTS_PASSWORD) = true
  /\ reportsPassword_of "" = "944221"
  /\ match requireReportsPassword base64_to_utf8
             (reportsPassword_of REPORTS_PASSWORD) authorization with
     | Next => True
     | Refuse status _ challenge => status = 401 /\ challenge = true
     end.
Proof.
  assert (Hne : nonempty (reportsPassword_of REPORTS_PASSWORD) = true).
  { unfold reportsPassword_of, or_string.
    destruct (nonempty REPORTS_PASSWORD) eqn:E; [ exact E | reflexivity ]. }
  split; [ exact Hne | ]. split; [ reflexivity | ].
  unfold requireReportsPassword. rewrite Hne.
  change (negb true) with false. cbv iota.
  destruct authorization as [auth | ]; [ | cbv iota; split; reflexivity ].
  destruct (negb (nonempty auth)
            || negb (startsWith (toLowerCase auth) "basic "));
    [ cbv iota; split; reflexivity | ].
  cbv zeta.
  match goal with
  | |- context [if ?c then Next else _] =>
      destruct c; cbv iota; [ exact I | split; reflexivity ]
  end.
Qed.

(** X23. A password that holds a colon can never be presented: the guard
    compares the password with one colon-separated field of the decoded
    credentials, so with such a password every request is refused. *)
Theorem password_with_colon_locks_out (reportsPassword : string)
    (authorization : option string) :
  no_char ":" reportsPassword = false ->
  exists status text challenge,
    requireReportsPassword base64_to_utf8 reportsPassword authorization
    = Refuse status text challenge.
Proof.
  intros Hcolon. unfold requireReportsPassword.
  destruct (negb (nonempty reportsPassword)); [ eauto | ].
  destruct authorization as [auth | ]; [ | eauto ].
  destruct (negb (nonempty auth)
            || negb (startsWith (toLowerCase auth) "basic ")); [ eauto | ].
  cbv zeta.
  match goal with
  | |- context [(?pass =? reportsPassword)%string] =>
      assert (Hpass : no_char ":" pass = true);
      [ | destruct (String.eqb_spec pass reportsPassword) as [E | _];
          [ rewrite E in Hpass; congruence | eauto ] ]
  end.
  match goal with
  | |- context [split_char ":" ?decoded] =>
      pose proof (split_char_pieces ":" decoded) as Hall;
      destruct (split_char ":" decoded) as [| x [| y rest]]
  end; simpl; try reflexivity.
  inversion Hall as [| ? ? _ Hrest]; subst.
  inversion Hrest; subst. assumption.
Qed.

(** X24. What the guard checks: the header is split at spaces and its
    second piece is decoded; the decoded text is split at colons and its
    second piece is the password presented. The scheme may be written in
    any case, the user name is not looked at, and whatever follows a
    second colon is dropped. *)
Theorem guard_checks_second_field (reportsPassword scheme token : string)
    (user pass : string) (more : list string) :
  nonempty reportsPassword = true ->
  toLowerCase scheme = "basic" ->
  no_char " " token = true ->
  base64_to_utf8 token = String.concat ":" (user :: pass :: more) ->
  Forall (fun seg => no_char ":" seg = true) (user :: pass :: more) ->
  requireReportsPassword base64_to_utf8 reportsPassword
    (Some (scheme ++ " " ++ token))
  = if (pass =? reportsPassword)%string then Next
    else Refuse 401 "Invalid credentials." true.
Proof.
  intros Hpw Hscheme Htoken Hdecode Hfields.
  unfold requireReportsPassword. rewrite Hpw.
  change (negb true) with false. cbv iota.
  assert (Hne : nonempty (scheme ++ " " ++ token) = true).
  { destruct scheme; [ discriminate | reflexivity ]. }
  assert (Hprefix : startsWith (toLowerCase (scheme ++ " " ++ token))
                      "basic " = true).
  { rewrite toLowerCase_app, Hscheme. destruct token; reflexivity. }
  rewrite Hne, Hprefix. cbn [negb orb]. cbv zeta.
  assert (Hspace : no_char " " scheme = true).
  { rewrite <- toLowerCase_no_space, Hscheme. reflexivity. }
  change (scheme ++ " " ++ token) with (scheme ++ String " " token).
  rewrite (split_char_app " " scheme token Hspace),
    (split_char_single " " token Htoken).
  cbn [nth_error]. rewrite or_string_empty, Hdecode.
  rewrite (split_char_join ":" (user :: pass :: more)); [ | discriminate | ].
  - reflexivity.
  - exact Hfields.
Qed.

End GuardMore.

Section ConfigMore.

Variable env : Environment.
Variable world : World.

(** X25. [GET /config] never throws and tells the truth about uploads:
    it answers 200 with the flag [b2Enabled], and an upload with a file
    that follows is refused with 500 "storage not configured" exactly when
    that flag is false. With the flag true the upload is answered 200 or
    502, or 500 "error while uploading" when the [hash] or the [targetName]
    of the form cannot be converted to a string. *)
Theorem config_agrees_with_upload (s : State) :
  exists on name base,
    fst (config_route env world s)
    = Returns (Json 200 (object [("b2Enabled", VBool on);
                                 ("b2BucketName", VString name);
                                 ("b2PublicBaseUrl", VString base)]))
    /\ forall req file,
         req_file req = Some file ->
         exists body,
           fst (upload_route env world req (snd (config_route env world s)))
           = Returns body
           /\ (body = Json 500 (failure msg_store_not_configured)
               <-> on = false)
           /\ (on = true ->
               status_of body = 200 \/ status_of body = 502
               \/ (body = Json 500 (failure msg_upload_error)
                   /\ exists e, hash_of req file = Throws e
                                \/ targetName_of req file = Throws e)).
Proof.
  destruct (ensureB2Ready_returns env world s) as (cfg & Hc & Hp).
  unfold config_route, bind, ret.
  destruct (ensureB2Ready env world s) as [r s1]. simpl in Hc, Hp.
  subst r. cbv beta iota. do 3 eexists. split; [ reflexivity | ].
  intros req file Hfile. cbn [snd].
  pose proof (upload_route_cases env world req s1) as H.
  rewrite Hfile in H. destruct H as (cfg' & s0 & E0 & H).
  rewrite (ensureB2Ready_cached env world cfg s1 Hp) in E0.
  injection E0 as <- <-.
  destruct (enabled cfg).
  - unfold upload_enabled_case in H.
    destruct (hash_of req file) as [hash | e].
    + destruct (targetName_of req file) as [targetName | e].
      * destruct (uploadFileToB2 env world cfg targetName (buffer file)
                    (mimeType_of file) s1) as [[v | e] s2];
          rewrite H; eexists; (split; [ reflexivity | ]); simpl;
          (split; [ split; discriminate | auto ]).
      * rewrite H. eexists. split; [ reflexivity | ].
        split; [ split; discriminate | ].
        intros _. right. right. split; [ reflexivity | eauto ].
    + rewrite H. eexists. split; [ reflexivity | ].
      split; [ split; discriminate | ].
      intros _. right. right. split; [ reflexivity | eauto ].
  - rewrite H. eexists. split; [ reflexivity | ].
    split; [ split; reflexivity | discriminate ].
Qed.

End ConfigMore.

Lemma password_with_colon_locks_out_witness :
  exists status text challenge,
    requireReportsPassword base64_to_ascii "94:4221"
      (Some "Basic YWRtaW46OTQ6NDIyMQ==")
    = Refuse status text challenge.
Proof.
  apply (password_with_colon_locks_out base64_to_ascii "94:4221").
  reflexivity.
Defined.

Lemma guard_checks_second_field_witness :
  requireReportsPassword base64_to_ascii "944221"
    (Some "BaSiC YW55b25lOjk0NDIyMTpyZXN0")
  = Next.
Proof.
  apply (guard_checks_second_field base64_to_ascii "944221" "BaSiC"
           "YW55b25lOjk0NDIyMTpyZXN0" "anyone" "944221" ["rest"]).
  - reflexivity.
  - reflexivity.
  - reflexivity.
  - reflexivity.
  - repeat constructor.
Defined.

(* ===================================================================== *)
(** ** Further theorems: answers under interleaving *)
(* ===================================================================== *)

Section AnswersMore.

Import Interleaved.

Variable env : Environment.

Lemma keeps_settled_refl (st : state) : keeps_settled st st.
Proof. split; auto. Qed.

Lemma keeps_settled_trans (a b c : state) :
  keeps_settled a b -> keeps_settled b c -> keeps_settled a c.
Proof. intros [H1 H2] [H3 H4]. split; eauto. Qed.

Lemma nth_error_grow {A} (l : list A) (x y : A) (i : nat) :
  nth_error l i = Some y -> nth_error (l ++ [x]) i = Some y.
Proof.
  intros H. rewrite nth_error_app1; [ exact H | ].
  apply nth_error_Some. congruence.
Qed.

Lemma keeps_settled_call_authorize (force : bool) (t : Z) (st : state) :
  keeps_settled st (call_authorize env force t st).
Proof.
  unfold call_authorize.
  destruct (negb (credentials_configured env));
    [ split; simpl; auto using nth_error_grow | ].
  destruct (cached_session force t st);
    [ split; simpl; auto using nth_error_grow | ].
  destruct (Interleaved.b2AuthPromise st);
    split; simpl; auto using nth_error_grow.
Qed.

Lemma keeps_settled_step (st st' : state) (l : label) :
  step env st l = Some st' -> keeps_settled st st'.
Proof.
  intros Hstep.
  destruct l as [force t | t | p answer t | c]; simpl in Hstep.
  - injection Hstep as <-. apply keeps_settled_call_authorize.
  - injection Hstep as <-. unfold call_ready.
    destruct (Interleaved.b2InitPromise st); [ split; auto | ].
    destruct (storage_configured env); [ | split; auto ].
    match goal with
    | |- keeps_settled _ (call_authorize _ _ _ ?counted) =>
        apply (keeps_settled_trans st counted);
        [ split; auto | apply keeps_settled_call_authorize ]
    end.
  - unfold respond in Hstep.
    destruct (nth_error (promises st) p) as [[ | | ] | ] eqn:Hp;
      try discriminate.
    injection Hstep as <-.
    destruct answer as [auth | err]; split; simpl; auto;
      intros p' q Hq Hne; (destruct (Nat.eq_dec p' p) as [-> | Hd];
        [ congruence | now rewrite nth_error_update_neq ]).
  - unfold resume in Hstep.
    destruct (nth_error (callers st) c) as [[ | | | p [ | ]] | ] eqn:Hc;
      try discriminate.
    destruct (nth_error (promises st) p) as [[ | auth | err] | ] eqn:Hp;
      try discriminate; injection Hstep as <-; split; simpl; auto;
      intros c' k Hk Hne; (destruct (Nat.eq_dec c' c) as [-> | Hd];
        [ rewrite Hc in Hk; injection Hk as <-; now destruct (Hne p)
        | now rewrite nth_error_update_neq ]).
Qed.

Lemma keeps_settled_run (ls : list label) (st st' : state) :
  run env st ls = Some st' -> keeps_settled st st'.
Proof.
  revert st. induction ls as [| l ls IH]; intros st Hrun; simpl in Hrun.
  - injection Hrun as <-. apply keeps_settled_refl.
  - destruct (step env st l) as [st1 | ] eqn:Hstep; try discriminate.
    apply (keeps_settled_trans st st1);
      [ now apply (keeps_settled_step st st1 l) | now apply IH ].
Qed.

Lemma received_kept (st st' : state) (c : nat) (r : outcome AuthResponse) :
  keeps_settled st st' -> received st c = Some r -> received st' c = Some r.
Proof.
  intros [Hcallers Hpromises]. unfold received.
  destruct (nth_error (callers st) c) as [[err | auth | p | p [ | ]] | ]
    eqn:Hc; try discriminate; intros Hr;
    rewrite (Hcallers c _ Hc) by (intros; discriminate);
    try exact Hr;
    (destruct (nth_error (promises st) p) as [[ | auth | err] | ] eqn:Hp;
     try discriminate;
     rewrite (Hpromises p _ Hp) by discriminate; exact Hr).
Qed.

(** X26. An answer is final: once a call of [ensureB2Authorized] has
    received its result, session or error, nothing that happens later
    changes it, whatever other requests call, whatever B2 answers to other
    handshakes and in whatever order the requests resume. *)
Theorem received_is_final (ls : list label) (st st' : state) (c : nat)
    (r : outcome AuthResponse) :
  run env st ls = Some st' ->
  received st c = Some r ->
  received st' c = Some r.
Proof.
  intros Hrun. apply received_kept. now apply (keeps_settled_run ls).
Qed.

Lemma issued_kept (st st' : state) (auth : AuthResponse) :
  keeps_settled st st' -> issued st auth -> issued st' auth.
Proof.
  intros [_ Hpromises] [p Hp]. exists p.
  apply (Hpromises p _ Hp). discriminate.
Qed.

Lemma sessions_issued_call_authorize (force : bool) (t : Z) (st : state) :
  sessions_issued st -> sessions_issued (call_authorize env force t st).
Proof.
  intros Hinv.
  pose proof (keeps_settled_call_authorize force t st) as Hkeep.
  destruct Hinv as [Hlast Hcached].
  assert (Hnew : forall auth, cached_session force t st = Some auth ->
                              issued st auth).
  { unfold cached_session. intros auth.
    destruct (negb force && negb (Interleaved.b2LastAuthAt st =? 0)
              && (t - Interleaved.b2LastAuthAt st <? B2_AUTH_TTL_MS));
      [ apply Hlast | discriminate ]. }
  assert (Hlast' : Interleaved.b2LastAuthResponse (call_authorize env force t st)
                   = Interleaved.b2LastAuthResponse st).
  { unfold call_authorize.
    destruct (negb (credentials_configured env)); [ reflexivity | ].
    destruct (cached_session force t st); [ reflexivity | ].
    destruct (Interleaved.b2AuthPromise st); reflexivity. }
  split.
  - intros auth H. rewrite Hlast' in H.
    apply (issued_kept st); auto.
  - intros c auth H. apply (issued_kept st); auto.
    revert H. unfold call_authorize.
    destruct (negb (credentials_configured env)); simpl.
    { intros H. apply nth_error_snoc in H as [H | [_ H]];
        [ eauto | discriminate ]. }
    destruct (cached_session force t st) as [auth0 | ] eqn:Hc; simpl.
    { intros H. apply nth_error_snoc in H as [H | [_ H]]; [ eauto | ].
      injection H as ->. now apply Hnew. }
    destruct (Interleaved.b2AuthPromise st); simpl;
      intros H; (apply nth_error_snoc in H as [H | [_ H]];
                 [ eauto | discriminate ]).
Qed.

Lemma sessions_issued_step (st st' : state) (l : label) :
  sessions_issued st -> step env st l = Some st' -> sessions_issued st'.
Proof.
  intros Hinv Hstep. pose proof (keeps_settled_step st st' l Hstep) as Hkeep.
  destruct l as [force t | t | p answer t | c]; simpl in Hstep.
  - injection Hstep as <-. now apply sessions_issued_call_authorize.
  - injection Hstep as <-. unfold call_ready in *.
    destruct (Interleaved.b2InitPromise st); [ exact Hinv | ].
    destruct (storage_configured env); [ | exact Hinv ].
    apply sessions_issued_call_authorize. exact Hinv.
  - destruct Hinv as [Hlast Hcached].
    unfold respond in Hstep.
    destruct (nth_error (promises st) p) as [[ | | ] | ] eqn:Hp;
      try discriminate.
    assert (Hlt : (p < List.length (promises st))%nat)
      by (apply nth_error_Some; congruence).
    destruct answer as [auth | err]; injection Hstep as <-; split; simpl.
    + intros auth' H. injection H as <-. exists p. simpl.
      now apply nth_error_update_eq.
    + intros c auth' H. apply (issued_kept st); eauto.
    + intros auth' H. apply (issued_kept st); eauto.
    + intros c auth' H. apply (issued_kept st); eauto.
  - destruct Hinv as [Hlast Hcached].
    unfold resume in Hstep.
    destruct (nth_error (callers st) c) as [[ | | | p [ | ]] | ] eqn:Hc;
      try discriminate.
    destruct (nth_error (promises st) p) as [[ | auth | err] | ] eqn:Hp;
      try discriminate; injection Hstep as <-; split; simpl;
      try (intros auth' H; destruct (Hlast auth' H) as [q Hq];
           exists q; exact Hq);
      intros c' auth' H;
      (destruct (Nat.eq_dec c' c) as [-> | Hd];
       [ rewrite nth_error_update_eq in H
           by (apply nth_error_Some; congruence);
         discriminate
       | rewrite nth_error_update_neq in H by assumption;
         destruct (Hcached c' auth' H) as [q Hq]; exists q; exact Hq ]).
Qed.

Lemma sessions_issued_run (ls : list label) (st st' : state) :
  sessions_issued st -> run env st ls = Some st' -> sessions_issued st'.
Proof.
  revert st. induction ls as [| l ls IH]; intros st Hinv Hrun; simpl in Hrun.
  - injection Hrun as <-. assumption.
  - destruct (step env st l) as [st1 | ] eqn:Hstep; try discriminate.
    apply (IH st1); [ eapply sessions_issued_step; eauto | assumption ].
Qed.

(** X27. No session comes from nowhere: in every state the server can
    reach, a session that a call of [ensureB2Authorized] has returned, be it
    from the cache, from a handshake of its own or from one it joined, is
    a session with which B2 answered a handshake. *)
Theorem received_session_was_issued (st : state) (c : nat)
    (auth : AuthResponse) :
  reachable env st ->
  received st c = Some (Returns auth) ->
  issued st auth.
Proof.
  intros [ls Hrun] Hrec.
  assert (Hinv : sessions_issued st).
  { apply (sessions_issued_run ls initial); [ | exact Hrun ].
    split; simpl.
    - discriminate.
    - intros c0 auth0 H. destruct c0; discriminate. }
  destruct Hinv as [_ Hcached]. revert Hrec. unfold received.
  destruct (nth_error (callers st) c) as [[err | auth0 | p | p [ | ]] | ]
    eqn:Hc; try discriminate.
  - intros H. injection H as ->. eauto.
  - destruct (nth_error (promises st) p) as [[ | auth0 | err] | ] eqn:Hp;
      try discriminate.
    intros H. injection H as ->. exists p. exact Hp.
  - destruct (nth_error (promises st) p) as [[ | auth0 | err] | ] eqn:Hp;
      try discriminate.
    intros H. injection H as ->. exists p. exact Hp.
Qed.

End AnswersMore.

(* ===================================================================== *)
(** ** Further theorems: [/api/reports] *)
(* ===================================================================== *)

Lemma Array_map_throws {A B} (f : A -> outcome B) (l : list A) (x : A)
    (e0 : value) :
  In x l -> f x = Throws e0 -> exists e, Array_map f l = Throws e.
Proof.
  induction l as [| y rest IH]; intros Hin Hx; [ contradiction | ].
  cbn [Array_map]. destruct (f y) as [b | e] eqn:Hy; cbn [obind]; eauto.
  destruct Hin as [-> | Hin]; [ congruence | ].
  destruct (IH Hin Hx) as [e He]. rewrite He. cbn [obind]. eauto.
Qed.

Lemma Array_map_In {A B} (f : A -> outcome B) (l : list A) (ys : list B)
    (x : A) :
  Array_map f l = Returns ys -> In x l ->
  exists y, f x = Returns y /\ In y ys.
Proof.
  revert ys. induction l as [| a rest IH]; intros ys Hmap Hin;
    [ contradiction | ].
  cbn [Array_map] in Hmap.
  destruct (f a) as [b | e] eqn:Ha; cbn [obind] in Hmap; [ | discriminate ].
  destruct (Array_map f rest) as [bs | e] eqn:Hrest; cbn [obind] in Hmap;
    [ | discriminate ].
  injection Hmap as <-. destruct Hin as [-> | Hin].
  - exists b. split; [ exact Ha | now left ].
  - destruct (IH bs eq_refl Hin) as (y & Hy & Hiny).
    exists y. split; [ exact Hy | now right ].
Qed.

Lemma In_replace_own (k : string) (v : value) (props : list (string * value))
    (k' : string) (d : value) :
  In (k', d) (replace_own k v props) ->
  In (k', d) props \/ (k', d) = (k, v).
Proof.
  induction props as [| [k0 x] rest IH]; simpl; [ contradiction | ].
  destruct (k0 =? k)%string eqn:E.
  - apply String.eqb_eq in E. subst k0.
    intros [H | H]; [ now right | left; now right ].
  - intros [H | H]; [ left; now left | ].
    destruct (IH H) as [H' | H']; [ left; now right | now right ].
Qed.

Lemma replace_own_In (k : string) (v : value) (props : list (string * value)) :
  has_own k props = true -> In (k, v) (replace_own k v props).
Proof.
  unfold has_own. induction props as [| [k0 x] rest IH]; simpl;
    [ discriminate | ].
  destruct (k0 =? k)%string eqn:E.
  - apply String.eqb_eq in E. subst k0. intros _. now left.
  - intros H. right. now apply IH.
Qed.

(** The own properties after an assignment under an ordinary key. *)
Lemma set_entries (p : value) (props : list (string * value)) (k : string)
    (v : value) :
  (k =? "__proto__")%string = false ->
  exists props',
    set (VObject p props) k v = VObject p props'
    /\ In (k, v) props'
    /\ forall k' d, In (k', d) props' ->
                    In (k', d) props \/ (k', d) = (k, v).
Proof.
  intros Hk. unfold set. rewrite Hk. simpl.
  destruct (has_own k props) eqn:E.
  - eexists. split; [ reflexivity | ]. split.
    + now apply replace_own_In.
    + intros k' d. apply In_replace_own.
  - eexists. split; [ reflexivity | ]. split.
    + apply in_or_app. right. now left.
    + intros k' d H. apply in_app_or in H as [H | [H | []]]; auto.
Qed.

Lemma lookup_In (k : string) (v : value) (props : list (string * value)) :
  lookup k props = Some v -> In (k, v) props.
Proof.
  induction props as [| [k0 x] rest IH]; simpl; [ discriminate | ].
  destruct (String.eqb_spec k0 k) as [-> | _].
  - intros H. injection H as ->. now left.
  - intros H. right. now apply IH.
Qed.

Lemma or_value_string (a : string) :
  or_value (VString a) (VString "") = VString a.
Proof.
  unfold or_value. simpl. destruct (String.eqb_spec a ""); subst; reflexivity.
Qed.

Section ListingMore.

Variable env : Environment.
Variable world : World.
Variable Date_parse : string -> number.

(** X28. One record that is [null] spoils the whole list: when the
    registry holds [null] under some key (a store file may say so),
    [/api/reports] answers 500 for every request, while for that key
    [/verify] shows "not authentic" and [/file] answers 404. *)
Theorem null_record_breaks_the_list (p : value)
    (props : list (string * value)) (k : string) :
  lookup k props = Some VNull ->
  nonempty k = true ->
  api_reports_route Date_parse (VObject p props)
  = Json 500 (failure msg_unexpected)
  /\ verify_route (VObject p props) (Some k) = Returns (Html NotAuthentic)
  /\ file_route (VObject p props) (Some k)
     = Returns (Send 404 msg_file_not_found).
Proof.
  intros Hk Hne. split; [ | split ].
  - pose proof (Object_entries_permutation p props) as Hperm.
    assert (Hin' : In (k, VNull) (Object_entries (VObject p props))).
    { eapply Permutation_in; [ exact Hperm | ]. now apply lookup_In. }
    destruct (Array_map_throws report_item _ (k, VNull)
                (TypeError ("Cannot read properties of " ++ typeof VNull))
                Hin' eq_refl) as [e He].
    unfold api_reports_route, reports_list. now rewrite He.
  - unfold verify_route, get. cbn [get_from]. now rewrite Hne, Hk.
  - unfold file_route, get. cbn [get_from]. now rewrite Hne, Hk.
Qed.

(** X29. What was uploaded is on the list: after an upload answered with
    200 into a registry whose records are well dated, [/api/reports]
    answers 200 and its list holds an element with the [hash], the
    [fileName] and the [fileUrl] of the answer. *)
Theorem uploaded_file_is_listed (req : UploadRequest) (s : State)
    (body p : value) (props : list (string * value)) :
  fst (upload_route env world req s) = Returns (Json 200 body) ->
  reports s = VObject p props ->
  get body "hash" <> VString "__proto__" ->
  (forall k data, In (k, data) props -> well_dated Date_parse data) ->
  (forall n, exists t, Date_parse (Date_toISOString world n) = Int t) ->
  exists list item,
    api_reports_route Date_parse (reports (state_after env world req s))
    = JsonReports 200 list
    /\ In item list
    /\ get item "hash" = get body "hash"
    /\ get item "fileName" = get body "fileName"
    /\ get item "fileUrl" = get body "fileUrl".
Proof.
  intros Hok Hobj Hproto Hwell Hclock. unfold state_after.
  pose proof (upload_route_cases env world req s) as Hcases.
  destruct (upload_route_success env world req s body Hok)
    as (file & cfg & createdAt0 & hash & targetName & Hfile & Hcfg & Hen
        & Hhash & Hname & Hbody & _).
  rewrite Hfile in Hcases. destruct Hcases as (cfg' & s0 & E0 & Hcases).
  rewrite E0 in Hcfg. simpl in Hcfg. injection Hcfg as ->.
  rewrite Hen in Hcases. unfold upload_enabled_case in Hcases.
  rewrite Hhash, Hname in Hcases.
  pose proof (ensureB2Ready_preserves_reports env world s) as Hr0.
  rewrite E0 in Hr0. simpl in Hr0.
  pose proof (uploadFileToB2_preserves_reports env world cfg targetName
                (buffer file) (mimeType_of file) s0) as Hr1.
  destruct (uploadFileToB2 env world cfg targetName (buffer file)
              (mimeType_of file) s0) as [[v | e] s1];
    rewrite Hcases in *; [ | discriminate ].
  simpl in Hr1. cbn [snd]. rewrite saveReports_preserves_reports.
  cbn [reports set_reports]. rewrite Hr1, Hr0, Hobj.
  remember (Date_toISOString world (clock_reads s1)) as createdAt eqn:Hstamp.
  assert (Hnp : (hash =? "__proto__")%string = false).
  { apply String.eqb_neq. intros E. apply Hproto. subst body.
    now rewrite E. }
  destruct (set_entries p props hash
              (report_record targetName (fileUrl_of cfg targetName)
                 (mimeType_of file) createdAt) Hnp)
    as (props' & -> & Hnew & Hold).
  assert (Hrecord : well_dated Date_parse
                      (report_record targetName (fileUrl_of cfg targetName)
                         (mimeType_of file) createdAt)).
  { exists (VString createdAt). split; [ reflexivity | ].
    right. destruct (Hclock (clock_reads s1)) as [t Ht].
    exists t. simpl. now rewrite Hstamp, Ht. }
  assert (Hwell' : Forall (fun kv => well_dated Date_parse (snd kv))
                     (Object_entries (VObject p props'))).
  { eapply Permutation_Forall; [ apply Object_entries_permutation | ].
    apply Forall_forall. intros [k d] Hin. simpl.
    destruct (Hold k d Hin) as [H | H]; [ eauto | ].
    injection H as -> ->. exact Hrecord. }
  destruct (Array_map_report_items Date_parse _ Hwell')
    as (items & Hmap & _ & Hvalid).
  destruct (Array_sort_sorted Date_parse items Hvalid)
    as (list & Hsort & Hperm & _).
  assert (Hin : In (hash,
                    report_record targetName (fileUrl_of cfg targetName)
                      (mimeType_of file) createdAt)
                  (Object_entries (VObject p props'))).
  { eapply Permutation_in; [ apply Object_entries_permutation | exact Hnew ]. }
  destruct (Array_map_In report_item _ items _ Hmap Hin)
    as (item & Hitem & Hinitem).
  exists list, item. split.
  - unfold api_reports_route, reports_list. rewrite Hmap. cbn [obind].
    now rewrite Hsort.
  - split; [ eapply Permutation_in; eauto | ].
    unfold report_item, report_record in Hitem.
    cbn -[or_value fileUrl_of] in Hitem.
    injection Hitem as <-. subst body.
    rewrite !or_value_string. repeat split; reflexivity.
Qed.

End ListingMore.

(* ===================================================================== *)
(** ** Theorems: empty form fields *)
(* ===================================================================== *)

Section EmptyFields.

Variable env : Environment.
Variable world : World.

(** An upload to B2 that succeeds has sent the file under the name it was
    given, as its last call. *)
Lemma uploadFileToB2_sends_file (cfg : B2Config) (name : string)
    (buf : list Byte.byte) (mime : string) (s : State) (v : value) :
  fst (uploadFileToB2 env world cfg name buf mime s) = Returns v ->
  exists pre url token,
    trace (snd (uploadFileToB2 env world cfg name buf mime s))
    = (trace s ++ pre ++ [B2_uploadFile url token name buf mime])%list.
Proof.
  unfold uploadFileToB2, try_catch.
  destruct (attempt_extends_trace env world cfg name buf mime false s)
    as (d1 & Ht1 & _).
  destruct (attempt env world cfg name buf mime false s) as [[v0 | e] s1]
    eqn:E1; simpl in Ht1.
  - intros _.
    destruct (attempt_success env world cfg name buf mime false s s1 v0 E1)
      as (pre & resp & d & Ht & _).
    exists (pre ++ [B2_getUploadUrl (bucketId cfg)])%list, (uploadUrl d),
      (authorizationToken d).
    simpl. rewrite Ht, <- !app_assoc. reflexivity.
  - unfold bind, lift.
    destruct (isExpiredAuthError e) as [[ | ] | e']; try discriminate.
    unfold console_warn, modify. simpl.
    match goal with
    | |- context [attempt env world cfg name buf mime true ?s2] =>
        remember s2 as s2' eqn:Hs2;
        destruct (attempt env world cfg name buf mime true s2')
          as [[v1 | e1] s3] eqn:E2
    end; [ | discriminate ].
    intros _.
    destruct (attempt_success env world cfg name buf mime true s2' s3 v1 E2)
      as (pre & resp & d & Ht & _).
    exists (d1
            ++ Console_warn
                 "B2 auth token expired, re-authorizing and retrying upload"
               :: pre ++ [B2_getUploadUrl (bucketId cfg)])%list,
      (uploadUrl d), (authorizationToken d).
    simpl. rewrite Ht. subst s2'. simpl. rewrite Ht1, <- !app_assoc.
    simpl. rewrite <- !app_assoc. reflexivity.
Qed.

(** C10. A [hash] or [targetName] field that is the empty string is
    treated exactly as the field left out: the route gives the same answer
    and ends in the same state. When the store is enabled and B2 takes the
    file, an upload with an empty [hash] is answered 200 with the SHA-256
    of the buffer in hex as [hash], and the record is stored under that
    key; an upload with an empty [targetName] is sent to B2 under the
    original file name, or under ["file"] when that is empty too, and is
    answered 200 and recorded with that name. *)
Theorem empty_field_is_absent :
  (forall file h t s,
      upload_route env world (with_fields file (Some (FText "")) t) s
      = upload_route env world (with_fields file None t) s
      /\ upload_route env world (with_fields file h (Some (FText ""))) s
         = upload_route env world (with_fields file h None) s)
  /\ (forall file t s cfg targetName v,
        fst (ensureB2Ready env world s) = Returns cfg ->
        enabled cfg = true ->
        targetName_of (with_fields (Some file) (Some (FText "")) t) file
        = Returns targetName ->
        fst (uploadFileToB2 env world cfg targetName (buffer file)
               (mimeType_of file) (snd (ensureB2Ready env world s)))
        = Returns v ->
        exists createdAt,
          fst (upload_route env world
                 (with_fields (Some file) (Some (FText "")) t) s)
          = Returns
              (Json 200
                 (upload_ok (hex_of_bytes (sha256 (buffer file))) targetName
                    (fileUrl_of cfg targetName) (mimeType_of file)
                    (size file)))
          /\ reports (snd (upload_route env world
                             (with_fields (Some file) (Some (FText "")) t)
                             s))
             = set (reports s) (hex_of_bytes (sha256 (buffer file)))
                 (report_record targetName (fileUrl_of cfg targetName)
                    (mimeType_of file) createdAt))
  /\ (forall file h s cfg hash v,
        fst (ensureB2Ready env world s) = Returns cfg ->
        enabled cfg = true ->
        hash_of (with_fields (Some file) h (Some (FText ""))) file
        = Returns hash ->
        fst (uploadFileToB2 env world cfg
               (if nonempty (originalname file) then originalname file
                else "file")
               (buffer file) (mimeType_of file)
               (snd (ensureB2Ready env world s)))
        = Returns v ->
        exists createdAt pre post url token,
          fst (upload_route env world
                 (with_fields (Some file) h (Some (FText ""))) s)
          = Returns
              (Json 200
                 (upload_ok hash
                    (if nonempty (originalname file) then originalname file
                     else "file")
                    (fileUrl_of cfg
                       (if nonempty (originalname file)
                        then originalname file else "file"))
                    (mimeType_of file) (size file)))
          /\ reports (snd (upload_route env world
                             (with_fields (Some file) h (Some (FText "")))
                             s))
             = set (reports s) hash
                 (report_record
                    (if nonempty (originalname file) then originalname file
                     else "file")
                    (fileUrl_of cfg
                       (if nonempty (originalname file)
                        then originalname file else "file"))
                    (mimeType_of file) createdAt)
          /\ trace (snd (upload_route env world
                           (with_fields (Some file) h (Some (FText "")))
                           s))
             = (trace s
                ++ pre
                ++ B2_uploadFile url token
                     (if nonempty (originalname file) then originalname file
                      else "file")
                     (buffer file) (mimeType_of file)
                   :: post)%list).
Proof.
  assert (Hrun : forall req file s cfg hash targetName v,
             req_file req = Some file ->
             fst (ensureB2Ready env world s) = Returns cfg ->
             enabled cfg = true ->
             hash_of req file = Returns hash ->
             targetName_of req file = Returns targetName ->
             fst (uploadFileToB2 env world cfg targetName (buffer file)
                    (mimeType_of file) (snd (ensureB2Ready env world s)))
             = Returns v ->
             exists createdAt pre post url token,
               fst (upload_route env world req s)
               = Returns
                   (Json 200
                      (upload_ok hash targetName (fileUrl_of cfg targetName)
                         (mimeType_of file) (size file)))
               /\ reports (snd (upload_route env world req s))
                  = set (reports s) hash
                      (report_record targetName (fileUrl_of cfg targetName)
                         (mimeType_of file) createdAt)
               /\ trace (snd (upload_route env world req s))
                  = (trace s
                     ++ pre
                     ++ B2_uploadFile url token targetName (buffer file)
                          (mimeType_of file)
                        :: post)%list).
  { intros req file s cfg hash targetName v Hfile Hcfg Hen Hhash Hname Hup.
    pose proof (upload_route_cases env world req s) as H.
    rewrite Hfile in H. destruct H as (cfg' & s0 & E0 & H).
    destruct (ensureB2Ready_never_writes env world s) as (d0 & Ht0 & _).
    pose proof (ensureB2Ready_preserves_reports env world s) as Hr0.
    rewrite E0 in Hcfg, Hup, Ht0, Hr0. cbn [fst snd] in Hcfg, Hup, Ht0, Hr0.
    injection Hcfg as ->. rewrite Hen in H.
    unfold upload_enabled_case in H. rewrite Hhash, Hname in H.
    destruct (uploadFileToB2_sends_file cfg targetName (buffer file)
                (mimeType_of file) s0 v Hup) as (pre & url & token & Ht1).
    pose proof (uploadFileToB2_preserves_reports env world cfg targetName
                  (buffer file) (mimeType_of file) s0) as Hr1.
    destruct (uploadFileToB2 env world cfg targetName (buffer file)
                (mimeType_of file) s0) as [[v' | e] s1];
      [ | discriminate ].
    cbn [fst snd] in Ht1, Hr1. rewrite H. cbn [fst snd].
    exists (Date_toISOString world (clock_reads s1)), (d0 ++ pre)%list.
    rewrite saveReports_run.
    cbn [reports set_reports set_clock_reads trace].
    rewrite Ht1, Ht0, Hr1, Hr0.
    destruct (writeFile_result world _) as [[] | e];
      cbn [fst snd reports trace set_trace set_reports set_clock_reads];
      eexists; exists url, token;
      (split; [ reflexivity | ]); (split; [ reflexivity | ]);
      rewrite <- !app_assoc; cbn [app]; reflexivity. }
  split; [ | split ].
  - intros file h t s. split; reflexivity.
  - intros file t s cfg targetName v Hcfg Hen Hname Hup.
    destruct (Hrun (with_fields (Some file) (Some (FText "")) t) file s cfg
                (hex_of_bytes (sha256 (buffer file))) targetName v
                eq_refl Hcfg Hen eq_refl Hname Hup)
      as (createdAt & _ & _ & _ & _ & Hans & Hrep & _).
    exists createdAt. split; assumption.
  - intros file h s cfg hash v Hcfg Hen Hhash Hup.
    exact (Hrun (with_fields (Some file) h (Some (FText ""))) file s cfg
             hash _ v eq_refl Hcfg Hen Hhash eq_refl Hup).
Qed.

End EmptyFields.

Lemma empty_field_is_absent_witness :
  fst (upload_route env_configured world_ok blank_fields_upload
         (fresh_state (object [])))
  = Returns
      (Json 200
         (upload_ok
            "ca7554f0db6ddfa48b2149feffc0dcbf5ed01b110297d7cd8d919185fa842098"
            "report.pdf"
            "https://f000.backblazeb2.com/file/reports/report.pdf"
            "application/pdf" 9))
  /\ (exists createdAt,
        reports (snd (upload_route env_configured world_ok
                        blank_fields_upload (fresh_state (object []))))
        = set (object [])
            "ca7554f0db6ddfa48b2149feffc0dcbf5ed01b110297d7cd8d919185fa842098"
            (report_record "report.pdf"
               "https://f000.backblazeb2.com/file/reports/report.pdf"
               "application/pdf" createdAt))
  /\ exists pre post url token,
       trace (snd (upload_route env_configured world_ok blank_fields_upload
                     (fresh_state (object []))))
       = (pre ++ B2_uploadFile url token "report.pdf" (buffer pdf_file)
                   "application/pdf" :: post)%list.
Proof.
  destruct (proj1 (proj2 (empty_field_is_absent env_configured world_ok))
              pdf_file (Some (FText "")) (fresh_state (object []))
              cfg_ready "report.pdf" (object [])
              eq_refl eq_refl eq_refl eq_refl)
    as (createdAt & Hans & Hrep).
  destruct (proj2 (proj2 (empty_field_is_absent env_configured world_ok))
              pdf_file (Some (FText "")) (fresh_state (object []))
              cfg_ready
              "ca7554f0db6ddfa48b2149feffc0dcbf5ed01b110297d7cd8d919185fa842098"
              (object []) eq_refl eq_refl eq_refl eq_refl)
    as (createdAt' & pre & post & url & token & _ & _ & Htrace).
  split; [ exact Hans | ].
  split; [ exists createdAt; exact Hrep | ].
  exists pre, post, url, token. exact Htrace.
Defined.

(* ===================================================================== *)
(** ** Further theorems at concrete inputs *)
(* ===================================================================== *)

Lemma verify_agrees_with_file_witness :
  file_route stored_registry (Some "k1")
  = Returns (Redirect 302 (VString "https://x/a.pdf"))
  /\ verify_route stored_registry (Some "k1")
     = Returns (Html (Authentic "k1" (VString "a.pdf")
                        (VString "https://x/a.pdf"))).
Proof.
  split; [ reflexivity | ].
  destruct (proj1 (proj2 (verify_agrees_with_file stored_registry
                            (Some "k1")))
              (VString "https://x/a.pdf") eq_refl)
    as (h & name & Hh & Hn & Hv).
  injection Hh as <-. cbv in Hn. injection Hn as <-. exact Hv.
Defined.

Lemma received_is_final_witness :
  Interleaved.received state_authorized 0 = Some (Returns session_old)
  /\ Interleaved.received state_reauthorized 0 = Some (Returns session_old).
Proof.
  split; [ reflexivity | ].
  apply (received_is_final env_configured second_handshake state_authorized
           state_reauthorized 0 (Returns session_old));
    reflexivity.
Defined.

Lemma received_session_was_issued_witness :
  issued state_reauthorized session_new.
Proof.
  apply (received_session_was_issued env_configured state_reauthorized 2
           session_new).
  - exists (first_handshake ++ second_handshake)%list. reflexivity.
  - reflexivity.
Defined.

Lemma null_record_breaks_the_list_witness :
  api_reports_route Date_parse_standard registry_with_null
  = Json 500 (failure msg_unexpected)
  /\ verify_route registry_with_null (Some "gone")
     = Returns (Html NotAuthentic)
  /\ file_route registry_with_null (Some "gone")
     = Returns (Send 404 msg_file_not_found).
Proof.
  apply (null_record_breaks_the_list Date_parse_standard VObjectPrototype
           [("k1", object [("fileName", VString "a.pdf");
                           ("fileUrl", VString "https://x/a.pdf")]);
            ("gone", VNull)]
           "gone");
    reflexivity.
Defined.

Lemma uploaded_file_is_listed_witness :
  exists list item,
    api_reports_route Date_parse_standard
      (reports (state_after env_configured world_ok
                  (tagged_upload "h2" "b.pdf") (fresh_state registry_dated)))
    = JsonReports 200 list
    /\ In item list
    /\ get item "hash" = VString "h2"
    /\ get item "fileUrl"
       = VString "https://f000.backblazeb2.com/file/reports/b.pdf".
Proof.
  assert (Hwell : forall k data,
             In (k, data)
               [("first", object [("fileName", VString "a.pdf");
                                  ("createdAt",
                                   VString "2023-01-01T00:00:00.000Z")]);
                ("none", object [("fileName", VString "b.pdf")]);
                ("second", object [("fileName", VString "c.pdf");
                                   ("createdAt",
                                    VString "2024-01-01T00:00:00.000Z")])] ->
             well_dated Date_parse_standard data).
  { intros k data [E | [E | [E | []]]]; inversion E; subst; clear E;
      unfold well_dated; eexists; (split; [ reflexivity | ]).
    - right. eexists. vm_compute. reflexivity.
    - left. reflexivity.
    - right. eexists. vm_compute. reflexivity. }
  assert (Hclock : forall n, exists t,
             Date_parse_standard (Date_toISOString world_ok n) = Int t).
  { intros n. eexists. vm_compute. reflexivity. }
  assert (Hproto : get (upload_ok "h2" "b.pdf"
                          "https://f000.backblazeb2.com/file/reports/b.pdf"
                          "application/pdf" 9) "hash"
                   <> VString "__proto__") by discriminate.
  destruct (uploaded_file_is_listed env_configured world_ok
              Date_parse_standard (tagged_upload "h2" "b.pdf")
              (fresh_state registry_dated) _ VObjectPrototype _
              eq_refl eq_refl Hproto Hwell Hclock)
    as (list & item & Hl & Hin & Hh & _ & Hu).
  exists list, item. auto.
Defined.

Lemma sequential_agrees_with_interleaving_witness :
  exists st,
    Interleaved.run env_configured (of_State (fresh_state (object [])))
      [Interleaved.Call true 1700000000000;
       Interleaved.Respond 0 (Returns session_old) 1700000000001;
       Interleaved.Resume 0]
    = Some st
    /\ Interleaved.received st 0 = Some (Returns session_old)
    /\ Interleaved.handshakes st = 1%nat.
Proof.
  pose proof (sequential_agrees_with_interleaving env_configured world_ok
                true (fresh_state (object [])) eq_refl eq_refl) as H.
  cbv zeta in H.
  change (Interleaved.cached_session true
            (Date_now world_ok (clock_reads (fresh_state (object []))))
            (of_State (fresh_state (object []))))
    with (@None AuthResponse) in H.
  cbv iota in H.
  destruct H as (st & Hrun & Hrec & _ & _ & _ & _ & Hn).
  exists st. split; [ exact Hrun | ]. split; [ exact Hrec | exact Hn ].
Defined.
